(** * Control-number allocation, repair and validation of the Document
    Management System

    A shallow embedding of [server/lib/db.js] (counter store, record store,
    allocator, resetter, validator) and of the parts of [server/index.js]
    that drive them (formatter, control-number pipeline, record handlers),
    followed by the properties established about them.

    Conventions of the embedding.
    - JavaScript strings are [string]s of 8-bit characters; [null] and
      [undefined] are [None].  A value is truthy when it is [Some s] with
      [s] non-empty.
    - Sequence numbers and counters are exact naturals ([N]).  JavaScript
      numbers are exact on integers below 2^53 and [String] prints them in
      plain decimal below 10^21; the counters are SQLite INTEGERs, so the
      embedding stays inside that range for every database of realistic
      size.
    - Asynchronous storage calls are sequenced in a state-and-exception
      monad over the database; every storage call may be rejected, which is
      driven by a fault script carried next to the database.
    - [initDb] creates the tables with unquoted column names, which
      PostgreSQL folds to lower case.  Where the two storage branches of
      [db.js] part ways because of that, both are modelled: in
      [getNextCounter] the PostgreSQL verification block names quoted
      columns that the tables do not have and is refused by the engine, and
      in [updateRecord] the PostgreSQL row read back has lower-case keys, so
      its camelCase fields are [undefined].  Elsewhere the statements are
      those of the SQLite branch; a statement that PostgreSQL refuses is
      one of the rejected storage calls.
    - [console.log], [console.warn] and [console.error] are not modelled. *)

From Stdlib Require Import String Ascii List NArith ZArith Bool Lia Permutation.
From Stdlib Require Decimal DecimalString DecimalN DecimalPos FinFun Sorted.
Import ListNotations.

Local Open Scope string_scope.
Local Open Scope N_scope.

(* ================================================================== *)
(** ** JavaScript string primitives *)
(* ================================================================== *)

Module JsString.

(** [\d] in a regular expression without the [u] or [v] flag: the ten
    ASCII digits. *)
Definition is_digit (c : ascii) : bool :=
  (48 <=? N_of_ascii c) && (N_of_ascii c <=? 57).

Definition digit_value (c : ascii) : N := N_of_ascii c - 48.

(** The longest run of digits at the head of a string, and what follows:
    what a greedy [\d*] consumes. *)
Fixpoint span_digits (s : string) : string * string :=
  match s with
  | String c r =>
      if is_digit c
      then let (d, t) := span_digits r in (String c d, t)
      else (EmptyString, s)
  | EmptyString => (EmptyString, EmptyString)
  end.

Fixpoint all_digits (s : string) : bool :=
  match s with
  | String c r => is_digit c && all_digits r
  | EmptyString => true
  end.

(** [String(n)] for a non-negative integer. *)
Definition String_of_number (n : N) : string :=
  DecimalString.NilZero.string_of_uint (N.to_uint n).

Fixpoint repeat_char (c : ascii) (k : nat) : string :=
  match k with
  | O => EmptyString
  | S k' => String c (repeat_char c k')
  end.

(** [s.padStart(target, c)] for a one-character pad string. *)
Definition padStart (s : string) (target : nat) (c : ascii) : string :=
  repeat_char c (target - String.length s) ++ s.

(** [s.replace(/-/g, '')]. *)
Fixpoint remove_dashes (s : string) : string :=
  match s with
  | String c r => if Ascii.eqb c "-" then remove_dashes r else String c (remove_dashes r)
  | EmptyString => EmptyString
  end.

(** [s.slice(k)] for a non-negative [k]. *)
Fixpoint slice_from (k : nat) (s : string) : string :=
  match k, s with
  | O, _ => s
  | S k', String _ r => slice_from k' r
  | S _, EmptyString => EmptyString
  end.

Fixpoint parseInt_digits (acc : N) (s : string) : N :=
  match s with
  | String c r =>
      if is_digit c then parseInt_digits (acc * 10 + digit_value c) r else acc
  | EmptyString => acc
  end.

(** [parseInt(s, 10)]: the value of the leading run of digits, [None] for
    [NaN] when there is none.  The program only applies it to captures of
    [(\d+)], so leading white space and signs never occur and are not
    modelled. *)
Definition parseInt (s : string) : option N :=
  match s with
  | String c _ => if is_digit c then Some (parseInt_digits 0 s) else None
  | EmptyString => None
  end.

(** Truthiness of a string-or-null value. *)
Definition truthy (v : option string) : bool :=
  match v with
  | Some (String _ _) => true
  | _ => false
  end.

(** [a || b] on string-or-null values. *)
Definition or_else (a b : option string) : option string :=
  if truthy a then a else b.

(** [a ?? b]. *)
Definition nullish (a b : option string) : option string :=
  match a with
  | Some _ => a
  | None => b
  end.

(** [a === b] on string-or-null values. *)
Definition strict_eq (a b : option string) : bool :=
  match a, b with
  | Some x, Some y => String.eqb x y
  | None, None => true
  | _, _ => false
  end.

End JsString.
Import JsString.

(* ================================================================== *)
(** ** The three regular expressions of the program *)
(* ================================================================== *)

Module Regex.

(** The patterns used by [db.js] are sequences of literal characters and
    capturing groups [(\d+)], anchored at the end of the input by [$]. *)
Inductive atom : Type :=
| Lit (c : ascii)
| Digits.

Definition pattern := list atom.

(** Match of a pattern at the head of a string, up to the end of the
    string; the result lists the captures.  A group [(\d+)] takes the
    longest run of digits: in each pattern of the program the group is
    followed by a literal that is not a digit or by [$], so no shorter run
    can lead to a match and backtracking has nothing to try. *)
Fixpoint match_here (p : pattern) (s : string) : option (list string) :=
  match p with
  | [] => match s with EmptyString => Some [] | String _ _ => None end
  | Lit c :: p' =>
      match s with
      | String c' r => if Ascii.eqb c c' then match_here p' r else None
      | EmptyString => None
      end
  | Digits :: p' =>
      match span_digits s with
      | (String c d, r) =>
          match match_here p' r with
          | Some caps => Some (String c d :: caps)
          | None => None
          end
      | (EmptyString, _) => None
      end
  end.

(** [s.match(p)]: the leftmost position at which the pattern matches. *)
Fixpoint exec (p : pattern) (s : string) : option (list string) :=
  match match_here p s with
  | Some caps => Some caps
  | None =>
      match s with
      | String _ r => exec p r
      | EmptyString => None
      end
  end.

(** [/-(\d+)$/] *)
Definition re_seq : pattern := [Lit "-"; Digits].

(** [/-(\d+)-(\d+)$/] *)
Definition re_date_seq : pattern := [Lit "-"; Digits; Lit "-"; Digits].

(** [/-MC-(\d+)-(\d+)$/] *)
Definition re_mc_date_seq : pattern :=
  [Lit "-"; Lit "M"; Lit "C"; Lit "-"; Digits; Lit "-"; Digits].

(** [match[k]] for [k >= 1]. *)
Definition group (k : nat) (caps : list string) : string :=
  nth (k - 1) caps EmptyString.

End Regex.
Import Regex.

(* ================================================================== *)
(** ** Control Number Formatter ([index.js], [formatCtrlNo]) *)
(* ================================================================== *)

Definition formatCtrlNo (prefix : string) (section : option string)
    (dateStr : string) (seq : N) : string :=
  let date := slice_from 2 (remove_dashes dateStr) in
  let padded := padStart (String_of_number seq) 2 "0" in
  let suffix :=
    match section with
    | Some (String c r) => "-" ++ String c r
    | _ => "-MC"
    end in
  prefix ++ suffix ++ "-" ++ date ++ "-" ++ padded.

(** The date check of [validateDates]: [/^\d{4}-\d{2}-\d{2}$/]. *)
Definition is_iso_date (s : string) : bool :=
  match s with
  | String y1 (String y2 (String y3 (String y4 (String d1
      (String m1 (String m2 (String d2 (String a1 (String a2 EmptyString))))))))) =>
      is_digit y1 && is_digit y2 && is_digit y3 && is_digit y4
      && Ascii.eqb d1 "-" && is_digit m1 && is_digit m2
      && Ascii.eqb d2 "-" && is_digit a1 && is_digit a2
  | _ => false
  end.

(** Sequence extraction as the allocator does it ([getNextCounter]):
    [ctrlNo.match(/-(\d+)$/)] then [parseInt(match[1], 10)]. *)
Definition extract_seq (ctrlNo : string) : option N :=
  match exec re_seq ctrlNo with
  | Some caps => parseInt (group 1 caps)
  | None => None
  end.

(** [extractSequence] of [validateControlNumbers], also inlined in
    [resetCountersForSection]: [parseInt(match[2], 10)] or [null]. *)
Definition extractSequence (controlNumber : string) (p : pattern) : option N :=
  match exec p controlNumber with
  | Some caps => parseInt (group 2 caps)
  | None => None
  end.

(* ================================================================== *)
(** ** Tables of the database ([initDb]) *)
(* ================================================================== *)

(** Column [scope] of table [counters]; the program writes ['MC'] (the
    office-wide scope) and ['SECTION']. *)
Inductive scope : Type := MC | SECTION.

Definition scope_eqb (a b : scope) : bool :=
  match a, b with
  | MC, MC | SECTION, SECTION => true
  | _, _ => false
  end.

(** A row of table [counters]. *)
Record counter : Type := mkCounter {
  c_id : N;
  c_scope : scope;
  c_section : option string;
  currentNumber : N;
  lastDateUsed : option string
}.

(** A row of table [records]; every TEXT column is nullable. *)
Record record : Type := mkRecord {
  id : N;
  mcCtrlNo : option string;
  sectionCtrlNo : option string;
  section : option string;
  dateReceived : option string;
  subjectText : option string;
  subjectFileUrl : option string;
  fromValue : option string;
  fromType : option string;
  targetDate : option string;
  targetDateMode : option string;
  receivedBy : option string;
  actionTaken : option string;
  remarks : option string;
  concernedUnits : option string;
  dateSent : option string;
  createdBy : option string;
  updatedBy : option string;
  createdAt : option string;
  updatedAt : option string
}.

(** The database: both tables in row-id order, and the AUTOINCREMENT
    sequence of each (the largest id ever handed out). *)
Record database : Type := mkDatabase {
  records : list record;
  records_seq : N;
  counters : list counter;
  counters_seq : N
}.

Definition empty_database : database := mkDatabase [] 0 [] 0.

(* ================================================================== *)
(** ** Asynchronous storage calls *)
(* ================================================================== *)

Module Async.

(** How a promise settles. *)
Inductive outcome (A : Type) : Type :=
| Resolved (a : A)
| Rejected (e : string).
Arguments Resolved {A} a.
Arguments Rejected {A} e.

(** The database together with the script of storage faults: the k-th
    storage call from now is rejected when the k-th entry is [true]; past
    the end of the script every call succeeds. *)
Record world : Type := mkWorld {
  db : database;
  faults : list bool
}.

Definition io (A : Type) : Type := world -> outcome A * world.

Definition ret {A : Type} (a : A) : io A := fun w => (Resolved a, w).

Definition bind {A B : Type} (m : io A) (k : A -> io B) : io B :=
  fun w =>
    match m w with
    | (Resolved a, w') => k a w'
    | (Rejected e, w') => (Rejected e, w')
    end.

(** [try { m } catch (e) { h e }]. *)
Definition try_catch {A : Type} (m : io A) (h : string -> io A) : io A :=
  fun w =>
    match m w with
    | (Resolved a, w') => (Resolved a, w')
    | (Rejected e, w') => h e w'
    end.

(** One statement sent to the storage engine ([runSqlite], [allSqlite],
    [getSqlite], [pgPool.query]): rejected when the fault script says so,
    in which case the statement has no effect. *)
Definition query {A : Type} (stmt : database -> A * database) : io A :=
  fun w =>
    match faults w with
    | true :: fs => (Rejected "storage failure", mkWorld (db w) fs)
    | false :: fs => let (a, d) := stmt (db w) in (Resolved a, mkWorld d fs)
    | [] => let (a, d) := stmt (db w) in (Resolved a, mkWorld d [])
    end.

(** A statement that the engine refuses whatever the fault script says:
    the call is made and rejected, without effect. *)
Definition refused {A : Type} : io A :=
  fun w =>
    match faults w with
    | true :: fs => (Rejected "storage failure", mkWorld (db w) fs)
    | false :: fs => (Rejected "column does not exist", mkWorld (db w) fs)
    | [] => (Rejected "column does not exist", mkWorld (db w) [])
    end.

(** A world in which no storage call fails. *)
Definition healthy (d : database) : world := mkWorld d [].

End Async.
Import Async.

Notation "x <- m ;; k" := (bind m (fun x => k))
  (at level 61, m at next level, right associativity).
Notation "m ;;; k" := (bind m (fun _ => k))
  (at level 61, right associativity).

(* ================================================================== *)
(** ** SQL statements issued by [db.js] *)
(* ================================================================== *)

Module Sql.

(** [a = b] in a WHERE clause: never true on NULL. *)
Definition eq_op (a b : option string) : bool :=
  match a, b with
  | Some x, Some y => String.eqb x y
  | _, _ => false
  end.

(** [a IS b] (SQLite) and [a IS NOT DISTINCT FROM b] (PostgreSQL). *)
Definition is_op (a b : option string) : bool := strict_eq a b.

Fixpoint insert_by_id (r : record) (l : list record) : list record :=
  match l with
  | [] => [r]
  | x :: t => if id r <? id x then r :: l else x :: insert_by_id r t
  end.

(** [ORDER BY id]. *)
Definition order_by_id (l : list record) : list record :=
  fold_right insert_by_id [] l.

(** [SELECT * FROM counters WHERE scope = ? AND section IS ?] read with
    [get] (SQLite) or [LIMIT 1] / [rows[0]] (PostgreSQL): the first row. *)
Definition select_counter (sc : scope) (sec : option string)
    (d : database) : option counter * database :=
  (find (fun c => scope_eqb (c_scope c) sc && is_op (c_section c) sec) (counters d), d).

(** [INSERT INTO counters (scope, section, currentNumber, lastDateUsed)
    VALUES (?, ?, 1, ?)]. *)
Definition insert_counter (sc : scope) (sec date : option string)
    (d : database) : unit * database :=
  let i := counters_seq d + 1 in
  (tt, mkDatabase (records d) (records_seq d)
         (counters d ++ [mkCounter i sc sec 1 date]) i).

Definition update_counters (p : counter -> bool) (f : counter -> counter)
    (d : database) : unit * database :=
  (tt, mkDatabase (records d) (records_seq d)
         (map (fun c => if p c then f c else c) (counters d)) (counters_seq d)).

Definition set_number (n : N) (c : counter) : counter :=
  mkCounter (c_id c) (c_scope c) (c_section c) n (lastDateUsed c).

Definition set_number_date (n : N) (date : option string) (c : counter) : counter :=
  mkCounter (c_id c) (c_scope c) (c_section c) n date.

(** [UPDATE counters SET currentNumber = ? WHERE id = ?]. *)
Definition update_number_by_id (n i : N) : database -> unit * database :=
  update_counters (fun c => c_id c =? i) (set_number n).

(** [UPDATE counters SET currentNumber = ?, lastDateUsed = ? WHERE id = ?]. *)
Definition update_number_date_by_id (n : N) (date : option string) (i : N)
    : database -> unit * database :=
  update_counters (fun c => c_id c =? i) (set_number_date n date).

(** [UPDATE counters SET currentNumber = ? WHERE scope = ? AND section IS ?]
    (with [null] bound to the last parameter, or [section IS NULL]). *)
Definition update_number_where_is (n : N) (sc : scope) (sec : option string)
    : database -> unit * database :=
  update_counters (fun c => scope_eqb (c_scope c) sc && is_op (c_section c) sec)
    (set_number n).

(** [UPDATE counters SET currentNumber = ? WHERE scope = ? AND section = ?]. *)
Definition update_number_where_eq (n : N) (sc : scope) (sec : option string)
    : database -> unit * database :=
  update_counters (fun c => scope_eqb (c_scope c) sc && eq_op (c_section c) sec)
    (set_number n).

Definition in_partition (sec date : option string) (r : record) : bool :=
  eq_op (section r) sec && eq_op (dateReceived r) date.

(** [SELECT mcCtrlNo, sectionCtrlNo FROM records
     WHERE section = ? AND dateReceived = ?]. *)
Definition select_partition (sec date : option string)
    (d : database) : list record * database :=
  (filter (in_partition sec date) (records d), d).

(** The same with [ORDER BY id]. *)
Definition select_partition_asc (sec date : option string)
    (d : database) : list record * database :=
  (order_by_id (filter (in_partition sec date) (records d)), d).

(** The same with [ORDER BY id DESC]. *)
Definition select_partition_desc (sec date : option string)
    (d : database) : list record * database :=
  (List.rev (order_by_id (filter (in_partition sec date) (records d))), d).

(** [SELECT * FROM records WHERE id = ?]. *)
Definition select_record (i : N) (d : database) : option record * database :=
  (find (fun r => id r =? i) (records d), d).

(** [INSERT INTO records (...) VALUES (...)]; the row passed in carries
    every column but the id, which the engine assigns and returns
    ([lastID]). *)
Definition set_id (i : N) (r : record) : record :=
  mkRecord i (mcCtrlNo r) (sectionCtrlNo r) (section r) (dateReceived r)
    (subjectText r) (subjectFileUrl r) (fromValue r) (fromType r)
    (targetDate r) (targetDateMode r) (receivedBy r) (actionTaken r)
    (remarks r) (concernedUnits r) (dateSent r) (createdBy r) (updatedBy r)
    (createdAt r) (updatedAt r).

Definition insert_record (r : record) (d : database) : N * database :=
  let i := records_seq d + 1 in
  (i, mkDatabase (records d ++ [set_id i r]) i (counters d) (counters_seq d)).

(** [UPDATE records SET ... WHERE id = ?]: every column but [id],
    [createdBy] and [createdAt] is overwritten from [f]. *)
Definition overwrite (f r : record) : record :=
  mkRecord (id r) (mcCtrlNo f) (sectionCtrlNo f) (section f) (dateReceived f)
    (subjectText f) (subjectFileUrl f) (fromValue f) (fromType f)
    (targetDate f) (targetDateMode f) (receivedBy f) (actionTaken f)
    (remarks f) (concernedUnits f) (dateSent f) (createdBy r) (updatedBy f)
    (createdAt r) (updatedAt f).

Definition update_record (f : record) (i : N) (d : database) : unit * database :=
  (tt, mkDatabase (map (fun r => if id r =? i then overwrite f r else r) (records d))
         (records_seq d) (counters d) (counters_seq d)).

(** The same with [RETURNING *], read as [update.rows[0]]. *)
Definition update_record_returning (f : record) (i : N) (d : database)
    : option record * database :=
  (option_map (overwrite f) (find (fun r => id r =? i) (records d)),
   snd (update_record f i d)).

(** [DELETE FROM records WHERE id = ?]. *)
Definition delete_record (i : N) (d : database) : unit * database :=
  (tt, mkDatabase (filter (fun r => negb (id r =? i)) (records d))
         (records_seq d) (counters d) (counters_seq d)).

End Sql.

(* ================================================================== *)
(** ** Allocator ([db.js]: [peekNextCounter], [getNextCounterPreview],
       [getNextCounter]) *)
(* ================================================================== *)

Definition peekNextCounter (existing : option counter)
    (dateReceived : option string) : N :=
  match existing with
  | None => 1
  | Some e =>
      let lastUsed := lastDateUsed e in
      let current := currentNumber e in
      let dateChanged := truthy dateReceived && negb (strict_eq lastUsed dateReceived) in
      let base := if dateChanged then 0 else current in
      base + 1
  end.

(** Both storage branches run the same lookup and then
    [peekNextCounter]. *)
Definition getNextCounterPreview (sc : scope) (sec dateReceived : option string)
    : io N :=
  existing <- query (Sql.select_counter sc sec) ;;
  ret (peekNextCounter existing dateReceived).

(** The control number of a record that belongs to a scope:
    [scope === 'MC' ? record.mcCtrlNo : record.sectionCtrlNo]. *)
Definition ctrlNo_of (sc : scope) (r : record) : option string :=
  match sc with
  | MC => mcCtrlNo r
  | SECTION => sectionCtrlNo r
  end.

(** One round of the [forEach] that finds the highest actual sequence
    number. *)
Definition highest_step (sc : scope) (highestActual : N) (r : record) : N :=
  match ctrlNo_of sc r with
  | Some (String c s) =>
      match extract_seq (String c s) with
      | Some seq => if highestActual <? seq then seq else highestActual
      | None => highestActual
      end
  | _ => highestActual
  end.

Definition highest_actual (sc : scope) (rows : list record) : N :=
  fold_left (highest_step sc) rows 0.

(** The verification block of [getNextCounter]; [Some n] stands for the
    early [return n].  The SQLite branch stores [highestActual] and returns
    [highestActual + 1].  The PostgreSQL branch selects the quoted columns
    ["mcCtrlNo"], ["sectionCtrlNo"] and ["dateReceived"] and updates the
    quoted ["currentNumber"] and ["lastDateUsed"]; the tables have the
    folded names only, so the engine refuses each of these statements and
    the block rejects at the first. *)
Definition verify_counter (isSqlite : bool) (sc : scope)
    (sec dateReceived : option string) (e : counter) : io (option N) :=
  rows <- (if isSqlite then query (Sql.select_partition sec dateReceived)
           else refused) ;;
  let highestActual := highest_actual sc rows in
  if highestActual <? currentNumber e then
    if isSqlite then
      query (Sql.update_number_by_id highestActual (c_id e)) ;;;
      ret (Some (highestActual + 1))
    else
      @refused unit ;;;
      let next := highestActual + 1 in
      @refused unit ;;;
      ret (Some next)
  else ret None.

Definition getNextCounter (isSqlite : bool) (sc : scope)
    (sec dateReceived : option string) : io N :=
  existing <- query (Sql.select_counter sc sec) ;;
  let dateChanged :=
    truthy dateReceived &&
    match existing with
    | Some e => negb (strict_eq (lastDateUsed e) dateReceived)
    | None => false
    end in
  early <-
    match existing with
    | Some e =>
        if negb dateChanged && truthy sec && truthy dateReceived
        then verify_counter isSqlite sc sec dateReceived e
        else ret None
    | None => ret None
    end ;;
  match early with
  | Some n => ret n
  | None =>
      match existing with
      | None =>
          query (Sql.insert_counter sc sec (or_else dateReceived None)) ;;;
          ret 1
      | Some e =>
          let baseNumber := if dateChanged then 0 else currentNumber e in
          let next := baseNumber + 1 in
          query (Sql.update_number_date_by_id next
                   (or_else dateReceived (lastDateUsed e)) (c_id e)) ;;;
          ret next
      end
  end.

(* ================================================================== *)
(** ** Record store ([db.js]: [createRecord], [getRecord], [updateRecord],
       [deleteRecord]) *)
(* ================================================================== *)

(** The body of a create or update request after [sanitizeInput]. *)
Record payload : Type := mkPayload {
  p_mcCtrlNo : option string;
  p_sectionCtrlNo : option string;
  p_section : option string;
  p_dateReceived : option string;
  p_subjectText : option string;
  p_subjectFileUrl : option string;
  p_fromValue : option string;
  p_fromType : option string;
  p_targetDate : option string;
  p_targetDateMode : option string;
  p_receivedBy : option string;
  p_actionTaken : option string;
  p_remarks : option string;
  p_concernedUnits : option string;
  p_dateSent : option string;
  p_createdBy : option string;
  p_updatedBy : option string;
  p_username : option string;
  p_remarksEmail : bool;
  p_remarksViber : bool;
  p_remarksHardCopy : bool
}.

(** [{ ...payload, mcCtrlNo, sectionCtrlNo, remarks }]. *)
Definition with_ctrl_remarks (p : payload) (mc sec rem : option string) : payload :=
  mkPayload mc sec (p_section p) (p_dateReceived p) (p_subjectText p)
    (p_subjectFileUrl p) (p_fromValue p) (p_fromType p) (p_targetDate p)
    (p_targetDateMode p) (p_receivedBy p) (p_actionTaken p) rem
    (p_concernedUnits p) (p_dateSent p) (p_createdBy p) (p_updatedBy p)
    (p_username p) (p_remarksEmail p) (p_remarksViber p) (p_remarksHardCopy p).

(** [{ ...payload, remarks }]. *)
Definition with_remarks (p : payload) (rem : option string) : payload :=
  with_ctrl_remarks p (p_mcCtrlNo p) (p_sectionCtrlNo p) rem.

(** [now] is [new Date().toISOString()] at the time of the call. *)
Definition createRecord (now : string) (p : payload) : io record :=
  let row :=
    mkRecord 0 (p_mcCtrlNo p) (p_sectionCtrlNo p) (p_section p)
      (p_dateReceived p) (p_subjectText p) (or_else (p_subjectFileUrl p) None)
      (p_fromValue p) (p_fromType p) (p_targetDate p) (p_targetDateMode p)
      (p_receivedBy p) (p_actionTaken p) (p_remarks p) (p_concernedUnits p)
      (p_dateSent p) (or_else (p_createdBy p) (p_username p))
      (or_else (p_updatedBy p) (p_username p)) (Some now) (Some now) in
  lastID <- query (Sql.insert_record row) ;;
  ret (Sql.set_id lastID row).

Definition getRecord (i : N) : io (option record) :=
  query (Sql.select_record i).

(** [current.x] for a camelCase column [x] of the row read by
    [getRecord]: the stored value with SQLite, [undefined] with PostgreSQL,
    whose rows carry the folded key. *)
Definition camel (isSqlite : bool) (v : option string) : option string :=
  if isSqlite then v else None.

(** The object [fields] of [updateRecord]; the columns that the UPDATE
    statement does not set keep the current value.  [section] and
    [remarks] are lower-case names and are read from the current row by
    both engines. *)
Definition update_fields (isSqlite : bool) (now : string) (p : payload)
    (current : record) : record :=
  mkRecord (id current)
    (nullish (p_mcCtrlNo p) (camel isSqlite (mcCtrlNo current)))
    (nullish (p_sectionCtrlNo p) (camel isSqlite (sectionCtrlNo current)))
    (nullish (p_section p) (section current))
    (nullish (p_dateReceived p) (camel isSqlite (dateReceived current)))
    (nullish (p_subjectText p) (camel isSqlite (subjectText current)))
    (nullish (p_subjectFileUrl p) (camel isSqlite (subjectFileUrl current)))
    (nullish (p_fromValue p) (camel isSqlite (fromValue current)))
    (nullish (p_fromType p) (camel isSqlite (fromType current)))
    (nullish (p_targetDate p) (camel isSqlite (targetDate current)))
    (nullish (p_targetDateMode p) (camel isSqlite (targetDateMode current)))
    (nullish (p_receivedBy p) (camel isSqlite (receivedBy current)))
    (nullish (p_actionTaken p) (camel isSqlite (actionTaken current)))
    (nullish (p_remarks p) (remarks current))
    (nullish (p_concernedUnits p) (camel isSqlite (concernedUnits current)))
    (nullish (p_dateSent p) (camel isSqlite (dateSent current)))
    (createdBy current)
    (or_else (p_updatedBy p)
       (or_else (p_username p) (camel isSqlite (updatedBy current))))
    (createdAt current)
    (Some now).

(** The SQLite branch runs the UPDATE and reads the row back; the
    PostgreSQL branch answers the row the UPDATE returns. *)
Definition updateRecord (isSqlite : bool) (now : string) (i : N) (p : payload)
    : io (option record) :=
  current <- getRecord i ;;
  match current with
  | None => ret None
  | Some cur =>
      if isSqlite then
        query (Sql.update_record (update_fields true now p cur) i) ;;;
        getRecord i
      else
        query (Sql.update_record_returning (update_fields false now p cur) i)
  end.

Definition deleteRecord (i : N) : io unit :=
  query (Sql.delete_record i).

(* ================================================================== *)
(** ** Counter Resetter ([db.js]: [resetCountersForSection]) *)
(* ================================================================== *)

Record reset_result : Type := mkResetResult {
  highestMC : N;
  highestSection : N
}.

(** The test-and-raise applied to each of the two running maxima; [p] is
    the pattern applied to that control number. *)
Definition reset_step (sc : scope) (p : pattern) (highest : N) (r : record) : N :=
  match ctrlNo_of sc r with
  | Some (String c s) =>
      match extractSequence (String c s) p with
      | Some seq => if highest <? seq then seq else highest
      | None => highest
      end
  | _ => highest
  end.

(** One round of the [forEach] over the partition: both maxima. *)
Definition reset_round (h : N * N) (r : record) : N * N :=
  (reset_step MC re_mc_date_seq (fst h) r,
   reset_step SECTION re_date_seq (snd h) r).

Definition resetCountersForSection (sec dateReceived : option string)
    : io reset_result :=
  rows <- query (Sql.select_partition_desc sec dateReceived) ;;
  let '(highestMC, highestSection) := fold_left reset_round rows (0, 0) in
  query (Sql.update_number_where_is highestMC MC None) ;;;
  query (Sql.update_number_where_eq highestSection SECTION sec) ;;;
  ret (mkResetResult highestMC highestSection).

(* ================================================================== *)
(** ** Validator ([db.js]: [validateControlNumbers]) *)
(* ================================================================== *)

Record duplicate : Type := mkDuplicate {
  dup_type : scope;
  dup_controlNumber : string;
  dup_recordId : N
}.

Record issue : Type := mkIssue {
  issue_type : scope;
  issue_message : string
}.

Record validation : Type := mkValidation {
  duplicates : list duplicate;
  issues : list issue;
  hasProblems : bool
}.

(** A JavaScript [Set] of strings: its elements in insertion order. *)
Definition set_has (x : string) (s : list string) : bool :=
  existsb (String.eqb x) s.

Definition set_add (x : string) (s : list string) : list string :=
  if set_has x s then s else (s ++ [x])%list.

(** The duplicate check on one control number of one record. *)
Definition check_duplicate (sc : scope) (r : record)
    (st : list string * list duplicate) : list string * list duplicate :=
  let (numbers, dups) := st in
  match ctrlNo_of sc r with
  | Some (String c s) =>
      let cn := String c s in
      (set_add cn numbers,
       if set_has cn numbers then (dups ++ [mkDuplicate sc cn (id r)])%list else dups)
  | _ => st
  end.

(** One round of the first [forEach]: the state is [mcNumbers],
    [sectionNumbers] and [duplicates]. *)
Definition duplicate_round (st : list string * list string * list duplicate)
    (r : record) : list string * list string * list duplicate :=
  let '(mcNumbers, sectionNumbers, dups) := st in
  let (mcNumbers', dups1) := check_duplicate MC r (mcNumbers, dups) in
  let (sectionNumbers', dups2) := check_duplicate SECTION r (sectionNumbers, dups1) in
  (mcNumbers', sectionNumbers', dups2).

Fixpoint insert_sorted (x : N) (l : list N) : list N :=
  match l with
  | [] => [x]
  | y :: t => if x <=? y then x :: l else y :: insert_sorted x t
  end.

(** [.sort((a, b) => a - b)]. *)
Definition sort_numbers (l : list N) : list N :=
  fold_right insert_sorted [] l.

(** [Array.from(numbers).map(cn => extractSequence(cn, p))
      .filter(n => n !== null).sort((a, b) => a - b)]. *)
Definition sequences_of (p : pattern) (numbers : list string) : list N :=
  sort_numbers
    (flat_map (fun cn => match extractSequence cn p with
                         | Some n => [n]
                         | None => []
                         end) numbers).

(** The values taken by [missing] in
    [for (missing = a + 1; missing < b; missing++)]. *)
Definition missing_between (a b : N) : list N :=
  map (fun k => a + 1 + N.of_nat k) (seq 0 (N.to_nat (b - (a + 1)))).

Definition missing_message (missing : N) : string :=
  "Missing control number sequence: " ++ String_of_number missing.

(** The gap loop over a sorted array of sequence numbers. *)
Fixpoint find_gaps (sc : scope) (sequences : list N) : list issue :=
  match sequences with
  | a :: ((b :: _) as rest) =>
      ((if (1 <? Z.of_N b - Z.of_N a)%Z
        then map (fun m => mkIssue sc (missing_message m)) (missing_between a b)
        else [])
       ++ find_gaps sc rest)%list
  | _ => []
  end.

(** Everything [validateControlNumbers] does once the rows are read. *)
Definition validate_rows (rows : list record) : validation :=
  let '(mcNumbers, sectionNumbers, dups) :=
    fold_left duplicate_round rows ([], [], []) in
  let mcSequences := sequences_of re_mc_date_seq mcNumbers in
  let sectionSequences := sequences_of re_date_seq sectionNumbers in
  let found := (find_gaps MC mcSequences ++ find_gaps SECTION sectionSequences)%list in
  mkValidation dups found
    (negb (Nat.eqb (List.length dups) 0) || negb (Nat.eqb (List.length found) 0)).

Definition validateControlNumbers (sec dateReceived : option string)
    : io validation :=
  rows <- query (Sql.select_partition_asc sec dateReceived) ;;
  ret (validate_rows rows).

(* ================================================================== *)
(** ** HTTP layer ([index.js]) *)
(* ================================================================== *)

(** The decoded token of the caller ([req.user]). *)
Inductive role : Type := role_MC | role_SECTION.

Record user : Type := mkUser {
  user_role : role;
  user_section : option string
}.

(** What a handler sends: [res.json(body)] or
    [res.status(status).json({ error })]. *)
Inductive reply (A : Type) : Type :=
| Sent (body : A)
| Failed (status : N) (error : string).
Arguments Sent {A} body.
Arguments Failed {A} status error.

(** [req.user.role === 'SECTION' && section !== req.user.section]. *)
Definition forbidden (u : user) (sec : option string) : bool :=
  match user_role u with
  | role_SECTION => negb (strict_eq sec (user_section u))
  | role_MC => false
  end.

Fixpoint join (sep : string) (l : list string) : string :=
  match l with
  | [] => EmptyString
  | [x] => x
  | x :: t => x ++ sep ++ join sep t
  end.

Definition normalizeRemarks (p : payload) : string :=
  let selected :=
    ((if p_remarksEmail p then ["email"] else [])
     ++ (if p_remarksViber p then ["viber"] else [])
     ++ (if p_remarksHardCopy p then ["hardcopy"] else []))%list in
  match selected with
  | [] => EmptyString
  | _ => "sent through " ++ join "/ " selected
  end.

(** The body of a successful DELETE: [ok], [countersReset], [validation]
    and [warning]; an absent key is [None]. *)
Record delete_body : Type := mkDeleteBody {
  ok : bool;
  countersReset : option reset_result;
  validation_report : option validation;
  warning : option string
}.

Section Handlers.

(** The storage engine in use ([isSqlite]). *)
Variable isSqlite : bool.

(** [new Date(a) < new Date(b)] of the host, on two date strings. *)
Variable date_before : string -> string -> bool.

Definition iso (v : option string) : bool :=
  match v with
  | Some s => is_iso_date s
  | None => false
  end.

Definition before (a b : option string) : bool :=
  match a, b with
  | Some x, Some y => date_before x y
  | _, _ => false
  end.

Definition validateDates (p : payload) : list string :=
  let dateReceived := p_dateReceived p in
  let targetDate := p_targetDate p in
  let dateSent := p_dateSent p in
  ((if truthy dateReceived && negb (iso dateReceived)
   then ["Date received must be in YYYY-MM-DD format"] else [])
  ++ (if truthy targetDate && negb (iso targetDate)
         && negb (strict_eq targetDate (Some EmptyString))
      then if negb (iso targetDate)
           then ["Target date must be in YYYY-MM-DD format or a text description"]
           else []
      else [])
  ++ (if truthy dateSent && negb (iso dateSent)
         && negb (strict_eq dateSent (Some EmptyString))
      then ["Date sent must be in YYYY-MM-DD format"] else [])
  ++ (if truthy dateReceived && truthy targetDate && iso dateReceived && iso targetDate
      then if before targetDate dateReceived
           then ["Target date cannot be earlier than date received"] else []
      else [])
  ++ (if truthy dateReceived && truthy dateSent && iso dateReceived && iso dateSent
      then if before dateSent dateReceived
           then ["Date sent cannot be earlier than date received"] else []
      else []))%list.

(** [getNextControlNumbers(section, dateReceived, preview)]; the handlers
    call it with a truthy section and date only. *)
Definition getNextControlNumbers (sec dateReceived : string) (preview : bool)
    : io (string * string) :=
  let getCounter :=
    if preview then getNextCounterPreview else getNextCounter isSqlite in
  mcSeq <- getCounter MC None (Some dateReceived) ;;
  sectionSeq <- getCounter SECTION (Some sec) (Some dateReceived) ;;
  let mc := formatCtrlNo "RFU4A" None dateReceived mcSeq in
  let sc := formatCtrlNo "RFU4A" (Some sec) dateReceived sectionSeq in
  ret (mc, sc).

(** [POST /records]. *)
Definition post_records (now : string) (u : user) (p : payload)
    : io (reply (record * string)) :=
  if forbidden u (p_section p) then ret (Failed 403 "Forbidden")
  else
    match p_section p, p_dateReceived p with
    | Some (String c1 s1), Some (String c2 s2) =>
        match validateDates p with
        | [] =>
            cn <- getNextControlNumbers (String c1 s1) (String c2 s2) false ;;
            let remarksText := normalizeRemarks p in
            r <- createRecord now
                   (with_ctrl_remarks p (Some (fst cn)) (Some (snd cn))
                      (Some remarksText)) ;;
            ret (Sent (r, remarksText))
        | dateErrors => ret (Failed 400 (join ". " dateErrors))
        end
    | _, _ => ret (Failed 400 "Section and date received are required")
    end.

(** [PUT /records/:id]. *)
Definition put_record (now : string) (u : user) (i : N) (p : payload)
    : io (reply (option record * string)) :=
  r <- getRecord i ;;
  match r with
  | None => ret (Failed 404 "Not found")
  | Some rec =>
      if forbidden u (section rec) then ret (Failed 403 "Forbidden")
      else
        match validateDates p with
        | [] =>
            let remarksText := normalizeRemarks p in
            updated <- updateRecord isSqlite now i
                         (with_remarks p (Some remarksText)) ;;
            ret (Sent (updated, remarksText))
        | dateErrors => ret (Failed 400 (join ". " dateErrors))
        end
  end.

(** [DELETE /records/:id]. *)
Definition delete_record_handler (u : user) (i : N) : io (reply delete_body) :=
  r <- getRecord i ;;
  match r with
  | None => ret (Failed 404 "Not found")
  | Some rec =>
      if forbidden u (section rec) then ret (Failed 403 "Forbidden")
      else
        deleteRecord i ;;;
        try_catch
          (resetResult <- resetCountersForSection (section rec) (dateReceived rec) ;;
           v <- validateControlNumbers (section rec) (dateReceived rec) ;;
           ret (Sent (mkDeleteBody true (Some resetResult)
                        (if hasProblems v then Some v else None) None)))
          (fun _ =>
             ret (Sent (mkDeleteBody true None None
                          (Some "Record deleted but counter reset failed"))))
  end.

End Handlers.


(* ================================================================== *)
(** * Further parts of the server

    More of [server/lib/db.js] (file column of a record, record listing,
    user accounts) and of [server/index.js] (role checks, the remaining
    record and control-number handlers, folder names and remarks text),
    embedded with the conventions above.  Characters are the code units 0
    to 255 of a JavaScript string. *)
(* ================================================================== *)

(* ================================================================== *)
(** ** File column of a record ([db.js]: [updateRecordFile]) *)
(* ================================================================== *)

Module SqlFile.

(** A row after [SET subjectFileUrl = ?, updatedBy = ?, updatedAt = ?]. *)
Definition set_file (url by_user now : option string) (r : record) : record :=
  mkRecord (id r) (mcCtrlNo r) (sectionCtrlNo r) (section r) (dateReceived r)
    (subjectText r) url (fromValue r) (fromType r) (targetDate r)
    (targetDateMode r) (receivedBy r) (actionTaken r) (remarks r)
    (concernedUnits r) (dateSent r) (createdBy r) by_user (createdAt r) now.

(** [UPDATE records SET subjectFileUrl = ?, updatedBy = ?, updatedAt = ?
     WHERE id = ?]. *)
Definition update_file (url by_user now : option string) (i : N) (d : database)
    : unit * database :=
  (tt, mkDatabase
         (map (fun r => if id r =? i then set_file url by_user now r else r)
            (records d))
         (records_seq d) (counters d) (counters_seq d)).

(** The same with [RETURNING *], read as [update.rows[0]]. *)
Definition update_file_returning (url by_user now : option string) (i : N)
    (d : database) : option record * database :=
  (option_map (set_file url by_user now) (find (fun r => id r =? i) (records d)),
   snd (update_file url by_user now i d)).

End SqlFile.

(** [now] is [new Date().toISOString()] at the time of the call. *)
Definition updateRecordFile (isSqlite : bool) (now : string) (i : N)
    (subjectFileUrl updatedBy : option string) : io (option record) :=
  if isSqlite then
    query (SqlFile.update_file subjectFileUrl (or_else updatedBy None) (Some now) i) ;;;
    getRecord i
  else
    query (SqlFile.update_file_returning subjectFileUrl (or_else updatedBy None)
             (Some now) i).

(* ================================================================== *)
(** ** Role check and the remaining handlers ([index.js]) *)
(* ================================================================== *)

Definition role_eqb (a b : role) : bool :=
  match a, b with
  | role_MC, role_MC | role_SECTION, role_SECTION => true
  | _, _ => false
  end.

(** [requireRole(roles)] in front of a handler; [req.user] is set by the
    authentication middleware. *)
Definition requireRole {A : Type} (roles : list role) (u : user)
    (next : io (reply A)) : io (reply A) :=
  if negb (existsb (role_eqb (user_role u)) roles)
  then ret (Failed 403 "Forbidden")
  else next.

(** The body of a successful GET /records/validate-control-numbers. *)
Record validation_body : Type := mkValidationBody {
  vb_section : string;
  vb_dateReceived : string;
  vb_validation : validation;
  vb_status : string
}.

(** The body of a successful POST /records/reset-counters. *)
Record reset_body : Type := mkResetBody {
  rb_ok : bool;
  rb_section : string;
  rb_dateReceived : string;
  rb_resetResult : reset_result;
  rb_validation : validation
}.

Section MoreHandlers.

Variable isSqlite : bool.

(** [POST /control-numbers/next]. *)
Definition post_control_numbers_next (u : user) (sec dateReceived : option string)
    : io (reply (string * string)) :=
  requireRole [role_MC] u
    match sec with
    | Some (String c1 s1) =>
        match dateReceived with
        | Some (String c2 s2) =>
            result <- getNextControlNumbers isSqlite (String c1 s1) (String c2 s2) false ;;
            ret (Sent result)
        | _ => ret (Failed 400 "Date received is required")
        end
    | _ => ret (Failed 400 "Section is required")
    end.

(** [POST /control-numbers/preview]. *)
Definition post_control_numbers_preview (u : user) (sec dateReceived : option string)
    : io (reply (string * string)) :=
  match sec with
  | Some (String c1 s1) =>
      match dateReceived with
      | Some (String c2 s2) =>
          if forbidden u sec then ret (Failed 403 "Forbidden")
          else
            result <- getNextControlNumbers isSqlite (String c1 s1) (String c2 s2) true ;;
            ret (Sent result)
      | _ => ret (Failed 400 "Date received is required")
      end
  | _ => ret (Failed 400 "Section is required")
  end.

(** [GET /records/validate-control-numbers]. *)
Definition get_validate_control_numbers (u : user) (sec dateReceived : option string)
    : io (reply validation_body) :=
  match sec with
  | Some (String c1 s1) =>
      match dateReceived with
      | Some (String c2 s2) =>
          if forbidden u sec then ret (Failed 403 "Forbidden")
          else
            v <- validateControlNumbers sec dateReceived ;;
            ret (Sent (mkValidationBody (String c1 s1) (String c2 s2) v
                         (if hasProblems v then "issues_found" else "ok")))
      | _ => ret (Failed 400 "dateReceived parameter is required")
      end
  | _ => ret (Failed 400 "Section parameter is required")
  end.

(** [POST /records/reset-counters]. *)
Definition post_reset_counters (u : user) (sec dateReceived : option string)
    : io (reply reset_body) :=
  requireRole [role_MC] u
    match sec with
    | Some (String c1 s1) =>
        match dateReceived with
        | Some (String c2 s2) =>
            result <- resetCountersForSection sec dateReceived ;;
            v <- validateControlNumbers sec dateReceived ;;
            ret (Sent (mkResetBody true (String c1 s1) (String c2 s2) result v))
        | _ => ret (Failed 400 "dateReceived is required")
        end
    | _ => ret (Failed 400 "Section is required")
    end.

(** [GET /records/:id]. *)
Definition get_record_handler (u : user) (i : N) : io (reply record) :=
  r <- getRecord i ;;
  match r with
  | None => ret (Failed 404 "Not found")
  | Some rec =>
      if forbidden u (section rec) then ret (Failed 403 "Forbidden")
      else ret (Sent rec)
  end.

End MoreHandlers.

(* ================================================================== *)
(** ** String methods used by the text helpers *)
(* ================================================================== *)

Module JsText.

(** White space and line terminators among the code units 0 to 255: tab,
    line feed, vertical tab, form feed, carriage return, space and
    no-break space. *)
Definition is_space (c : ascii) : bool :=
  let n := N_of_ascii c in
  ((9 <=? n) && (n <=? 13)) || (n =? 32) || (n =? 160).

Fixpoint trimStart (s : string) : string :=
  match s with
  | String c r => if is_space c then trimStart r else s
  | EmptyString => EmptyString
  end.

Fixpoint trimEnd (s : string) : string :=
  match s with
  | String c r =>
      match trimEnd r with
      | EmptyString => if is_space c then EmptyString else String c EmptyString
      | kept => String c kept
      end
  | EmptyString => EmptyString
  end.

(** [s.trim()]. *)
Definition trim (s : string) : string := trimEnd (trimStart s).

(** Lower case of one code unit: A to Z and the capital letters of the
    Latin-1 block. *)
Definition lower_char (c : ascii) : ascii :=
  let n := N_of_ascii c in
  if ((65 <=? n) && (n <=? 90)) || ((192 <=? n) && (n <=? 214))
     || ((216 <=? n) && (n <=? 222))
  then ascii_of_N (n + 32) else c.

(** [s.toLowerCase()]. *)
Fixpoint toLowerCase (s : string) : string :=
  match s with
  | String c r => String (lower_char c) (toLowerCase r)
  | EmptyString => EmptyString
  end.

(** [s.startsWith(p)]. *)
Fixpoint startsWith (s p : string) : bool :=
  match p, s with
  | EmptyString, _ => true
  | String a p', String b s' => Ascii.eqb a b && startsWith s' p'
  | String _ _, EmptyString => false
  end.

(** [s.endsWith(p)]. *)
Fixpoint endsWith (s p : string) : bool :=
  String.eqb s p
  || match s with
     | String _ r => endsWith r p
     | EmptyString => false
     end.

Fixpoint drop_last (s : string) : string :=
  match s with
  | String c EmptyString => EmptyString
  | String c r => String c (drop_last r)
  | EmptyString => EmptyString
  end.

(** [s.slice(1, -1)]. *)
Definition slice_inner (s : string) : string :=
  match s with
  | String _ r => drop_last r
  | EmptyString => EmptyString
  end.

(** [s.split(sep)] for a one-character separator. *)
Fixpoint split (sep : ascii) (s : string) : list string :=
  match s with
  | EmptyString => [EmptyString]
  | String c r =>
      if Ascii.eqb c sep then EmptyString :: split sep r
      else match split sep r with
           | part :: parts => String c part :: parts
           | [] => [String c EmptyString]
           end
  end.

(** [String(value || '')] for a string or absent value. *)
Definition text_of (value : option string) : string :=
  match value with
  | Some s => s
  | None => EmptyString
  end.

End JsText.

(* ================================================================== *)
(** ** Upload folders ([index.js]: [sanitizeFolderName]) *)
(* ================================================================== *)

(** The class [[a-z0-9_-]]. *)
Definition folder_char (c : ascii) : bool :=
  let n := N_of_ascii c in
  ((97 <=? n) && (n <=? 122)) || ((48 <=? n) && (n <=? 57))
  || (n =? 95) || (n =? 45).

(** [s.replace(/[^a-z0-9_-]+/g, '-')]: every maximal run of characters
    outside the class becomes one dash; [in_run] tells that the previous
    character was outside. *)
Fixpoint replace_runs (in_run : bool) (s : string) : string :=
  match s with
  | EmptyString => EmptyString
  | String c r =>
      if folder_char c then String c (replace_runs false r)
      else if in_run then replace_runs true r
      else String "-" (replace_runs true r)
  end.

Definition sanitizeFolderName (value : option string) (fallback : string) : string :=
  let normalized :=
    replace_runs false
      (JsText.toLowerCase (JsText.trim (JsText.text_of value))) in
  match normalized with
  | EmptyString => fallback
  | _ => normalized
  end.

(* ================================================================== *)
(** ** Remarks text ([index.js]: [coerceRemarksText]) *)
(* ================================================================== *)

(** [Boolean(s)] on a string. *)
Definition nonempty (s : string) : bool :=
  match s with
  | EmptyString => false
  | String _ _ => true
  end.

(** The second [map] of the token pipeline. *)
Definition canonical_token (part : string) : string :=
  if String.eqb part "hard copy" || String.eqb part "hardcopy" then "hardcopy"
  else if String.eqb part "email" then "email"
  else if String.eqb part "viber" then "viber"
  else EmptyString.

(** [order[t]] for [order = { email: 1, viber: 2, hardcopy: 3 }]; the
    tokens that reach the sort are keys of [order]. *)
Definition token_order (t : string) : N :=
  if String.eqb t "email" then 1
  else if String.eqb t "viber" then 2
  else if String.eqb t "hardcopy" then 3
  else 0.

Fixpoint insert_token (t : string) (l : list string) : list string :=
  match l with
  | [] => [t]
  | u :: rest =>
      if token_order t <=? token_order u then t :: l
      else u :: insert_token t rest
  end.

(** [.sort((a, b) => order[a] - order[b])]. *)
Definition sort_tokens (l : list string) : list string :=
  fold_right insert_token [] l.

(** [Array.from(new Set(tokens))]. *)
Definition unique_tokens (tokens : list string) : list string :=
  fold_left (fun s t => set_add t s) tokens [].

(** The parts of a legacy text: [raw.split('/')] trimmed and lowered. *)
Definition remark_parts (raw : string) : list string :=
  map (fun part => JsText.toLowerCase (JsText.trim part)) (JsText.split "/" raw).

Definition remark_tokens (raw : string) : list string :=
  filter nonempty (map canonical_token (filter nonempty (remark_parts raw))).

(** The inner text of a bracketed value that is already formatted, if
    any. *)
Definition bracketed_remarks (raw : string) : option string :=
  if JsText.startsWith raw "[" && JsText.endsWith raw "]"
  then
    let inner := JsText.trim (JsText.slice_inner raw) in
    if JsText.startsWith (JsText.toLowerCase inner) "sent through"
    then Some inner else None
  else None.

Definition coerceRemarksText (value : option string) : string :=
  let raw := JsText.trim (JsText.text_of value) in
  if negb (nonempty raw) then EmptyString
  else if JsText.startsWith (JsText.toLowerCase raw) "sent through" then raw
  else
    match bracketed_remarks raw with
    | Some inner => inner
    | None =>
        match remark_tokens raw with
        | [] => EmptyString
        | tokens =>
            let uniqueSorted := sort_tokens (unique_tokens tokens) in
            "sent through " ++ join "/ " uniqueSorted
        end
    end.

(* ================================================================== *)
(** ** User accounts ([db.js]: [createUser], [getUserByUsername],
       [getUserById], [updateUser]; [seedUsers.js]) *)
(* ================================================================== *)

Module Accounts.

(** A row of table [users].  [isActive] is passed and read as a boolean
    (stored as 1 and 0 by SQLite); the column is nullable. *)
Record account : Type := mkAccount {
  a_id : N;
  a_username : string;
  a_password : string;
  a_role : string;
  a_section : option string;
  a_isActive : option bool;
  a_createdAt : option string;
  a_updatedAt : option string
}.

(** The table and its id sequence (AUTOINCREMENT, SERIAL). *)
Record table : Type := mkTable {
  rows : list account;
  rows_seq : N
}.

Definition empty_table : table := mkTable [] 0.

(** The table together with the script of storage faults. *)
Record store : Type := mkStore {
  tbl : table;
  script : list bool
}.

Definition op (A : Type) : Type := store -> outcome A * store.

Definition ret {A : Type} (a : A) : op A := fun s => (Resolved a, s).

Definition bind {A B : Type} (m : op A) (k : A -> op B) : op B :=
  fun s =>
    match m s with
    | (Resolved a, s') => k a s'
    | (Rejected e, s') => (Rejected e, s')
    end.

Definition try_catch {A : Type} (m : op A) (h : string -> op A) : op A :=
  fun s =>
    match m s with
    | (Resolved a, s') => (Resolved a, s')
    | (Rejected e, s') => h e s'
    end.

(** One statement sent to the storage engine: rejected without effect
    when the fault script says so, and otherwise settled by the engine,
    which may refuse it for a constraint. *)
Definition call {A : Type} (stmt : table -> outcome A * table) : op A :=
  fun s =>
    match script s with
    | true :: fs => (Rejected "storage failure", mkStore (tbl s) fs)
    | false :: fs => let (r, t) := stmt (tbl s) in (r, mkStore t fs)
    | [] => let (r, t) := stmt (tbl s) in (r, mkStore t [])
    end.

Definition sound (t : table) : store := mkStore t [].

(** [INSERT INTO users (username, password, role, section, isActive,
    createdAt, updatedAt) VALUES (?, ?, ?, ?, 1, ?, ?)], answering the new
    row.  [username] is UNIQUE; PostgreSQL draws the id from the sequence
    before it checks the constraint, SQLite does not. *)
Definition insert_user (isSqlite : bool) (username password role : string)
    (section : option string) (now : string) (t : table)
    : outcome account * table :=
  let i := rows_seq t + 1 in
  if existsb (fun a => String.eqb (a_username a) username) (rows t)
  then (Rejected "UNIQUE constraint failed: users.username",
        if isSqlite then t else mkTable (rows t) i)
  else
    let row := mkAccount i username password role section (Some true)
                 (Some now) (Some now) in
    (Resolved row, mkTable (rows t ++ [row]) i).

(** [SELECT * FROM users WHERE username = ? AND isActive = 1]. *)
Definition select_active (username : string) (t : table)
    : outcome (option account) * table :=
  (Resolved
     (find (fun a => String.eqb (a_username a) username
                     && match a_isActive a with
                        | Some true => true
                        | _ => false
                        end) (rows t)), t).

(** [SELECT * FROM users WHERE id = ?]. *)
Definition select_by_id (i : N) (t : table) : outcome (option account) * table :=
  (Resolved (find (fun a => a_id a =? i) (rows t)), t).

(** A field of the argument of [updateUser]: [None] for [undefined],
    [Some None] for [null]. *)
Definition field (A : Type) : Type := option (option A).

Definition given {A : Type} (f : field A) : bool :=
  match f with
  | Some _ => true
  | None => false
  end.

(** The columns after the SET list built by [updateUser]; [None] when a
    NOT NULL column would be set to NULL. *)
Definition set_fields (password role : field string) (section : field string)
    (isActive : field bool) (now : string) (a : account) : option account :=
  match password, role with
  | Some None, _ | _, Some None => None
  | _, _ =>
      Some (mkAccount (a_id a) (a_username a)
              (match password with Some (Some v) => v | _ => a_password a end)
              (match role with Some (Some v) => v | _ => a_role a end)
              (match section with Some v => v | None => a_section a end)
              (match isActive with Some v => v | None => a_isActive a end)
              (a_createdAt a) (Some now))
  end.

(** [UPDATE users SET ... , updatedAt = ? WHERE id = ?], answering the
    updated row if any ([RETURNING *], [rows[0]]). *)
Definition update_user (i : N) (password role : field string)
    (section : field string) (isActive : field bool) (now : string) (t : table)
    : outcome (option account) * table :=
  match find (fun a => a_id a =? i) (rows t) with
  | None => (Resolved None, t)
  | Some cur =>
      match set_fields password role section isActive now cur with
      | None => (Rejected "NOT NULL constraint failed", t)
      | Some _ =>
          let touched a :=
            if a_id a =? i
            then match set_fields password role section isActive now a with
                 | Some b => b
                 | None => a
                 end
            else a in
          (Resolved (Some (touched cur)),
           mkTable (map touched (rows t)) (rows_seq t))
      end
  end.

End Accounts.

Notation "x <~ m ;; k" := (Accounts.bind m (fun x => k))
  (at level 61, m at next level, right associativity).

Section Users.

Import Accounts.

Variable isSqlite : bool.

(** [now] is [new Date().toISOString()] at the time of the call. *)
Definition createUser (now : string) (username password role : string)
    (section : option string) : op (option account) :=
  if isSqlite then
    created <~ call (insert_user true username password role section now) ;;
    call (select_by_id (a_id created))
  else
    created <~ call (insert_user false username password role section now) ;;
    Accounts.ret (Some created).

Definition getUserByUsername (username : string) : op (option account) :=
  call (select_active username).

Definition getUserById (i : N) : op (option account) :=
  call (select_by_id i).

Definition updateUser (now : string) (i : N) (password role : field string)
    (section : field string) (isActive : field bool) : op (option account) :=
  if negb (given password || given role || given section || given isActive)
  then getUserById i
  else if isSqlite then
    _ <~ call (update_user i password role section isActive now) ;;
    getUserById i
  else
    call (update_user i password role section isActive now).

(** An entry of [DEFAULT_USERS]. *)
Record default_user : Type := mkDefault {
  du_username : string;
  du_password : string;
  du_role : string;
  du_section : option string
}.

Definition DEFAULT_USERS : list default_user :=
  [ mkDefault "admin" "admin123" "MC" None;
    mkDefault "NUP Tala" "password" "MC" None;
    mkDefault "PMSG Foncardas" "password" "MC" None;
    mkDefault "NUP Tala - INVES" "password" "SECTION" (Some "INVES");
    mkDefault "NUP San Pedro" "password" "SECTION" (Some "ADM");
    mkDefault "PMSG Foncardas - ADM" "password" "SECTION" (Some "ADM");
    mkDefault "NUP Aldrin" "password" "SECTION" (Some "OPN");
    mkDefault "PCPL Bueno" "password" "SECTION" (Some "OPN");
    mkDefault "PAT Duyag" "password" "SECTION" (Some "OPN");
    mkDefault "NUP Joyce" "password" "SECTION" (Some "INTEL");
    mkDefault "PCPL Jose" "password" "SECTION" (Some "INTEL") ].

(** [bcrypt.hash(password, 10)] and the clock at the k-th round of the
    loop. *)
Variable hash : nat -> string -> string.
Variable clock : nat -> string.

(** The body of the [for] loop of [seedUsers], with its [try]/[catch]. *)
Definition seed_one (k : nat) (u : default_user) : op unit :=
  Accounts.try_catch
    (existing <~ getUserByUsername (du_username u) ;;
     match existing with
     | None =>
         _ <~ createUser (clock k) (du_username u) (hash k (du_password u))
                (du_role u) (du_section u) ;;
         Accounts.ret tt
     | Some _ => Accounts.ret tt
     end)
    (fun _ => Accounts.ret tt).

Fixpoint seed_from (k : nat) (users : list default_user) : op unit :=
  match users with
  | [] => Accounts.ret tt
  | u :: rest => _ <~ seed_one k u ;; seed_from (S k) rest
  end.

Definition seedUsers : op unit := seed_from 0 DEFAULT_USERS.

End Users.

(* ================================================================== *)
(** ** Listing of records ([db.js]: [listRecords]; [index.js]:
       GET /records) *)
(* ================================================================== *)

Module JsNumber.

(** [parseInt(s, 10)] on any string: leading white space is skipped, a
    sign is read, then the leading run of digits; [None] is [NaN].  The
    integers stay in the safe range of JavaScript numbers, and [-0] is read
    as [0], which is falsy as well. *)
Definition parseInt10 (s : string) : option Z :=
  let t := JsText.trimStart s in
  let signed :=
    match t with
    | String "-" r => (true, r)
    | String "+" r => (false, r)
    | _ => (false, t)
    end in
  match parseInt (snd signed) with
  | Some n => Some (if fst signed then (- Z.of_N n)%Z else Z.of_N n)
  | None => None
  end.

(** [n || d] on a number or [NaN]. *)
Definition or_number (n : option Z) (d : Z) : Z :=
  match n with
  | Some 0%Z | None => d
  | Some z => z
  end.

(** The relative index of [Array.prototype.slice] in an array of length
    [n]. *)
Definition relative (n k : Z) : Z :=
  if (k <? 0)%Z then Z.max (n + k) 0 else Z.min k n.

(** [l.slice(start, final)]. *)
Definition slice {A : Type} (l : list A) (start final : Z) : list A :=
  let n := Z.of_nat (List.length l) in
  let k := relative n start in
  firstn (Z.to_nat (relative n final - k)) (skipn (Z.to_nat k) l).

(** [Math.ceil(a / b)] for integers, [b] not zero. *)
Definition ceil_div (a b : Z) : Z := (- ((- a) / b))%Z.

End JsNumber.

(** The body of a successful GET /records. *)
Record listing : Type := mkListing {
  l_records : list (record * string);
  l_total : Z;
  l_page : Z;
  l_limit : Z;
  l_totalPages : Z
}.

Section Listing.

(** The rows of a result set in the order the engine gives them for
    [ORDER BY dateReceived ASC]. *)
Variable order_by_dateReceived : list record -> list record.

(** [SELECT * FROM records WHERE section = ? ORDER BY dateReceived ASC],
    or without the WHERE clause. *)
Definition select_records (sec : option string) (d : database)
    : list record * database :=
  (order_by_dateReceived
     (if truthy sec
      then filter (fun r => Sql.eq_op (section r) sec) (records d)
      else records d), d).

(** [listRecords(filters)]; [sec] is [filters.section]. *)
Definition listRecords (sec : option string) : io (list record) :=
  query (select_records sec).

(** [GET /records] with the query parameters [section], [page] and
    [limit], each a string or absent. *)
Definition get_records (u : user) (q_section q_page q_limit : option string)
    : io (reply listing) :=
  let page := match q_page with Some s => s | None => "1"%string end in
  let limit := match q_limit with Some s => s | None => "1000"%string end in
  let filters :=
    match user_role u with
    | role_SECTION => user_section u
    | role_MC => if truthy q_section then q_section else None
    end in
  allRecords <- listRecords filters ;;
  let pageNum := JsNumber.or_number (JsNumber.parseInt10 page) 1 in
  let limitNum := JsNumber.or_number (JsNumber.parseInt10 limit) 1000 in
  let startIndex := ((pageNum - 1) * limitNum)%Z in
  let endIndex := (startIndex + limitNum)%Z in
  let paginatedRecords := JsNumber.slice allRecords startIndex endIndex in
  ret (Sent (mkListing
               (map (fun row => (row, coerceRemarksText (remarks row)))
                  paginatedRecords)
               (Z.of_nat (List.length allRecords)) pageNum limitNum
               (JsNumber.ceil_div (Z.of_nat (List.length allRecords)) limitNum))).

End Listing.
(* ================================================================== *)
(** * Vocabulary of the properties *)
(* ================================================================== *)

(** Number of dashes in a string and of literal dashes in a pattern. *)
Fixpoint dashes (s : string) : nat :=
  match s with
  | String c r => (if Ascii.eqb c "-" then 1 else 0) + dashes r
  | EmptyString => 0
  end.

Fixpoint pattern_dashes (p : pattern) : nat :=
  match p with
  | Lit c :: p' => (if Ascii.eqb c "-" then 1 else 0) + pattern_dashes p'
  | Digits :: p' => pattern_dashes p'
  | [] => 0
  end.


(** The sequence numbers that the allocator reads in the control numbers
    of one scope, and the largest of a list of numbers (0 when empty). *)
Definition embedded_sequences (sc : scope) (rows : list record) : list N :=
  flat_map (fun r =>
              match ctrlNo_of sc r with
              | Some cn => match extract_seq cn with
                           | Some n => [n]
                           | None => []
                           end
              | None => []
              end) rows.

Definition max_of (l : list N) : N := fold_right N.max 0 l.

(** The WHERE clause of the counter lookup. *)
Definition counter_key (sc : scope) (sec : option string) (c : counter) : bool :=
  scope_eqb (c_scope c) sc && Sql.is_op (c_section c) sec.

(** The counter row of a scope and section, and the rows of a partition,
    as the storage engine returns them. *)
Definition counter_of (sc : scope) (sec : option string) (d : database)
    : option counter :=
  fst (Sql.select_counter sc sec d).

Definition partition (sec date : option string) (d : database) : list record :=
  fst (Sql.select_partition sec date d).

(** Result and final database of a run in which no storage call fails. *)
Definition result_of {A : Type} (m : io A) (d : database) : outcome A :=
  fst (m (healthy d)).

Definition database_after {A : Type} (m : io A) (d : database) : database :=
  db (snd (m (healthy d))).

(* ------------------------------------------------------------------ *)
(** ** Scenarios used as concrete instances *)
(* ------------------------------------------------------------------ *)

Module Scenario.

Definition day : string := "2026-02-18".

Definition row (i : N) (mc sc : string) : record :=
  mkRecord i (Some mc) (Some sc) (Some "INVES") (Some day)
    None None None None None None None None None None None None None None None.

(** Three records numbered 01 to 03 while both counters still say 5: the
    records numbered 04 and 05 were removed without repair. *)
Definition stale : database :=
  mkDatabase
    [row 1 "RFU4A-MC-260218-01" "RFU4A-INVES-260218-01";
     row 2 "RFU4A-MC-260218-02" "RFU4A-INVES-260218-02";
     row 3 "RFU4A-MC-260218-03" "RFU4A-INVES-260218-03"] 5
    [mkCounter 1 MC None 5 (Some day);
     mkCounter 2 SECTION (Some "INVES") 5 (Some day)] 2.

(** Two records sharing one section control number. *)
Definition shared : database :=
  mkDatabase
    [row 1 "RFU4A-MC-260218-01" "RFU4A-INVES-260218-02";
     row 2 "RFU4A-MC-260218-02" "RFU4A-INVES-260218-02"] 2 [] 0.

(** Section sequences 1, 2, 4, 5. *)
Definition gapped : database :=
  mkDatabase
    [row 1 "RFU4A-MC-260218-01" "RFU4A-INVES-260218-01";
     row 2 "RFU4A-MC-260218-02" "RFU4A-INVES-260218-02";
     row 3 "RFU4A-MC-260218-03" "RFU4A-INVES-260218-04";
     row 4 "RFU4A-MC-260218-04" "RFU4A-INVES-260218-05"] 4 [] 0.

Definition office_user : user := mkUser role_MC None.

(** A request body that names the section and the date only. *)
Definition request (sec date : string) : payload :=
  mkPayload None None (Some sec) (Some date) None None None None None None
    None None None None None None None None false false false.

(** ISO dates compare as their strings do. *)
Definition date_before (a b : string) : bool := String.ltb a b.

End Scenario.

(** Whether [getNextCounter] enters its verification block: a row exists,
    its date is the requested one, and section and date are truthy. *)
Definition verifies (sc : scope) (sec date : option string) (d : database) : bool :=
  match counter_of sc sec d with
  | Some e => strict_eq (lastDateUsed e) date && truthy sec && truthy date
  | None => false
  end.

(** Whether the verification block of [getNextCounter] lowers the counter:
    a row exists, its date is the requested one, section and date are
    truthy, and the stored number exceeds the highest actual one. *)
Definition heals (sc : scope) (sec date : option string) (d : database) : bool :=
  match counter_of sc sec d with
  | Some e =>
      strict_eq (lastDateUsed e) date && truthy sec && truthy date
      && (highest_actual sc (partition sec date d) <? currentNumber e)
  | None => false
  end.

(** Whether the verification block takes an allocation off the common
    path: with SQLite when it lowers the counter, with PostgreSQL as soon
    as it is entered, since the engine refuses it. *)
Definition diverted (isSqlite : bool) (sc : scope) (sec date : option string)
    (d : database) : bool :=
  if isSqlite then heals sc sec date d else verifies sc sec date d.

(** A column across an update whose payload carries [given]: it keeps
    its value when the payload does not carry the field (absent or null) or
    carries the stored value, and in any case it holds the old value (the
    update did not go through) or the payload's. *)
Definition field_follows (given old new : option string) : Prop :=
  ((given = None \/ given = old) -> new = old)
  /\ (new = old \/ new = given).

(** Both control numbers of the record [i] follow the payload [p] across
    the operation [m]. *)
Definition control_numbers_follow {A : Type} (p : payload) (m : io A) (i : N)
    (w : world) : Prop :=
  forall r r',
    fst (Sql.select_record i (db w)) = Some r ->
    fst (Sql.select_record i (db (snd (m w)))) = Some r' ->
    field_follows (p_mcCtrlNo p) (mcCtrlNo r) (mcCtrlNo r')
    /\ field_follows (p_sectionCtrlNo p) (sectionCtrlNo r) (sectionCtrlNo r').

(** Pairs of neighbours of an array, and the integers strictly between
    the two numbers of each pair. *)
Definition adjacent_pairs (l : list N) : list (N * N) := combine l (tl l).

Definition missing_numbers (l : list N) : list N :=
  flat_map (fun ab => missing_between (fst ab) (snd ab)) (adjacent_pairs l).

Definition of_type (sc : scope) (x : duplicate) : bool := scope_eqb (dup_type x) sc.

(** Control-number immutability of the record [i] across an operation. *)
Definition control_numbers_kept {A : Type} (m : io A) (i : N) (w : world) : Prop :=
  forall r r',
    fst (Sql.select_record i (db w)) = Some r ->
    fst (Sql.select_record i (db (snd (m w)))) = Some r' ->
    mcCtrlNo r' = mcCtrlNo r /\ sectionCtrlNo r' = sectionCtrlNo r.

(** A request body that carries control numbers of its own. *)
Definition renumbering_request : payload :=
  mkPayload (Some "RFU4A-MC-260218-99") (Some "RFU4A-INVES-260218-99")
    None None None None None None None None None None None None None None
    None None false false false.

(** Whether one of the next [k] storage calls is scripted to fail. *)
Definition script_fails (k : nat) (fs : list bool) : bool :=
  existsb (fun b => b) (firstn k fs).

(** The two maxima that [resetCountersForSection] computes from the rows
    it reads. *)
Definition reset_maxima (sec date : option string) (d : database) : N * N :=
  fold_left reset_round (fst (Sql.select_partition_desc sec date d)) (0, 0).

(** [n] calls of one operation in a row, nothing else in between. *)
Fixpoint repeat_io {A : Type} (n : nat) (m : io A) : io (list A) :=
  match n with
  | O => ret []
  | S n' => a <- m ;; rest <- repeat_io n' m ;; ret (a :: rest)
  end.

(** The numbers 1, 2, ..., n. *)
Definition one_to (n : nat) : list N := map N.of_nat (seq 1 n).

(** A healthy run of [m] from [d] resolves to [a] and leaves [d']. *)
Definition runs {A : Type} (m : io A) (d : database) (a : A) (d' : database) : Prop :=
  m (healthy d) = (Resolved a, healthy d').

(** Sequential allocation as C3 states it. *)
Definition allocates_in_sequence (isSqlite : bool) (sc : scope)
    (sec date : option string) (d : database) (n : nat) : Prop :=
  result_of (repeat_io n (getNextCounter isSqlite sc sec date)) d
  = Resolved (one_to n).

(** The two control numbers carried by the answer to a creation. *)
Definition control_numbers (r : reply (record * string))
    : option string * option string :=
  match r with
  | Sent (x, _) => (mcCtrlNo x, sectionCtrlNo x)
  | Failed _ _ => (None, None)
  end.

(** The control numbers of the k-th record of a section and date. *)
Definition numbered (sec date : string) (k : N) : option string * option string :=
  (Some (formatCtrlNo "RFU4A" None date k),
   Some (formatCtrlNo "RFU4A" (Some sec) date k)).

(** The two counters and the partition after [k] creations for the
    section [sec] on the date [dt]. *)
Definition counted (sec dt : string) (k : N) (d : database) : Prop :=
  exists em es,
    counter_of MC None d = Some em
    /\ currentNumber em = k /\ lastDateUsed em = Some dt
    /\ counter_of SECTION (Some sec) d = Some es
    /\ currentNumber es = k /\ lastDateUsed es = Some dt
    /\ c_id em <> c_id es
    /\ max_of (embedded_sequences SECTION (partition (Some sec) (Some dt) d)) = k.

(** No counter row of either scope and no record of the partition yet. *)
Definition fresh (sec dt : string) (d : database) : Prop :=
  counter_of MC None d = None
  /\ counter_of SECTION (Some sec) d = None
  /\ partition (Some sec) (Some dt) d = [].

(** A creation request that the handler accepts for (sec, dt). *)
Definition accepted (date_before : string -> string -> bool) (u : user)
    (p : payload) (sec dt : string) : Prop :=
  forbidden u (p_section p) = false
  /\ p_section p = Some sec /\ truthy (Some sec) = true
  /\ p_dateReceived p = Some dt /\ truthy (Some dt) = true
  /\ validateDates date_before p = [].

(* ------------------------------------------------------------------ *)
(** ** The counter invariant *)
(* ------------------------------------------------------------------ *)

(** The records of all sections that share a date. *)
Definition dated (date : option string) (d : database) : list record :=
  filter (fun r => Sql.eq_op (dateReceived r) date) (records d).




Definition office_max (dt : string) (d : database) : N :=
  max_of (embedded_sequences MC (dated (Some dt) d)).

Section Reached.

Variable isSqlite : bool.
Variable date_before : string -> string -> bool.
Variable dt : string.


End Reached.

(** Scope and section of a counter row. *)
Definition key_of (c : counter) : scope * option string :=
  (c_scope c, c_section c).






(** A database with its counter table replaced. *)
Definition with_counters (d : database) (l : list counter) : database :=
  mkDatabase (records d) (records_seq d) l (counters_seq d).



(** Two creations in two sections on one day, then the deletion of the
    first record. *)
Definition two_sections_one_deleted : database :=
  database_after
    (post_records true Scenario.date_before "t" Scenario.office_user
       (Scenario.request "INVES" Scenario.day) ;;;
     post_records true Scenario.date_before "t" Scenario.office_user
       (Scenario.request "INTEL" Scenario.day) ;;;
     delete_record_handler Scenario.office_user 1)
    empty_database.

(* ================================================================== *)
(** * Vocabulary of the further properties *)
(* ================================================================== *)

(** What a reset must not change in a counter row: everything but
    [currentNumber]. *)
Definition counter_frame (c : counter) : N * scope * option string * option string :=
  (c_id c, c_scope c, c_section c, lastDateUsed c).


(** The non-empty control numbers of one scope, in row order. *)
Definition numbers_of (sc : scope) (rows : list record) : list string :=
  flat_map (fun r => match ctrlNo_of sc r with
                     | Some (String c s) => [String c s]
                     | _ => []
                     end) rows.

(** The entries the first loop of the validator pushes for one scope when
    it starts with the set [seen]. *)
Fixpoint later_repeats (sc : scope) (seen : list string) (rows : list record)
    : list duplicate :=
  match rows with
  | [] => []
  | r :: rest =>
      match ctrlNo_of sc r with
      | Some (String c s) =>
          ((if set_has (String c s) seen
            then [mkDuplicate sc (String c s) (id r)] else [])
           ++ later_repeats sc (set_add (String c s) seen) rest)%list
      | _ => later_repeats sc seen rest
      end
  end.

(** The set of control numbers of one scope after the first loop. *)
Definition numbers_seen (sc : scope) (seen : list string) (rows : list record)
    : list string :=
  fold_left (fun s cn => set_add cn s) (numbers_of sc rows) seen.

(** The regular expression the validator reads the numbers of a scope
    with, and the sequence numbers it reads in the rows. *)
Definition pattern_of (sc : scope) : pattern :=
  match sc with
  | MC => re_mc_date_seq
  | SECTION => re_date_seq
  end.

Definition sequences_read (sc : scope) (rows : list record) : list N :=
  flat_map (fun cn => match extractSequence cn (pattern_of sc) with
                      | Some n => [n]
                      | None => []
                      end) (numbers_of sc rows).

(** The entry [x] names a row of [rows] whose non-empty control number of
    the scope [sc] is in [seen] or in an earlier row. *)
Definition repeats_in (sc : scope) (seen : list string) (rows : list record)
    (x : duplicate) : Prop :=
  dup_type x = sc
  /\ exists before r after,
       rows = (before ++ r :: after)%list
       /\ dup_recordId x = id r
       /\ ctrlNo_of sc r = Some (dup_controlNumber x)
       /\ dup_controlNumber x <> EmptyString
       /\ (In (dup_controlNumber x) seen
           \/ In (dup_controlNumber x) (numbers_of sc before)).




(** The columns of a record that a file update must not change: all but
    [subjectFileUrl], [updatedBy] and [updatedAt]. *)
Definition file_frame (r : record) : record :=
  SqlFile.set_file None None None r.

(** A request that is turned away in the world [w]: no body is sent and
    the database stays as it was. *)
Definition denied_in {A : Type} (m : io (reply A)) (w : world) : Prop :=
  db (snd (m w)) = db w
  /\ forall body, fst (m w) <> Resolved (Sent body).

(** The record [i], if stored, is not of the section of [u]. *)
Definition foreign_record (u : user) (i : N) (w : world) : Prop :=
  forall rec, fst (Sql.select_record i (db w)) = Some rec ->
              section rec <> user_section u.

(** A section account. *)
Definition intel_user : user := mkUser role_SECTION (Some "INTEL").

(** Every character of a string passes a test. *)
Fixpoint all_chars (p : ascii -> bool) (s : string) : bool :=
  match s with
  | String c r => p c && all_chars p r
  | EmptyString => true
  end.

(** A request body that only ticks remark channels. *)
Definition channels (email viber hardCopy : bool) : payload :=
  mkPayload None None None None None None None None None None
    None None None None None None None None email viber hardCopy.

(** A legacy remarks text names the channel [t]. *)
Definition names_channel (raw t : string) : bool :=
  set_has t (remark_parts raw).

(** The ticked channels in the order of [normalizeRemarks]. *)
Definition selected_channels (email viber hardCopy : bool) : list string :=
  ((if email then ["email"] else [])
   ++ (if viber then ["viber"] else [])
   ++ (if hardCopy then ["hardcopy"] else []))%list.

(** One of the three keys of [order]. *)
Definition channel_token (t : string) : Prop :=
  t = "email"%string \/ t = "viber"%string \/ t = "hardcopy"%string.

(** The keys of the two tables: record ids and counter ids are pairwise
    distinct and were issued by the id sequences, and no two counter rows
    share scope and section. *)
Definition tables_keyed (d : database) : Prop :=
  NoDup (map id (records d))
  /\ Forall (fun r => id r <= records_seq d) (records d)
  /\ NoDup (map c_id (counters d))
  /\ Forall (fun c => c_id c <= counters_seq d) (counters d)
  /\ NoDup (map key_of (counters d)).

(** The operation [m] keeps the property [P] of the database, whatever
    storage calls fail and however it settles. *)
Definition keeps {A : Type} (P : database -> Prop) (m : io A) : Prop :=
  forall w, P (db w) -> P (db (snd (m w))).

(** The handler [m] settles with a success body or a rejection, never
    with an error status. *)
Definition answers_sent {A : Type} (m : io (reply A)) : Prop :=
  forall w status error, fst (m w) <> Resolved (Failed status error).

(** An error status from [m] in the world [w] means that the database is
    as it was. *)
Definition failure_is_clean {A : Type} (m : io (reply A)) (w : world) : Prop :=
  forall status error,
    fst (m w) = Resolved (Failed status error) -> db (snd (m w)) = db w.

(** The keys of table [users]: user names and ids are pairwise distinct
    and the ids were issued by the sequence. *)
Definition accounts_keyed (t : Accounts.table) : Prop :=
  NoDup (map Accounts.a_username (Accounts.rows t))
  /\ NoDup (map Accounts.a_id (Accounts.rows t))
  /\ Forall (fun a => Accounts.a_id a <= Accounts.rows_seq t) (Accounts.rows t).

(** The operation [m] keeps the property [P] of table [users], whatever
    storage calls fail and however it settles. *)
Definition keeps_table {A : Type} (P : Accounts.table -> Prop)
    (m : Accounts.op A) : Prop :=
  forall s, P (Accounts.tbl s) -> P (Accounts.tbl (snd (m s))).

(** What an update of the account [i] may not change between the tables
    [t0] and [t]: the id, name and creation time of every row, the id
    sequence, and the rows of the other accounts. *)
Definition same_but_account (i : N) (t0 t : Accounts.table) : Prop :=
  map (fun a => (Accounts.a_id a, Accounts.a_username a, Accounts.a_createdAt a))
    (Accounts.rows t)
  = map (fun a => (Accounts.a_id a, Accounts.a_username a, Accounts.a_createdAt a))
      (Accounts.rows t0)
  /\ Accounts.rows_seq t = Accounts.rows_seq t0
  /\ filter (fun a => negb (Accounts.a_id a =? i)) (Accounts.rows t)
     = filter (fun a => negb (Accounts.a_id a =? i)) (Accounts.rows t0).

(** A table with the one account "admin". *)
Definition admin_only : Accounts.table :=
  Accounts.mkTable
    [Accounts.mkAccount 1 "admin" "h" "MC" None (Some true) None None] 1.

(** The user names of a table. *)
Definition names_of_table (t : Accounts.table) : list string :=
  map Accounts.a_username (Accounts.rows t).

(** A row as the seeding creates it for an entry of [DEFAULT_USERS]. *)
Definition default_row (a : Accounts.account) : Prop :=
  exists u, In u DEFAULT_USERS
            /\ Accounts.a_username a = du_username u
            /\ Accounts.a_role a = du_role u
            /\ Accounts.a_section a = du_section u
            /\ Accounts.a_isActive a = Some true.

(** The table [t] extends [t0] by rows of default users, the rows of [t0]
    staying first and unchanged. *)
Definition seeded_from (t0 t : Accounts.table) : Prop :=
  exists added,
    Accounts.rows t = (Accounts.rows t0 ++ added)%list
    /\ Forall default_row added.

(** An account of section INVES and the listing it gets of
    [Scenario.stale]. *)
Definition inves_user : user := mkUser role_SECTION (Some "INVES").

Definition stale_listing : listing :=
  mkListing
    [(Scenario.row 1 "RFU4A-MC-260218-01" "RFU4A-INVES-260218-01", EmptyString);
     (Scenario.row 2 "RFU4A-MC-260218-02" "RFU4A-INVES-260218-02", EmptyString);
     (Scenario.row 3 "RFU4A-MC-260218-03" "RFU4A-INVES-260218-03", EmptyString)]
    3 1 1000 1.
(* ================================================================== *)
(** * Properties *)
(* ================================================================== *)

(* ------------------------------------------------------------------ *)
(** ** Strings, digits and decimal notation *)
(* ------------------------------------------------------------------ *)

Lemma append_assoc (a b c : string) : (a ++ b) ++ c = a ++ (b ++ c).
Proof.
  induction a as [|x a IH]; simpl; [reflexivity | now rewrite IH].
Qed.

Lemma is_digit_not_dash (c : ascii) : is_digit c = true -> Ascii.eqb c "-" = false.
Proof.
  intros H. apply Ascii.eqb_neq. intros ->. discriminate H.
Qed.

Lemma span_digits_all (d : string) :
  all_digits d = true -> span_digits d = (d, EmptyString).
Proof.
  induction d as [|x d IH]; simpl; [reflexivity|].
  intros H. apply andb_true_iff in H. destruct H as [Hx Hd].
  now rewrite Hx, (IH Hd).
Qed.

Lemma span_digits_stop (d : string) (c : ascii) (r : string) :
  all_digits d = true -> is_digit c = false ->
  span_digits (d ++ String c r) = (d, String c r).
Proof.
  induction d as [|x d IH]; simpl; intros Hd Hc.
  - now rewrite Hc.
  - apply andb_true_iff in Hd. destruct Hd as [Hx Hd].
    now rewrite Hx, (IH Hd Hc).
Qed.

(** A run of digits splits the string and contains only digits. *)
Lemma span_digits_split (s d r : string) :
  span_digits s = (d, r) -> s = d ++ r /\ all_digits d = true.
Proof.
  revert d r. induction s as [|x s IH]; simpl; intros d r H.
  - inversion H; subst. now split.
  - destruct (is_digit x) eqn:Hx.
    + destruct (span_digits s) as [d' r'] eqn:E. inversion H; subst.
      destruct (IH d' r eq_refl) as [-> Hd]. simpl. now rewrite Hx.
    + inversion H; subst. now split.
Qed.

(** *** [String] and [parseInt] are inverse on naturals *)

Lemma all_digits_uint (d : Decimal.uint) :
  all_digits (DecimalString.NilEmpty.string_of_uint d) = true.
Proof.
  induction d; simpl; auto.
Qed.

(** Evaluation of the digit tests on literal characters. *)
Ltac eval_digits :=
  repeat match goal with
    | |- context [is_digit (Ascii ?a ?b ?c ?d ?e ?f ?g ?h)] =>
        let v := eval vm_compute in (is_digit (Ascii a b c d e f g h)) in
        change (is_digit (Ascii a b c d e f g h)) with v
    | |- context [digit_value (Ascii ?a ?b ?c ?d ?e ?f ?g ?h)] =>
        let v := eval vm_compute in (digit_value (Ascii a b c d e f g h)) in
        change (digit_value (Ascii a b c d e f g h)) with v
    end;
  cbv iota.

Lemma parseInt_digits_pos (d : Decimal.uint) (p : positive) :
  parseInt_digits (N.pos p) (DecimalString.NilEmpty.string_of_uint d)
  = N.pos (Pos.of_uint_acc d p).
Proof.
  revert p. induction d; intros p; cbn -[N.mul N.add Pos.mul Pos.add is_digit digit_value];
    [reflexivity | eval_digits; rewrite <- IHd; f_equal; lia ..].
Qed.

Lemma parseInt_digits_uint (d : Decimal.uint) :
  parseInt_digits 0 (DecimalString.NilEmpty.string_of_uint d) = N.of_uint d.
Proof.
  unfold N.of_uint.
  induction d; cbn -[N.mul N.add Pos.of_uint_acc is_digit digit_value];
    [reflexivity | eval_digits; exact IHd
    | eval_digits; apply parseInt_digits_pos ..].
Qed.

Lemma String_of_number_digits (n : N) :
  exists c s, String_of_number n = String c s /\ all_digits (String c s) = true.
Proof.
  unfold String_of_number. destruct n as [|p]; [now exists "0"%char, EmptyString|].
  pose proof (DecimalPos.Unsigned.to_uint_nonnil p) as Hn. simpl N.to_uint.
  pose proof (all_digits_uint (Pos.to_uint p)) as Hd.
  destruct (Pos.to_uint p) eqn:E; [congruence | ..];
    simpl in *; eauto.
Qed.

Lemma parseInt_digits_String (n : N) :
  parseInt_digits 0 (String_of_number n) = n.
Proof.
  rewrite <- (DecimalN.Unsigned.of_to n) at 2.
  rewrite <- parseInt_digits_uint. unfold String_of_number.
  destruct n as [|p]; [reflexivity|]. simpl N.to_uint.
  pose proof (DecimalPos.Unsigned.to_uint_nonnil p) as Hn.
  destruct (Pos.to_uint p); [congruence | reflexivity ..].
Qed.

(** The padded sequence number is a non-empty run of digits that reads
    back as the number. *)
Lemma padded_spec (n : N) :
  exists c s,
    padStart (String_of_number n) 2 "0" = String c s
    /\ all_digits (String c s) = true
    /\ parseInt (String c s) = Some n.
Proof.
  destruct (String_of_number_digits n) as (c & s & E & Hd).
  pose proof (parseInt_digits_String n) as Hp. rewrite E in Hp.
  unfold padStart. rewrite E.
  destruct s as [|c' s'].
  - exists "0"%char, (String c EmptyString). simpl. split; [reflexivity|].
    simpl in Hd. split; [exact Hd|].
    apply andb_true_iff in Hd. destruct Hd as [Hc _].
    cbn -[N.mul N.add]. simpl in Hp. rewrite Hc in *. now rewrite Hp.
  - exists c, (String c' s').
    replace (2 - String.length (String c (String c' s')))%nat with 0%nat
      by (simpl; lia).
    simpl repeat_char. simpl append. split; [reflexivity|]. split; [exact Hd|].
    unfold parseInt. simpl in Hd. apply andb_true_iff in Hd.
    destruct Hd as [Hc _]. rewrite Hc. now rewrite Hp.
Qed.

(* ------------------------------------------------------------------ *)
(** ** Matching at the end of a string *)
(* ------------------------------------------------------------------ *)

Lemma dashes_app (a b : string) : dashes (a ++ b) = (dashes a + dashes b)%nat.
Proof.
  induction a as [|x a IH]; simpl; [reflexivity | rewrite IH; lia].
Qed.

Lemma dashes_digits (d : string) : all_digits d = true -> dashes d = 0%nat.
Proof.
  induction d as [|x d IH]; simpl; [reflexivity|].
  intros H. apply andb_true_iff in H. destruct H as [Hx Hd].
  now rewrite (is_digit_not_dash x Hx), (IH Hd).
Qed.

(** A string matched from its head to its end holds exactly the dashes of
    the pattern. *)
Lemma match_here_dashes (p : pattern) :
  forall s caps, match_here p s = Some caps -> dashes s = pattern_dashes p.
Proof.
  induction p as [|a p IH]; intros s caps H.
  - destruct s; [reflexivity | discriminate H].
  - destruct a as [c|].
    + destruct s as [|c' r]; [discriminate H|]. simpl in H.
      destruct (Ascii.eqb_spec c c') as [->|]; [|discriminate H].
      simpl. now rewrite (IH r caps H).
    + simpl in H. destruct (span_digits s) as [d r] eqn:E.
      destruct d as [|c d]; [discriminate H|].
      destruct (match_here p r) as [caps'|] eqn:M; [|discriminate H].
      destruct (span_digits_split _ _ _ E) as [-> Hd].
      rewrite dashes_app, (dashes_digits _ Hd), (IH r caps' M). reflexivity.
Qed.

(** The search finds a match that ends the string wherever it starts: a
    match from an earlier dash would hold one dash too many. *)
Lemma exec_skips_prefix (p : pattern) (x y : string) (caps : list string) :
  match_here (Lit "-" :: p) y = Some caps ->
  exec (Lit "-" :: p) (x ++ y) = Some caps.
Proof.
  intros Hy. pose proof (match_here_dashes _ _ _ Hy) as Dy.
  induction x as [|c x IH].
  - simpl append. destruct y; cbn [exec]; now rewrite Hy.
  - simpl append. cbn [exec].
    destruct (match_here (Lit "-" :: p) (String c (x ++ y))) as [caps'|] eqn:M.
    + exfalso. pose proof (match_here_dashes _ _ _ M) as D.
      cbn [match_here] in M.
      destruct (Ascii.eqb_spec "-" c) as [<-|]; [|discriminate M].
      cbn [dashes] in D. rewrite dashes_app, Dy in D.
      change (Ascii.eqb "-" "-") with true in D. cbv iota in D. lia.
    + exact IH.
Qed.

(** The date part of a control number: six digits for a date that passed
    the check of [validateDates]. *)
Lemma short_date_digits (date : string) :
  is_iso_date date = true ->
  exists c s,
    slice_from 2 (remove_dashes date) = String c s
    /\ all_digits (String c s) = true.
Proof.
  unfold is_iso_date.
  do 10 (destruct date as [|? date]; [discriminate|]).
  destruct date; [|discriminate].
  intros H. rewrite !andb_true_iff in H.
  repeat match goal with
         | Hc : _ /\ _ |- _ => destruct Hc
         end.
  repeat match goal with
         | Hd : is_digit ?c = true |- _ =>
             pose proof (is_digit_not_dash c Hd); revert Hd
         | He : Ascii.eqb ?c "-" = true |- _ =>
             apply Ascii.eqb_eq in He; subst c
         end.
  intros. cbn [remove_dashes].
  change (Ascii.eqb "-" "-") with true. cbv iota.
  repeat match goal with
         | Hn : Ascii.eqb ?c "-" = false |- _ => rewrite Hn; clear Hn
         end.
  cbn [slice_from]. do 2 eexists. split; [reflexivity|].
  cbn [all_digits].
  repeat match goal with
         | Hd : is_digit _ = true |- _ => rewrite Hd; clear Hd
         end.
  reflexivity.
Qed.

(* ------------------------------------------------------------------ *)
(** ** What the three patterns read in a formatted control number *)
(* ------------------------------------------------------------------ *)

Lemma match_here_digits_end (c : ascii) (s : string) :
  all_digits (String c s) = true ->
  match_here [Digits] (String c s) = Some [String c s].
Proof.
  intros Hd. cbn [match_here]. now rewrite (span_digits_all _ Hd).
Qed.

Lemma match_here_seq (c : ascii) (s : string) :
  all_digits (String c s) = true ->
  match_here re_seq ("-" ++ String c s) = Some [String c s].
Proof.
  intros Hd. unfold re_seq. cbn [append match_here].
  change (Ascii.eqb "-" "-") with true. cbv iota.
  now apply match_here_digits_end.
Qed.

Lemma match_here_date_seq (c1 : ascii) (s1 : string) (c : ascii) (s : string) :
  all_digits (String c1 s1) = true ->
  all_digits (String c s) = true ->
  match_here re_date_seq ("-" ++ String c1 s1 ++ "-" ++ String c s)
  = Some [String c1 s1; String c s].
Proof.
  intros Hd1 Hd. unfold re_date_seq.
  change ("-" ++ String c1 s1 ++ "-" ++ String c s)
    with (String "-" (String c1 s1 ++ String "-" (String c s))).
  cbn [match_here]. change (Ascii.eqb "-" "-") with true. cbv iota.
  rewrite (span_digits_stop _ "-" _ Hd1 eq_refl).
  change (Ascii.eqb "-" "-") with true. cbv iota.
  now rewrite (span_digits_all _ Hd).
Qed.

Lemma match_here_mc_date_seq (c1 : ascii) (s1 : string) (c : ascii) (s : string) :
  all_digits (String c1 s1) = true ->
  all_digits (String c s) = true ->
  match_here re_mc_date_seq ("-MC" ++ "-" ++ String c1 s1 ++ "-" ++ String c s)
  = Some [String c1 s1; String c s].
Proof.
  intros Hd1 Hd. unfold re_mc_date_seq.
  change ("-MC" ++ "-" ++ String c1 s1 ++ "-" ++ String c s)
    with (String "-" (String "M" (String "C"
            ("-" ++ String c1 s1 ++ "-" ++ String c s)))).
  cbn [match_here].
  change (Ascii.eqb "-" "-") with true.
  change (Ascii.eqb "M" "M") with true.
  change (Ascii.eqb "C" "C") with true. cbv iota.
  exact (match_here_date_seq c1 s1 c s Hd1 Hd).
Qed.

Lemma extract_seq_format (prefix : string) (sec : option string)
    (date : string) (n : N) :
  extract_seq (formatCtrlNo prefix sec date n) = Some n.
Proof.
  unfold formatCtrlNo.
  destruct (padded_spec n) as (c & s & -> & Hd & Hp).
  set (suffix := match sec with Some (String c0 r) => "-" ++ String c0 r | _ => "-MC" end).
  set (dt := slice_from 2 (remove_dashes date)).
  rewrite <- !append_assoc.
  rewrite (append_assoc _ "-" (String c s)).
  unfold extract_seq, re_seq.
  rewrite (exec_skips_prefix [Digits] _ ("-" ++ String c s) [String c s]).
  - exact Hp.
  - now apply match_here_seq.
Qed.

Lemma extractSequence_format_section (prefix : string) (sec : option string)
    (date : string) (n : N) :
  is_iso_date date = true ->
  extractSequence (formatCtrlNo prefix sec date n) re_date_seq = Some n.
Proof.
  intros Hdate. unfold formatCtrlNo.
  destruct (padded_spec n) as (c & s & -> & Hd & Hp).
  destruct (short_date_digits date Hdate) as (c1 & s1 & -> & Hd1).
  set (suffix := match sec with Some (String c0 r) => "-" ++ String c0 r | _ => "-MC" end).
  rewrite <- (append_assoc prefix suffix).
  unfold extractSequence, re_date_seq.
  rewrite (exec_skips_prefix [Digits; Lit "-"; Digits] _
             ("-" ++ String c1 s1 ++ "-" ++ String c s)
             [String c1 s1; String c s]).
  - exact Hp.
  - now apply match_here_date_seq.
Qed.

Lemma extractSequence_format_mc (prefix date : string) (n : N) :
  is_iso_date date = true ->
  extractSequence (formatCtrlNo prefix None date n) re_mc_date_seq = Some n.
Proof.
  intros Hdate. unfold formatCtrlNo.
  destruct (padded_spec n) as (c & s & -> & Hd & Hp).
  destruct (short_date_digits date Hdate) as (c1 & s1 & -> & Hd1).
  unfold extractSequence, re_mc_date_seq.
  rewrite (exec_skips_prefix [Lit "M"; Lit "C"; Lit "-"; Digits; Lit "-"; Digits]
             prefix ("-MC" ++ "-" ++ String c1 s1 ++ "-" ++ String c s)
             [String c1 s1; String c s]).
  - exact Hp.
  - now apply match_here_mc_date_seq.
Qed.

(** C10: for every sequence number [n] (in particular every positive one),
    every section code or null and every date of the form YYYY-MM-DD, the
    trailing numeric suffix that [/-(\d+)$/] extracts from
    [formatCtrlNo(prefix, section, date, n)] parses back to exactly [n];
    padding to two digits loses nothing.  The validator's and resetter's
    patterns [/-(\d+)-(\d+)$/] and [/-MC-(\d+)-(\d+)$/] read the same [n]. *)
Theorem format_parse_roundtrip :
  forall (prefix : string) (sec : option string) (date : string) (n : N),
    is_iso_date date = true ->
    extract_seq (formatCtrlNo prefix sec date n) = Some n
    /\ extractSequence (formatCtrlNo prefix sec date n) re_date_seq = Some n
    /\ extractSequence (formatCtrlNo prefix None date n) re_mc_date_seq = Some n.
Proof.
  intros prefix sec date n Hdate. repeat split.
  - apply extract_seq_format.
  - now apply extractSequence_format_section.
  - now apply extractSequence_format_mc.
Qed.

Lemma format_parse_roundtrip_witness :
  is_iso_date "2026-02-18" = true
  /\ extract_seq (formatCtrlNo "RFU4A" (Some "INVES") "2026-02-18" 123) = Some 123
  /\ extractSequence (formatCtrlNo "RFU4A" (Some "INVES") "2026-02-18" 123)
       re_date_seq = Some 123
  /\ extractSequence (formatCtrlNo "RFU4A" None "2026-02-18" 123)
       re_mc_date_seq = Some 123.
Proof.
  split; [reflexivity|].
  apply (format_parse_roundtrip "RFU4A" (Some "INVES") "2026-02-18" 123).
  reflexivity.
Defined.

(* ------------------------------------------------------------------ *)
(** ** Running storage calls *)
(* ------------------------------------------------------------------ *)

Lemma bind_ret {A B : Type} (a : A) (k : A -> io B) (w : world) :
  bind (ret a) k w = k a w.
Proof. reflexivity. Qed.

Lemma bind_assoc {A B C : Type} (m : io A) (f : A -> io B) (g : B -> io C)
    (w : world) :
  bind (bind m f) g w = bind m (fun x => bind (f x) g) w.
Proof.
  unfold bind. destruct (m w) as [[a|e] w']; reflexivity.
Qed.

(** With no fault scripted a statement runs and the world stays healthy. *)
Lemma query_healthy {A : Type} (stmt : database -> A * database) (d : database) :
  query stmt (healthy d) = (Resolved (fst (stmt d)), healthy (snd (stmt d))).
Proof.
  unfold query, healthy. cbn [faults db]. now destruct (stmt d).
Qed.

Lemma bind_query_healthy {A B : Type} (stmt : database -> A * database)
    (k : A -> io B) (d : database) :
  bind (query stmt) k (healthy d) = k (fst (stmt d)) (healthy (snd (stmt d))).
Proof.
  unfold bind. now rewrite query_healthy.
Qed.

(** A scripted success consumes one entry of the script. *)
Lemma bind_query_pass {A B : Type} (stmt : database -> A * database)
    (k : A -> io B) (d : database) (fs : list bool) :
  bind (query stmt) k (mkWorld d (false :: fs))
  = k (fst (stmt d)) (mkWorld (snd (stmt d)) fs).
Proof.
  unfold bind, query. cbn [faults db]. now destruct (stmt d).
Qed.

(** A scripted fault rejects the call and leaves the database alone. *)
Lemma bind_query_fault {A B : Type} (stmt : database -> A * database)
    (k : A -> io B) (d : database) (fs : list bool) :
  bind (query stmt) k (mkWorld d (true :: fs))
  = (Rejected "storage failure", mkWorld d fs).
Proof. reflexivity. Qed.

Ltac io_healthy :=
  repeat (rewrite bind_assoc || rewrite bind_query_healthy || rewrite bind_ret).

(* ------------------------------------------------------------------ *)
(** ** The allocator's reconciliation *)
(* ------------------------------------------------------------------ *)

Lemma highest_step_max (sc : scope) (h : N) (r : record) :
  highest_step sc h r = N.max h (max_of (embedded_sequences sc [r])).
Proof.
  unfold highest_step, embedded_sequences. cbn [flat_map].
  destruct (ctrlNo_of sc r) as [[|c s]|]; cbn [max_of fold_right app].
  - cbn. lia.
  - destruct (extract_seq (String c s)) as [q|]; cbn [max_of fold_right app].
    + destruct (N.ltb_spec h q); lia.
    + lia.
  - lia.
Qed.

Lemma max_of_app (a b : list N) : max_of (a ++ b) = N.max (max_of a) (max_of b).
Proof.
  induction a as [|x a IH]; cbn [app max_of fold_right].
  - fold (max_of b). lia.
  - fold (max_of (a ++ b)) (max_of a). rewrite IH. lia.
Qed.

Lemma fold_highest_step (sc : scope) (rows : list record) (h : N) :
  fold_left (highest_step sc) rows h
  = N.max h (max_of (embedded_sequences sc rows)).
Proof.
  revert h. induction rows as [|r rows IH]; intros h; cbn [fold_left].
  - cbn. lia.
  - rewrite IH, highest_step_max.
    change (r :: rows) with ([r] ++ rows)%list.
    unfold embedded_sequences at 3. rewrite flat_map_app.
    fold (embedded_sequences sc [r]) (embedded_sequences sc rows).
    rewrite max_of_app. lia.
Qed.

(** The running maximum of the [forEach] is the largest embedded
    sequence number. *)
Lemma highest_actual_max (sc : scope) (rows : list record) :
  highest_actual sc rows = max_of (embedded_sequences sc rows).
Proof.
  unfold highest_actual. rewrite fold_highest_step. lia.
Qed.

(** C4: with SQLite, when the counter row of (scope, s) says [c] for the
    date [d] and the largest sequence number embedded in the stored records
    of (s, d) is [m < c] (the claim's instance is c = 5, m = 3), the next
    [getNextCounter] for (scope, s, d) returns [m + 1] (4, not 6): the
    actual maximum becomes the base. *)
Theorem self_healing_on_stale_counter :
  forall (sc : scope) (d : database) (s dt : string)
         (e : counter) (c m : N),
    truthy (Some s) = true ->
    truthy (Some dt) = true ->
    counter_of sc (Some s) d = Some e ->
    currentNumber e = c ->
    lastDateUsed e = Some dt ->
    max_of (embedded_sequences sc (partition (Some s) (Some dt) d)) = m ->
    m < c ->
    result_of (getNextCounter true sc (Some s) (Some dt)) d = Resolved (m + 1).
Proof.
  intros sc d s dt e c m Hs Hdt He Hc Hl Hm Hlt.
  unfold counter_of, partition in *.
  unfold result_of, getNextCounter. io_healthy.
  cbn [Sql.select_counter fst snd] in *. rewrite He, Hl.
  cbn [strict_eq]. rewrite String.eqb_refl, Hs, Hdt. cbn [negb andb].
  unfold verify_counter. io_healthy.
  rewrite highest_actual_max, Hm, Hc.
  apply N.ltb_lt in Hlt. rewrite Hlt.
  io_healthy; reflexivity.
Qed.

Lemma self_healing_on_stale_counter_witness :
  result_of (getNextCounter true SECTION (Some "INVES") (Some Scenario.day))
    Scenario.stale = Resolved 4.
Proof.
  apply (self_healing_on_stale_counter SECTION Scenario.stale "INVES"
           Scenario.day (mkCounter 2 SECTION (Some "INVES") 5 (Some Scenario.day))
           5 3); try reflexivity.
Defined.

(* ------------------------------------------------------------------ *)
(** ** Lookups after an update of the counter table *)
(* ------------------------------------------------------------------ *)

Lemma find_app_absent {A : Type} (p : A -> bool) (l : list A) (x : A) :
  find p l = None -> find p (l ++ [x]) = if p x then Some x else None.
Proof.
  induction l as [|y l IH]; cbn [find app]; [reflexivity|].
  destruct (p y); [discriminate | exact IH].
Qed.

(** An update by id that keeps scope and section leaves the looked-up row
    in place, updated. *)
Lemma find_update_by_id (sc : scope) (sec : option string)
    (f : counter -> counter) (l : list counter) (e : counter) :
  (forall c, counter_key sc sec (f c) = counter_key sc sec c) ->
  find (counter_key sc sec) l = Some e ->
  find (counter_key sc sec)
    (map (fun c => if c_id c =? c_id e then f c else c) l) = Some (f e).
Proof.
  intros Hf. induction l as [|x l IH]; cbn [find map]; [discriminate|].
  destruct (counter_key sc sec x) eqn:Kx.
  - intros [= ->]. rewrite N.eqb_refl, Hf, Kx. reflexivity.
  - intros H. specialize (IH H).
    destruct (c_id x =? c_id e); [rewrite Hf|]; rewrite Kx; exact IH.
Qed.

Lemma counter_key_set_number sc sec n c :
  counter_key sc sec (Sql.set_number n c) = counter_key sc sec c.
Proof. reflexivity. Qed.

Lemma counter_key_set_number_date sc sec n date c :
  counter_key sc sec (Sql.set_number_date n date c) = counter_key sc sec c.
Proof. reflexivity. Qed.

Lemma counter_of_update_date (sc : scope) (sec : option string) (n : N)
    (date : option string) (d : database) (e : counter) :
  counter_of sc sec d = Some e ->
  counter_of sc sec (snd (Sql.update_number_date_by_id n date (c_id e) d))
  = Some (Sql.set_number_date n date e).
Proof.
  unfold counter_of. cbn [Sql.select_counter fst]. fold (counter_key sc sec).
  intros He. cbn [Sql.update_number_date_by_id Sql.update_counters snd counters].
  apply (find_update_by_id sc sec _ _ e
           (counter_key_set_number_date sc sec n date) He).
Qed.

Lemma counter_of_update_number (sc : scope) (sec : option string) (n : N)
    (d : database) (e : counter) :
  counter_of sc sec d = Some e ->
  counter_of sc sec (snd (Sql.update_number_by_id n (c_id e) d))
  = Some (Sql.set_number n e).
Proof.
  unfold counter_of. cbn [Sql.select_counter fst]. fold (counter_key sc sec).
  intros He. cbn [Sql.update_number_by_id Sql.update_counters snd counters].
  apply (find_update_by_id sc sec _ _ e (counter_key_set_number sc sec n) He).
Qed.

Lemma counter_of_insert (sc : scope) (sec date : option string) (d : database) :
  counter_of sc sec d = None ->
  counter_of sc sec (snd (Sql.insert_counter sc sec date d))
  = Some (mkCounter (counters_seq d + 1) sc sec 1 date).
Proof.
  unfold counter_of. cbn [Sql.select_counter fst]. fold (counter_key sc sec).
  intros He. cbn [Sql.insert_counter snd counters].
  rewrite (find_app_absent _ _ _ He).
  unfold counter_key. cbn [c_scope c_section].
  replace (scope_eqb sc sc) with true by now destruct sc.
  unfold Sql.is_op, strict_eq.
  destruct sec; [rewrite String.eqb_refl|]; reflexivity.
Qed.

Lemma run_ret {A : Type} (a : A) (w : world) : ret a w = (Resolved a, w).
Proof. reflexivity. Qed.

(* ------------------------------------------------------------------ *)
(** ** What an allocation stores *)
(* ------------------------------------------------------------------ *)

Lemma unverified_not_diverted (isSqlite : bool) (sc : scope)
    (sec date : option string) (d : database) :
  verifies sc sec date d = false -> diverted isSqlite sc sec date d = false.
Proof.
  unfold diverted, heals, verifies. destruct isSqlite; [|auto].
  destruct (counter_of sc sec d) as [e|]; [|reflexivity].
  now intros ->.
Qed.

(** An allocation that the verification block does not take off the
    common path stores the number it returns together with the requested
    date. *)
Lemma allocate_stores_next (isSqlite : bool) (sc : scope) (sec : option string)
    (dt : string) (d : database) :
  truthy (Some dt) = true ->
  diverted isSqlite sc sec (Some dt) d = false ->
  exists next e',
    result_of (getNextCounter isSqlite sc sec (Some dt)) d = Resolved next
    /\ counter_of sc sec (database_after (getNextCounter isSqlite sc sec (Some dt)) d)
       = Some e'
    /\ currentNumber e' = next
    /\ lastDateUsed e' = Some dt.
Proof.
  intros Hdt Hh.
  assert (Hor : forall x, or_else (Some dt) x = Some dt)
    by (intros x; unfold or_else; now rewrite Hdt).
  unfold result_of, database_after, getNextCounter, diverted, heals, verifies in *.
  io_healthy. cbn [Sql.select_counter fst snd].
  change (find _ (counters d)) with (counter_of sc sec d).
  destruct (counter_of sc sec d) as [e|] eqn:He.
  - rewrite Hdt in *. cbn [andb] in *.
    destruct (strict_eq (lastDateUsed e) (Some dt)) eqn:Hl; cbn [negb andb] in *.
    + destruct (truthy sec) eqn:Hs; cbn [andb] in *.
      * destruct isSqlite; [|discriminate Hh].
        unfold verify_counter. io_healthy.
        change (fst (Sql.select_partition sec (Some dt) d))
          with (partition sec (Some dt) d).
        cbn [snd Sql.select_partition]. rewrite Hh.
        io_healthy. rewrite run_ret. cbn [fst snd db healthy].
        eexists _, _. split; [reflexivity|]. split.
        -- now apply counter_of_update_date.
        -- rewrite Hor. split; reflexivity.
      * io_healthy. rewrite run_ret. cbn [fst snd db healthy].
        eexists _, _. split; [reflexivity|]. split.
        -- now apply counter_of_update_date.
        -- rewrite Hor. split; reflexivity.
    + io_healthy. rewrite run_ret. cbn [fst snd db healthy].
      eexists _, _. split; [reflexivity|]. split.
      * now apply counter_of_update_date.
      * rewrite Hor. split; reflexivity.
  - io_healthy. rewrite run_ret. cbn [fst snd db healthy].
    eexists _, _. split; [reflexivity|]. split.
    + now apply counter_of_insert.
    + rewrite Hor. split; reflexivity.
Qed.

(** When the verification block lowers the counter, the SQLite branch
    returns [highestActual + 1] but stores [highestActual]. *)
Lemma allocate_sqlite_heal_stores_base (sc : scope) (sec date : option string)
    (d : database) (e : counter) :
  counter_of sc sec d = Some e ->
  heals sc sec date d = true ->
  let h := highest_actual sc (partition sec date d) in
  result_of (getNextCounter true sc sec date) d = Resolved (h + 1)
  /\ counter_of sc sec (database_after (getNextCounter true sc sec date) d)
     = Some (Sql.set_number h e).
Proof.
  intros He Hh h. subst h. unfold heals in Hh. rewrite He in Hh.
  apply andb_true_iff in Hh. destruct Hh as [Hh Hlt].
  apply andb_true_iff in Hh. destruct Hh as [Hh Hdt].
  apply andb_true_iff in Hh. destruct Hh as [Hl Hs].
  unfold result_of, database_after, getNextCounter.
  io_healthy. cbn [Sql.select_counter fst snd].
  change (find _ (counters d)) with (counter_of sc sec d).
  rewrite He, Hl, Hs, Hdt. cbn [negb andb].
  unfold verify_counter. io_healthy.
  change (fst (Sql.select_partition sec date d)) with (partition sec date d).
  cbn [snd Sql.select_partition]. rewrite Hlt.
  io_healthy. rewrite run_ret. cbn [fst snd db healthy].
  split; [reflexivity|]. now apply counter_of_update_number.
Qed.

(** C2 (defect of the SQLite branch): on the database [Scenario.stale]
    (counter 5, records up to 03) [getNextCounter] returns 4 but leaves
    [currentNumber = 3] in the counter row, so the postcondition
    [currentNumber = next] fails.  The next creation then hands out 04 a
    second time. *)
Theorem allocate_self_heal_sqlite_stores_maximum :
  let alloc := getNextCounter true SECTION (Some "INVES") (Some Scenario.day) in
  result_of alloc Scenario.stale = Resolved 4
  /\ option_map currentNumber
       (counter_of SECTION (Some "INVES") (database_after alloc Scenario.stale))
     = Some 3
  /\ result_of
       (a <- post_records true Scenario.date_before "t" Scenario.office_user
               (Scenario.request "INVES" Scenario.day) ;;
        b <- post_records true Scenario.date_before "t" Scenario.office_user
               (Scenario.request "INVES" Scenario.day) ;;
        ret (match a, b with
             | Sent (x, _), Sent (y, _) => (sectionCtrlNo x, sectionCtrlNo y)
             | _, _ => (None, None)
             end)) Scenario.stale
     = Resolved (Some "RFU4A-INVES-260218-04", Some "RFU4A-INVES-260218-04").
Proof.
  cbv zeta. repeat split; vm_compute; reflexivity.
Qed.

(* ------------------------------------------------------------------ *)
(** ** Preview against commit *)
(* ------------------------------------------------------------------ *)

(** The preview never writes, whatever the storage engine does. *)
Lemma preview_leaves_database (sc : scope) (sec date : option string) (w : world) :
  db (snd (getNextCounterPreview sc sec date w)) = db w.
Proof.
  unfold getNextCounterPreview, bind, query, ret.
  destruct w as [d [|[] fs]]; reflexivity.
Qed.

(** The preview shows the number the commit assigns whenever the
    verification block does not take the commit off the common path. *)
Lemma preview_agrees_without_heal (isSqlite : bool) (sc : scope)
    (sec date : option string) (d : database) :
  diverted isSqlite sc sec date d = false ->
  result_of (getNextCounterPreview sc sec date) d
  = result_of (getNextCounter isSqlite sc sec date) d.
Proof.
  intros Hh. unfold diverted, heals, verifies in Hh.
  unfold result_of, getNextCounterPreview, getNextCounter.
  io_healthy. cbn [Sql.select_counter fst snd].
  change (find _ (counters d)) with (counter_of sc sec d).
  destruct (counter_of sc sec d) as [e|] eqn:He.
  - unfold peekNextCounter.
    assert (Hfall :
      fst ((query (Sql.update_number_date_by_id
                     ((if truthy date && negb (strict_eq (lastDateUsed e) date)
                       then 0 else currentNumber e) + 1)
                     (or_else date (lastDateUsed e)) (c_id e)) ;;;
            ret ((if truthy date && negb (strict_eq (lastDateUsed e) date)
                  then 0 else currentNumber e) + 1)) (healthy d))
      = Resolved ((if truthy date && negb (strict_eq (lastDateUsed e) date)
                   then 0 else currentNumber e) + 1))
      by (io_healthy; reflexivity).
    destruct (truthy date) eqn:Hdt; cbn [andb] in *.
    + destruct (strict_eq (lastDateUsed e) date) eqn:Hl; cbn [negb andb] in *.
      * destruct (truthy sec) eqn:Hs; cbn [andb] in *.
        -- destruct isSqlite; [|discriminate Hh].
           unfold verify_counter. io_healthy.
           change (fst (Sql.select_partition sec date d)) with (partition sec date d).
           rewrite Hh. io_healthy. symmetry. exact Hfall.
        -- io_healthy. symmetry. exact Hfall.
      * io_healthy. symmetry. exact Hfall.
    + rewrite andb_false_r. io_healthy. symmetry. exact Hfall.
  - io_healthy. reflexivity.
Qed.

(** When the SQLite commit lowers the counter the preview is ahead of
    it. *)
Lemma preview_ahead_on_heal (sc : scope)
    (sec date : option string) (d : database) (e : counter) :
  counter_of sc sec d = Some e ->
  heals sc sec date d = true ->
  exists shown assigned,
    result_of (getNextCounterPreview sc sec date) d = Resolved shown
    /\ result_of (getNextCounter true sc sec date) d = Resolved assigned
    /\ assigned < shown.
Proof.
  intros He Hh. unfold heals in Hh. rewrite He in Hh.
  apply andb_true_iff in Hh. destruct Hh as [Hh Hlt].
  apply andb_true_iff in Hh. destruct Hh as [Hh Hdt].
  apply andb_true_iff in Hh. destruct Hh as [Hl Hs].
  exists (currentNumber e + 1), (highest_actual sc (partition sec date d) + 1).
  apply N.ltb_lt in Hlt. split; [|split; [|lia]].
  - unfold result_of, getNextCounterPreview. io_healthy.
    cbn [Sql.select_counter fst snd].
    change (find _ (counters d)) with (counter_of sc sec d). rewrite He.
    unfold peekNextCounter. rewrite Hl, Hdt. reflexivity.
  - unfold result_of, getNextCounter. io_healthy.
    cbn [Sql.select_counter fst snd].
    change (find _ (counters d)) with (counter_of sc sec d).
    rewrite He, Hl, Hs, Hdt. cbn [negb andb].
    unfold verify_counter. io_healthy.
    change (fst (Sql.select_partition sec date d)) with (partition sec date d).
    apply N.ltb_lt in Hlt. rewrite Hlt.
    io_healthy; reflexivity.
Qed.

(** C5 (defect of the preview): on [Scenario.stale] the preview shows 6
    while the SQLite commit assigns 4: [peekNextCounter] has no
    verification block.  The preview itself leaves the database as it
    was. *)
Theorem preview_disagrees_on_stale_counter :
  result_of (getNextCounterPreview SECTION (Some "INVES") (Some Scenario.day))
    Scenario.stale = Resolved 6
  /\ result_of (getNextCounter true SECTION (Some "INVES") (Some Scenario.day))
       Scenario.stale = Resolved 4
  /\ database_after (getNextCounterPreview SECTION (Some "INVES") (Some Scenario.day))
       Scenario.stale = Scenario.stale.
Proof.
  repeat split; vm_compute; reflexivity.
Qed.

(* ------------------------------------------------------------------ *)
(** ** Validator: duplicates *)
(* ------------------------------------------------------------------ *)

(** For two records sharing one section control number the validator
    reports one SECTION duplicate, and that entry carries the id of the
    later record only. *)
Lemma validate_reports_later_record (sec date : option string) (d : database)
    (r1 r2 : record) (c : ascii) (s : string) :
  Sql.order_by_id (partition sec date d) = [r1; r2] ->
  sectionCtrlNo r1 = Some (String c s) ->
  sectionCtrlNo r2 = Some (String c s) ->
  exists v,
    result_of (validateControlNumbers sec date) d = Resolved v
    /\ filter (of_type SECTION) (duplicates v)
       = [mkDuplicate SECTION (String c s) (id r2)].
Proof.
  intros Hrows H1 H2. unfold result_of, validateControlNumbers, partition in *.
  io_healthy. cbn [Sql.select_partition_asc Sql.select_partition fst snd] in *.
  rewrite Hrows. unfold validate_rows. cbn [fold_left].
  unfold duplicate_round, check_duplicate. cbn [ctrlNo_of].
  rewrite H1, H2.
  destruct (mcCtrlNo r1) as [[|c1 s1]|]; destruct (mcCtrlNo r2) as [[|c2 s2]|];
    cbn [set_has set_add existsb app orb];
    rewrite ?String.eqb_refl; cbn [orb app];
    try (destruct (String.eqb (String c2 s2) (String c1 s1)); cbn [orb app]);
    rewrite ?String.eqb_refl; cbn [orb app existsb];
    rewrite ?String.eqb_refl; cbn [orb];
    rewrite run_ret; cbn [fst]; eexists; (split; [reflexivity|]);
    cbn [duplicates filter of_type dup_type scope_eqb app]; reflexivity.
Qed.

(** C6 (defect of the validator): on [Scenario.shared], where records 1 and
    2 share the section control number RFU4A-INVES-260218-02, the validator
    reports exactly one duplicate, of type SECTION, for that string; the
    entry holds the single field [recordId = 2] and nowhere the id 1 of the
    other record. *)
Theorem validate_duplicate_names_one_record :
  result_of (validateControlNumbers (Some "INVES") (Some Scenario.day))
    Scenario.shared
  = Resolved
      (mkValidation [mkDuplicate SECTION "RFU4A-INVES-260218-02" 2] [] true).
Proof. vm_compute. reflexivity. Qed.

(* ------------------------------------------------------------------ *)
(** ** Validator: gaps *)
(* ------------------------------------------------------------------ *)

Lemma missing_between_spec (a b m : N) :
  In m (missing_between a b) <-> a < m < b.
Proof.
  unfold missing_between. rewrite in_map_iff. split.
  - intros (k & <- & Hk). apply in_seq in Hk. lia.
  - intros H. exists (N.to_nat (m - (a + 1))). split; [lia|].
    apply in_seq. lia.
Qed.

Lemma missing_between_NoDup (a b : N) : NoDup (missing_between a b).
Proof.
  unfold missing_between. apply Finite.Injective_map_NoDup.
  - intros x y H. lia.
  - apply seq_NoDup.
Qed.

Lemma missing_between_close (a b : N) :
  (1 <? Z.of_N b - Z.of_N a)%Z = false -> missing_between a b = [].
Proof.
  intros H. apply Z.ltb_ge in H. unfold missing_between.
  replace (N.to_nat (b - (a + 1))) with 0%nat by lia. reflexivity.
Qed.

(** The gap loop reports, in order, every integer strictly between two
    neighbours of the array, each tagged with the scope. *)
Lemma find_gaps_missing (sc : scope) (l : list N) :
  find_gaps sc l
  = map (fun m => mkIssue sc (missing_message m)) (missing_numbers l).
Proof.
  unfold missing_numbers, adjacent_pairs.
  induction l as [|a l IH]; [reflexivity|].
  destruct l as [|b l]; [reflexivity|].
  change (find_gaps sc (a :: b :: l))
    with ((if (1 <? Z.of_N b - Z.of_N a)%Z
           then map (fun m => mkIssue sc (missing_message m)) (missing_between a b)
           else []) ++ find_gaps sc (b :: l))%list.
  change (combine (a :: b :: l) (tl (a :: b :: l)))
    with ((a, b) :: combine (b :: l) (tl (b :: l))).
  cbn [flat_map fst snd]. rewrite map_app, <- IH.
  destruct (1 <? Z.of_N b - Z.of_N a)%Z eqn:E; [reflexivity|].
  now rewrite (missing_between_close a b E).
Qed.

Lemma insert_sorted_perm (x : N) (l : list N) :
  Permutation (insert_sorted x l) (x :: l).
Proof.
  induction l as [|y l IH]; cbn [insert_sorted]; [reflexivity|].
  destruct (x <=? y); [reflexivity|]. rewrite IH. apply perm_swap.
Qed.

Lemma insert_sorted_ascending (x : N) (l : list N) :
  Sorted.Sorted N.le l -> Sorted.Sorted N.le (insert_sorted x l).
Proof.
  induction 1 as [|y l Hl IH Hy]; cbn [insert_sorted].
  - repeat constructor.
  - destruct (N.leb_spec x y).
    + repeat constructor; auto.
    + constructor; [exact IH|].
      destruct l as [|z l]; cbn [insert_sorted].
      * constructor. lia.
      * destruct (x <=? z); constructor; [lia|]. now inversion Hy.
Qed.

(** The array handed to the gap loop holds the extracted numbers in
    ascending order. *)
Lemma sort_numbers_spec (l : list N) :
  Permutation (sort_numbers l) l /\ Sorted.Sorted N.le (sort_numbers l).
Proof.
  unfold sort_numbers. induction l as [|x l [IHp IHs]]; cbn [fold_right].
  - split; constructor.
  - split.
    + rewrite insert_sorted_perm. now constructor.
    + now apply insert_sorted_ascending.
Qed.

(** C7 (defect of the validator): on [Scenario.gapped], whose section
    sequences are 1, 2, 4, 5, the validator reports exactly one issue, of
    type SECTION, and [hasProblems] is true; but the issue refers to the
    missing sequence by the bare integer in
    "Missing control number sequence: 3", not by the control number
    RFU4A-INVES-260218-03 that the formatter would produce. *)
Theorem validate_gap_names_bare_sequence :
  result_of (validateControlNumbers (Some "INVES") (Some Scenario.day))
    Scenario.gapped
  = Resolved
      (mkValidation [] [mkIssue SECTION "Missing control number sequence: 3"] true)
  /\ formatCtrlNo "RFU4A" (Some "INVES") Scenario.day 3 = "RFU4A-INVES-260218-03".
Proof. split; vm_compute; reflexivity. Qed.

(* ------------------------------------------------------------------ *)
(** ** Updates and the control numbers *)
(* ------------------------------------------------------------------ *)

(** What a storage call can do to the world: answer or be rejected; the
    database it leaves is the one the statement produces or the old one. *)
Lemma query_cases {A : Type} (stmt : database -> A * database) (w : world) :
  (exists fs, query stmt w = (Resolved (fst (stmt (db w))), mkWorld (snd (stmt (db w))) fs))
  \/ (exists fs, query stmt w = (Rejected "storage failure", mkWorld (db w) fs)).
Proof.
  unfold query. destruct w as [d [|[] fs]]; cbn [faults db];
    try (right; eexists; reflexivity);
    left; destruct (stmt d); eexists; reflexivity.
Qed.

Lemma find_update_record (f : record) (i : N) (l : list record) (cur : record) :
  find (fun r => id r =? i) l = Some cur ->
  find (fun r => id r =? i)
    (map (fun r => if id r =? i then Sql.overwrite f r else r) l)
  = Some (Sql.overwrite f cur).
Proof.
  induction l as [|x l IH]; cbn [find map]; [discriminate|].
  destruct (id x =? i) eqn:E.
  - intros [= ->]. cbn [Sql.overwrite id find]. now rewrite E.
  - intros H. rewrite E. now apply IH.
Qed.

Lemma bind_query_cases {A B : Type} (stmt : database -> A * database)
    (k : A -> io B) (w : world) :
  (exists fs, bind (query stmt) k w
              = k (fst (stmt (db w))) (mkWorld (snd (stmt (db w))) fs))
  \/ (exists fs, bind (query stmt) k w
                 = (Rejected "storage failure", mkWorld (db w) fs)).
Proof.
  unfold bind.
  destruct (query_cases stmt w) as [[fs E]|[fs E]]; rewrite E;
    [left | right]; now exists fs.
Qed.

(** A statement that the engine refuses rejects the run and changes
    nothing. *)
Lemma bind_refused {A B : Type} (k : A -> io B) (w : world) :
  exists e fs, bind refused k w = (Rejected e, mkWorld (db w) fs).
Proof.
  unfold bind, refused. destruct (faults w) as [|[|] fs]; eauto.
Qed.

(** Case analysis on the next storage call of a run. *)
Ltac io_case :=
  match goal with
  | |- context [bind refused ?k ?w] =>
      let e := fresh "e" in
      let fs := fresh "fs" in
      let E := fresh "E" in
      destruct (bind_refused k w) as (e & fs & E);
      rewrite E; clear E; cbv beta
  | |- context [bind (query ?s) ?k ?w] =>
      let fs := fresh "fs" in
      let E := fresh "E" in
      destruct (bind_query_cases s k w) as [[fs E]|[fs E]];
      rewrite E; clear E; cbv beta
  | |- context [query ?s ?w] =>
      let fs := fresh "fs" in
      let E := fresh "E" in
      destruct (query_cases s w) as [[fs E]|[fs E]];
      rewrite E; clear E
  end.

Lemma runs_ret {A : Type} (a : A) (d : database) : runs (ret a) d a d.
Proof. reflexivity. Qed.

Lemma runs_bind {A B : Type} (m : io A) (k : A -> io B) (d d1 d2 : database)
    (a : A) (b : B) :
  runs m d a d1 -> runs (k a) d1 b d2 -> runs (bind m k) d b d2.
Proof.
  unfold runs, bind. intros -> H. exact H.
Qed.

Lemma runs_result {A : Type} (m : io A) (d d' : database) (a : A) :
  runs m d a d' -> result_of m d = Resolved a /\ database_after m d = d'.
Proof.
  unfold runs, result_of, database_after. intros ->. now split.
Qed.

(** The database after [updateRecord]: untouched, or with the row [i]
    overwritten from [update_fields]. *)
Lemma updateRecord_database (isSqlite : bool) (now : string) (i : N)
    (p : payload) (w : world) :
  db (snd (updateRecord isSqlite now i p w)) = db w
  \/ exists cur,
       fst (Sql.select_record i (db w)) = Some cur
       /\ db (snd (updateRecord isSqlite now i p w))
          = snd (Sql.update_record (update_fields isSqlite now p cur) i (db w)).
Proof.
  unfold updateRecord, getRecord. io_case; [|now left].
  destruct (fst (Sql.select_record i (db w))) as [cur|] eqn:Hc; [|now left].
  cbn [Sql.select_record snd db]. destruct isSqlite.
  - io_case; [|now left].
    right. exists cur. split; [reflexivity|].
    cbn [db]. io_case; reflexivity.
  - io_case; [|now left]. right. exists cur. now split.
Qed.

(** A run of [updateRecord] on a stored record when no storage call
    fails. *)
Lemma updateRecord_runs (isSqlite : bool) (now : string) (i : N) (p : payload)
    (d : database) (cur : record) :
  fst (Sql.select_record i d) = Some cur ->
  runs (updateRecord isSqlite now i p) d
    (Some (Sql.overwrite (update_fields isSqlite now p cur) cur))
    (snd (Sql.update_record (update_fields isSqlite now p cur) i d)).
Proof.
  intros Hcur. unfold runs, updateRecord, getRecord. io_healthy.
  change (snd (Sql.select_record i d)) with d. rewrite Hcur.
  cbn [Sql.select_record fst] in Hcur. destruct isSqlite.
  - io_healthy. rewrite query_healthy.
    cbn [Sql.select_record Sql.update_record fst snd records].
    now rewrite (find_update_record _ i (records d) cur Hcur).
  - rewrite query_healthy. cbn [Sql.update_record_returning fst snd].
    now rewrite Hcur.
Qed.

Lemma field_follows_nullish (given old : option string) :
  field_follows given old (nullish given old).
Proof.
  unfold field_follows. destruct given as [v|]; cbn [nullish].
  - split; [intros [H| <-]; [discriminate H | reflexivity] | now right].
  - split; [reflexivity | now left].
Qed.

Lemma field_follows_kept (given old : option string) : field_follows given old old.
Proof. split; [reflexivity | now left]. Qed.

Lemma updateRecord_follows (now : string) (i : N) (p : payload) (w : world) :
  control_numbers_follow p (updateRecord true now i p) i w.
Proof.
  intros r r' Hr Hr'.
  destruct (updateRecord_database true now i p w) as [E|(cur & Hc & E)];
    rewrite E in Hr'.
  - rewrite Hr in Hr'. injection Hr' as <-. split; apply field_follows_kept.
  - rewrite Hr in Hc. injection Hc as <-.
    cbn [Sql.select_record Sql.update_record fst snd records] in Hr, Hr'.
    rewrite (find_update_record _ _ _ _ Hr) in Hr'. injection Hr' as <-.
    cbn [Sql.overwrite update_fields mcCtrlNo sectionCtrlNo camel].
    split; apply field_follows_nullish.
Qed.

(** The claim of C8 as stated fails: a body that carries [mcCtrlNo] and
    [sectionCtrlNo] overwrites those of the record. *)
Lemma update_renumbers_record :
  ~ control_numbers_kept (updateRecord true "t" 1 renumbering_request) 1
      (healthy Scenario.stale).
Proof.
  intros H. specialize (H _ _ eq_refl eq_refl). destruct H as [H _].
  vm_compute in H. discriminate H.
Qed.

(** With PostgreSQL the row read back has lower-case keys, so a control
    number that the body does not carry is written as NULL. *)
Lemma update_nulls_on_postgres (now : string) (i : N) (p : payload)
    (d : database) (cur : record) :
  fst (Sql.select_record i d) = Some cur ->
  exists r',
    fst (Sql.select_record i (database_after (updateRecord false now i p) d))
    = Some r'
    /\ mcCtrlNo r' = p_mcCtrlNo p
    /\ sectionCtrlNo r' = p_sectionCtrlNo p.
Proof.
  intros Hcur. destruct (runs_result _ _ _ _ (updateRecord_runs false now i p d cur Hcur))
    as [_ ->].
  cbn [Sql.select_record Sql.update_record fst snd records] in *.
  rewrite (find_update_record _ i (records d) cur Hcur).
  eexists. split; [reflexivity|].
  cbn [Sql.overwrite update_fields mcCtrlNo sectionCtrlNo camel].
  now destruct (p_mcCtrlNo p), (p_sectionCtrlNo p).
Qed.

(** C8, amended: with SQLite, for every existing record and every update
    body, across [updateRecord] and the PUT /records/:id handler built on
    it and whatever storage calls fail, each of [mcCtrlNo] and
    [sectionCtrlNo] keeps its value when the body does not carry the field
    (absent or null) or carries the stored value, and otherwise holds the
    old value or the body's; and when no storage call fails (and, for the
    handler, the request is accepted) the stored value is the body's
    wherever the body carries the field, the old one elsewhere. *)
Theorem update_keeps_control_numbers :
  forall (date_before : string -> string -> bool) (now : string) (u : user)
         (i : N) (p : payload) (w : world) (d : database) (r : record),
    control_numbers_follow p (updateRecord true now i p) i w
    /\ control_numbers_follow p (put_record true date_before now u i p) i w
    /\ (fst (Sql.select_record i d) = Some r ->
        (exists r',
           fst (Sql.select_record i (database_after (updateRecord true now i p) d))
           = Some r'
           /\ mcCtrlNo r' = nullish (p_mcCtrlNo p) (mcCtrlNo r)
           /\ sectionCtrlNo r' = nullish (p_sectionCtrlNo p) (sectionCtrlNo r))
        /\ (forbidden u (section r) = false ->
            validateDates date_before p = [] ->
            exists r',
              fst (Sql.select_record i
                     (database_after (put_record true date_before now u i p) d))
              = Some r'
              /\ mcCtrlNo r' = nullish (p_mcCtrlNo p) (mcCtrlNo r)
              /\ sectionCtrlNo r' = nullish (p_sectionCtrlNo p) (sectionCtrlNo r))).
Proof.
  intros date_before now u i p w d r. split; [|split].
  - apply updateRecord_follows.
  - intros r0 r' Hr. unfold put_record, getRecord.
    assert (Same : forall r1, fst (Sql.select_record i (db w)) = Some r1 ->
                   field_follows (p_mcCtrlNo p) (mcCtrlNo r0) (mcCtrlNo r1)
                   /\ field_follows (p_sectionCtrlNo p) (sectionCtrlNo r0)
                        (sectionCtrlNo r1))
      by (intros r1 H1; rewrite Hr in H1; injection H1 as <-;
          split; apply field_follows_kept).
    io_case; [|exact (Same r')].
    destruct (fst (Sql.select_record i (db w))) as [rec|] eqn:Hf in |- *;
      [|exact (Same r')].
    destruct (forbidden u (section rec)); [exact (Same r')|].
    destruct (validateDates date_before p); [|exact (Same r')].
    cbn [Sql.select_record snd].
    match goal with
    | |- context [bind (updateRecord true now i ?q) ?k ?w1] =>
        pose proof (updateRecord_follows now i q w1 r0 r' Hr) as K;
        unfold bind; destruct (updateRecord true now i q w1) as [[a|e] w2];
        exact K
    end.
  - intros Hr.
    assert (Hstored : forall q,
              p_mcCtrlNo q = p_mcCtrlNo p -> p_sectionCtrlNo q = p_sectionCtrlNo p ->
              exists r',
                fst (Sql.select_record i
                       (snd (Sql.update_record (update_fields true now q r) i d)))
                = Some r'
                /\ mcCtrlNo r' = nullish (p_mcCtrlNo p) (mcCtrlNo r)
                /\ sectionCtrlNo r' = nullish (p_sectionCtrlNo p) (sectionCtrlNo r)).
    { intros q Hm Hs.
      cbn [Sql.select_record Sql.update_record fst snd records] in *.
      rewrite (find_update_record _ i (records d) r Hr).
      eexists. split; [reflexivity|].
      cbn [Sql.overwrite update_fields mcCtrlNo sectionCtrlNo camel].
      now rewrite Hm, Hs. }
    split.
    + destruct (runs_result _ _ _ _ (updateRecord_runs true now i p d r Hr)) as [_ ->].
      now apply Hstored.
    + intros Hf Hv.
      assert (R : runs (put_record true date_before now u i p) d
                    (Sent (Some (Sql.overwrite
                                   (update_fields true now
                                      (with_remarks p (Some (normalizeRemarks p))) r) r),
                           normalizeRemarks p))
                    (snd (Sql.update_record
                            (update_fields true now
                               (with_remarks p (Some (normalizeRemarks p))) r) i d))).
      { unfold put_record. eapply runs_bind.
        - unfold runs, getRecord. rewrite query_healthy. reflexivity.
        - cbn [fst snd Sql.select_record] in *. rewrite Hr, Hf, Hv.
          eapply runs_bind; [apply updateRecord_runs; exact Hr | apply runs_ret]. }
      destruct (runs_result _ _ _ _ R) as [_ ->]. now apply Hstored.
Qed.

Lemma update_keeps_control_numbers_witness :
  control_numbers_follow (Scenario.request "INVES" Scenario.day)
    (put_record true Scenario.date_before "t" Scenario.office_user 1
       (Scenario.request "INVES" Scenario.day)) 1
    (healthy Scenario.stale)
  /\ exists r',
       fst (Sql.select_record 1
              (database_after
                 (put_record true Scenario.date_before "t" Scenario.office_user 1
                    (Scenario.request "INVES" Scenario.day)) Scenario.stale))
       = Some r'
       /\ mcCtrlNo r' = Some "RFU4A-MC-260218-01"%string
       /\ sectionCtrlNo r' = Some "RFU4A-INVES-260218-01"%string.
Proof.
  destruct (update_keeps_control_numbers Scenario.date_before "t"
              Scenario.office_user 1 (Scenario.request "INVES" Scenario.day)
              (healthy Scenario.stale) Scenario.stale
              (Scenario.row 1 "RFU4A-MC-260218-01" "RFU4A-INVES-260218-01"))
    as (_ & Hput & Hrun).
  split; [exact Hput|].
  destruct (Hrun eq_refl) as [_ Hstored]. apply Hstored; reflexivity.
Defined.

(* ------------------------------------------------------------------ *)
(** ** Deletion and the repair that follows it *)
(* ------------------------------------------------------------------ *)

Ltac io_script :=
  repeat (rewrite bind_assoc || rewrite bind_query_pass
          || rewrite bind_query_fault || rewrite bind_ret
          || (change (mkWorld ?d []) with (healthy d); rewrite bind_query_healthy)).

(** The resetter never touches table [records]; it fails exactly when one
    of its three storage calls is rejected. *)
Lemma reset_run (sec date : option string) (d : database) (fs : list bool) :
  exists d' fs',
    records d' = records d
    /\ resetCountersForSection sec date (mkWorld d fs)
       = (if script_fails 3 fs
          then Rejected "storage failure"
          else Resolved (mkResetResult (fst (reset_maxima sec date d))
                           (snd (reset_maxima sec date d))),
          mkWorld d' fs')
    /\ (script_fails 3 fs = false -> fs' = skipn 3 fs).
Proof.
  unfold resetCountersForSection, reset_maxima.
  destruct fs as [|[] [|[] [|[] fs]]]; unfold script_fails;
    cbn [firstn existsb orb skipn]; io_script;
    cbn [Sql.select_partition_desc fst snd];
    try (eexists _, _; split; [|split; [reflexivity|intros; try discriminate; reflexivity]];
         reflexivity);
    destruct (fold_left reset_round _ (0, 0)) as [a b]; io_script;
    eexists _, _; (split; [|split; [reflexivity|intros; try discriminate; reflexivity]]);
    reflexivity.
Qed.

Lemma validate_run (sec date : option string) (d : database) (fs : list bool) :
  validateControlNumbers sec date (mkWorld d fs)
  = (if script_fails 1 fs
     then Rejected "storage failure"
     else Resolved (validate_rows (fst (Sql.select_partition_asc sec date d))),
     mkWorld d (skipn 1 fs)).
Proof.
  unfold validateControlNumbers.
  destruct fs as [|[] fs]; unfold script_fails; cbn [firstn existsb orb skipn];
    io_script; reflexivity.
Qed.

Lemma select_deleted (i : N) (d : database) :
  fst (Sql.select_record i (snd (Sql.delete_record i d))) = None.
Proof.
  cbn [Sql.select_record Sql.delete_record fst snd records].
  induction (records d) as [|x l IH]; cbn [filter find]; [reflexivity|].
  destruct (id x =? i) eqn:E; cbn [negb find]; [exact IH|].
  now rewrite E.
Qed.

Lemma script_fails_split (fs : list bool) :
  script_fails 4 fs = script_fails 3 fs || script_fails 1 (skipn 3 fs).
Proof.
  unfold script_fails.
  destruct fs as [|a [|b [|c [|e fs]]]]; cbn [firstn existsb skipn orb];
    rewrite ?orb_false_r, ?orb_assoc; reflexivity.
Qed.

Lemma bind_query_spared {A B : Type} (stmt : database -> A * database)
    (k : A -> io B) (d : database) (fs : list bool) :
  script_fails 1 fs = false ->
  bind (query stmt) k (mkWorld d fs)
  = k (fst (stmt d)) (mkWorld (snd (stmt d)) (skipn 1 fs)).
Proof.
  destruct fs as [|[] fs]; unfold script_fails; cbn [firstn existsb orb skipn];
    intros H; try discriminate H.
  - apply (bind_query_healthy stmt k d).
  - apply bind_query_pass.
Qed.

Lemma script_spares_two (fs : list bool) :
  script_fails 2 fs = false ->
  script_fails 1 fs = false /\ script_fails 1 (skipn 1 fs) = false.
Proof.
  unfold script_fails.
  destruct fs as [|[] [|[] fs]]; cbn [firstn existsb orb skipn]; intros H;
    try discriminate H; now split.
Qed.

(** C9: for every existing record that the caller may delete, and
    whatever happens to the storage calls of the repair that follows
    (the three of [resetCountersForSection] and the one of
    [validateControlNumbers]), DELETE /records/:id deletes the record and
    answers [ok: true]; the record stays deleted.  When one of the repair
    calls is rejected the failure is caught and the answer carries only
    the advisory warning; otherwise it carries the reset result and no
    warning. *)
Theorem delete_survives_repair_failure :
  forall (u : user) (i : N) (rec : record) (d : database) (fs : list bool),
    fst (Sql.select_record i d) = Some rec ->
    forbidden u (section rec) = false ->
    script_fails 2 fs = false ->
    exists body w',
      delete_record_handler u i (mkWorld d fs) = (Resolved (Sent body), w')
      /\ ok body = true
      /\ records (db w') = records (snd (Sql.delete_record i d))
      /\ fst (Sql.select_record i (db w')) = None
      /\ (if script_fails 4 (skipn 2 fs)
          then body = mkDeleteBody true None None
                        (Some "Record deleted but counter reset failed")
          else countersReset body <> None /\ warning body = None).
Proof.
  intros u i rec d fs Hrec Hallowed Hfs.
  destruct (script_spares_two fs Hfs) as [H1 H2].
  unfold delete_record_handler, getRecord, deleteRecord.
  rewrite (bind_query_spared _ _ _ _ H1), Hrec, Hallowed.
  cbn [Sql.select_record snd].
  rewrite (bind_query_spared _ _ _ _ H2).
  replace (skipn 1 (skipn 1 fs)) with (skipn 2 fs)
    by (destruct fs as [|? [|? ?]]; reflexivity).
  set (d1 := snd (Sql.delete_record i d)).
  set (rest := skipn 2 fs).
  assert (Gone : forall d', records d' = records d1 ->
                 fst (Sql.select_record i d') = None).
  { intros d' E. cbn [Sql.select_record fst]. rewrite E.
    exact (select_deleted i d). }
  rewrite (script_fails_split rest).
  destruct (reset_run (section rec) (dateReceived rec) d1 rest)
    as (d2 & fs2 & Hkeep & Hrun & Hnext).
  unfold try_catch, bind at 1. rewrite Hrun.
  destruct (script_fails 3 rest) eqn:F3; cbn [orb].
  - eexists _, _. split; [reflexivity|].
    cbn [ok db]. repeat split; auto.
  - rewrite (Hnext eq_refl). unfold bind. rewrite validate_run.
    destruct (script_fails 1 (skipn 3 rest)) eqn:F1.
    + eexists _, _. split; [reflexivity|].
      cbn [ok db]. repeat split; auto.
    + eexists _, _. split; [reflexivity|].
      cbn [ok db countersReset warning]. repeat split; auto. discriminate.
Qed.

Lemma delete_survives_repair_failure_witness :
  exists body w',
    delete_record_handler Scenario.office_user 3
      (mkWorld Scenario.stale [false; false; false; true])
    = (Resolved (Sent body), w')
    /\ ok body = true
    /\ records (db w') = records (snd (Sql.delete_record 3 Scenario.stale))
    /\ fst (Sql.select_record 3 (db w')) = None
    /\ body = mkDeleteBody true None None
                (Some "Record deleted but counter reset failed").
Proof.
  apply (delete_survives_repair_failure Scenario.office_user 3
           (Scenario.row 3 "RFU4A-MC-260218-03" "RFU4A-INVES-260218-03")
           Scenario.stale [false; false; false; true]); reflexivity.
Defined.

(* ------------------------------------------------------------------ *)
(** ** Healthy runs *)
(* ------------------------------------------------------------------ *)

(** An allocation that finds no row inserts one and returns 1. *)
Lemma getNextCounter_runs_insert (isSqlite : bool) (sc : scope)
    (sec date : option string) (d : database) :
  counter_of sc sec d = None ->
  runs (getNextCounter isSqlite sc sec date) d 1
    (snd (Sql.insert_counter sc sec (or_else date None) d)).
Proof.
  intros He. unfold runs, getNextCounter. io_healthy.
  cbn [Sql.select_counter fst snd].
  change (find _ (counters d)) with (counter_of sc sec d). rewrite He.
  io_healthy. reflexivity.
Qed.

(** An allocation that the verification block does not take off the
    common path stores and returns the successor of its base. *)
Lemma getNextCounter_runs_update (isSqlite : bool) (sc : scope)
    (sec date : option string) (d : database) (e : counter) :
  counter_of sc sec d = Some e ->
  diverted isSqlite sc sec date d = false ->
  let next :=
    (if truthy date && negb (strict_eq (lastDateUsed e) date)
     then 0 else currentNumber e) + 1 in
  runs (getNextCounter isSqlite sc sec date) d next
    (snd (Sql.update_number_date_by_id next (or_else date (lastDateUsed e))
            (c_id e) d)).
Proof.
  intros He Hh next. subst next. unfold diverted, heals, verifies in Hh.
  rewrite He in Hh.
  unfold runs, getNextCounter. io_healthy.
  cbn [Sql.select_counter fst snd].
  change (find _ (counters d)) with (counter_of sc sec d). rewrite He.
  destruct (truthy date) eqn:Hdt; cbn [andb] in *.
  - destruct (strict_eq (lastDateUsed e) date) eqn:Hl; cbn [negb andb] in *.
    + destruct (truthy sec) eqn:Hs; cbn [andb] in *.
      * destruct isSqlite; [|discriminate Hh].
        unfold verify_counter. io_healthy.
        change (fst (Sql.select_partition sec date d)) with (partition sec date d).
        rewrite Hh. io_healthy. reflexivity.
      * io_healthy. reflexivity.
    + io_healthy. reflexivity.
  - rewrite andb_false_r. io_healthy. reflexivity.
Qed.

Lemma createRecord_runs (now : string) (p : payload) (d : database) :
  exists row,
    runs (createRecord now p) d (Sql.set_id (records_seq d + 1) row)
      (snd (Sql.insert_record row d))
    /\ mcCtrlNo row = p_mcCtrlNo p
    /\ sectionCtrlNo row = p_sectionCtrlNo p
    /\ section row = p_section p
    /\ dateReceived row = p_dateReceived p.
Proof.
  eexists. split.
  - unfold runs, createRecord. io_healthy. reflexivity.
  - repeat split.
Qed.

(* ------------------------------------------------------------------ *)
(** ** Sequential allocation *)
(* ------------------------------------------------------------------ *)

Lemma strict_eq_refl (a : option string) : strict_eq a a = true.
Proof. destruct a; cbn; [apply String.eqb_refl | reflexivity]. Qed.

Lemma or_else_truthy (a b : option string) : truthy a = true -> or_else a b = a.
Proof. unfold or_else. now intros ->. Qed.

Lemma or_else_falsy (a b : option string) : truthy a = false -> or_else a b = b.
Proof. unfold or_else. now intros ->. Qed.

(** A date equal to the stored one is no rollover. *)
Lemma no_rollover (date last : option string) :
  last = or_else date None ->
  truthy date && negb (strict_eq last date) = false
  /\ or_else date last = last.
Proof.
  intros ->. destruct (truthy date) eqn:Hd.
  - rewrite !(or_else_truthy _ _ Hd), strict_eq_refl. now split.
  - rewrite !(or_else_falsy _ _ Hd). now split.
Qed.

Lemma result_of_bind {A B : Type} (m : io A) (k : A -> io B)
    (d d1 : database) (a : A) :
  runs m d a d1 -> result_of (bind m k) d = result_of (k a) d1.
Proof.
  unfold runs, result_of, bind. now intros ->.
Qed.

Lemma result_of_cons {A : Type} (m : io (list A)) (a : A) (l : list A)
    (d : database) :
  result_of m d = Resolved l ->
  result_of (rest <- m ;; ret (a :: rest)) d = Resolved (a :: l).
Proof.
  unfold result_of, bind. destruct (m (healthy d)) as [[x|e] w]; cbn [fst].
  - now intros [= ->].
  - discriminate.
Qed.

Lemma one_to_shift (k : N) (n : nat) :
  (k + 1) :: map (fun j => k + 1 + N.of_nat j) (seq 1 n)
  = map (fun j => k + N.of_nat j) (seq 1 (S n)).
Proof.
  change (seq 1 (S n)) with (1%nat :: seq 2 n). cbn [map].
  replace (k + N.of_nat 1) with (k + 1) by lia. f_equal.
  rewrite <- (seq_shift n 1), map_map. apply map_ext. intros j. lia.
Qed.

(** With the verification block out of play, successive allocations count
    up from the stored number. *)
Lemma repeat_allocate_from (isSqlite : bool) (sc : scope)
    (sec date : option string) :
  truthy sec && truthy date = false ->
  forall (n : nat) (d : database) (e : counter),
    counter_of sc sec d = Some e ->
    lastDateUsed e = or_else date None ->
    result_of (repeat_io n (getNextCounter isSqlite sc sec date)) d
    = Resolved (map (fun j => currentNumber e + N.of_nat j) (seq 1 n)).
Proof.
  intros Hoff. induction n as [|n IH]; intros d e He Hl; [reflexivity|].
  assert (Hh : diverted isSqlite sc sec date d = false).
  { apply unverified_not_diverted. unfold verifies. rewrite He.
    destruct (strict_eq (lastDateUsed e) date); cbn [andb]; [|reflexivity].
    now rewrite Hoff. }
  pose proof (getNextCounter_runs_update isSqlite sc sec date d e He Hh) as R.
  cbv zeta in R. destruct (no_rollover date (lastDateUsed e) Hl) as [Hn Hk].
  rewrite Hn, Hk in R.
  cbn [repeat_io]. rewrite (result_of_bind _ _ _ _ _ R).
  rewrite <- one_to_shift. apply result_of_cons.
  rewrite (IH _ (Sql.set_number_date (currentNumber e + 1) (lastDateUsed e) e)).
  - reflexivity.
  - now apply counter_of_update_date.
  - exact Hl.
Qed.

(** From a state without the counter row, allocations for the
    office-wide scope of the pipeline (null section), or without a date,
    return 1, 2, ..., n. *)
Lemma allocate_in_sequence_unverified (isSqlite : bool) (sc : scope)
    (sec date : option string) (d : database) (n : nat) :
  truthy sec && truthy date = false ->
  counter_of sc sec d = None ->
  allocates_in_sequence isSqlite sc sec date d n.
Proof.
  intros Hoff He. unfold allocates_in_sequence, one_to.
  destruct n as [|n]; [reflexivity|].
  pose proof (getNextCounter_runs_insert isSqlite sc sec date d He) as R.
  cbn [repeat_io]. rewrite (result_of_bind _ _ _ _ _ R).
  change (map N.of_nat (seq 1 (S n)))
    with (N.of_nat 1 :: map N.of_nat (seq 2 n)).
  apply result_of_cons.
  rewrite (repeat_allocate_from isSqlite sc sec date Hoff n _
             (mkCounter (counters_seq d + 1) sc sec 1 (or_else date None))).
  - f_equal. rewrite <- (seq_shift n 1), map_map. apply map_ext. intros j.
    cbn [currentNumber]. lia.
  - now apply counter_of_insert.
  - reflexivity.
Qed.

Lemma find_map_key {A : Type} (key : A -> bool) (g : A -> A) (l : list A) :
  (forall x, key (g x) = key x) ->
  find key (map g l) = option_map g (find key l).
Proof.
  intros Hg. induction l as [|x l IH]; cbn [map find option_map]; [reflexivity|].
  rewrite Hg. destruct (key x); [reflexivity | exact IH].
Qed.

(** An update by id leaves every row of another id in place. *)
Lemma counter_of_update_date_other (sc : scope) (sec : option string) (n : N)
    (date : option string) (i : N) (d : database) (e : counter) :
  counter_of sc sec d = Some e ->
  c_id e <> i ->
  counter_of sc sec (snd (Sql.update_number_date_by_id n date i d)) = Some e.
Proof.
  unfold counter_of. cbn [Sql.select_counter fst]. fold (counter_key sc sec).
  intros He Hi.
  cbn [Sql.update_number_date_by_id Sql.update_counters snd counters].
  rewrite find_map_key.
  - rewrite He. cbn [option_map]. apply N.eqb_neq in Hi. now rewrite Hi.
  - intros c. now destruct (c_id c =? i).
Qed.

Lemma counter_of_insert_other (sc sc' : scope) (sec sec' date : option string)
    (d : database) (e : counter) :
  counter_of sc sec d = Some e ->
  counter_of sc sec (snd (Sql.insert_counter sc' sec' date d)) = Some e.
Proof.
  unfold counter_of. cbn [Sql.select_counter Sql.insert_counter fst snd counters].
  intros He. induction (counters d) as [|x l IH]; [discriminate|].
  cbn [app find] in *.
  destruct (scope_eqb (c_scope x) sc && Sql.is_op (c_section x) sec);
    [exact He | now apply IH].
Qed.

Lemma counter_of_insert_mismatch (sc sc' : scope) (sec sec' date : option string)
    (d : database) :
  counter_of sc sec d = None ->
  scope_eqb sc' sc = false ->
  counter_of sc sec (snd (Sql.insert_counter sc' sec' date d)) = None.
Proof.
  unfold counter_of. cbn [Sql.select_counter Sql.insert_counter fst snd counters].
  intros He Hs. rewrite (find_app_absent _ _ _ He). cbn [c_scope].
  now rewrite Hs.
Qed.

(** The section and date of the request are both truthy strings: the
    handler goes on to the pipeline. *)
Lemma post_records_runs (isSqlite : bool) (date_before : string -> string -> bool)
    (now : string) (u : user) (p : payload) (sec dt : string)
    (d d1 d2 : database) (a b : N) :
  accepted date_before u p sec dt ->
  runs (getNextCounter isSqlite MC None (Some dt)) d a d1 ->
  runs (getNextCounter isSqlite SECTION (Some sec) (Some dt)) d1 b d2 ->
  exists row,
    runs (post_records isSqlite date_before now u p) d
      (Sent (Sql.set_id (records_seq d2 + 1) row, normalizeRemarks p))
      (snd (Sql.insert_record row d2))
    /\ mcCtrlNo row = Some (formatCtrlNo "RFU4A" None dt a)
    /\ sectionCtrlNo row = Some (formatCtrlNo "RFU4A" (Some sec) dt b)
    /\ section row = Some sec
    /\ dateReceived row = Some dt.
Proof.
  intros (Hf & Hs & Hts & Hd & Htd & Hv) Ra Rb.
  destruct (createRecord_runs now
              (with_ctrl_remarks p (Some (formatCtrlNo "RFU4A" None dt a))
                 (Some (formatCtrlNo "RFU4A" (Some sec) dt b))
                 (Some (normalizeRemarks p))) d2)
    as (row & Rc & Hmc & Hsc & Hsec & Hdate).
  exists row. split; [|repeat split; assumption || (now rewrite Hsec) || (now rewrite Hdate)].
  unfold post_records. rewrite Hf, Hs, Hd, Hv.
  destruct sec as [|c1 s1]; [discriminate Hts|].
  destruct dt as [|c2 s2]; [discriminate Htd|].
  unfold getNextControlNumbers.
  eapply runs_bind.
  - eapply runs_bind; [exact Ra|].
    eapply runs_bind; [exact Rb|]. apply runs_ret.
  - cbn [fst snd]. eapply runs_bind; [exact Rc|]. apply runs_ret.
Qed.

Lemma eq_op_refl (s : string) : Sql.eq_op (Some s) (Some s) = true.
Proof. cbn. apply String.eqb_refl. Qed.

Lemma partition_insert_record (sec date : option string) (row : record)
    (d : database) :
  partition sec date (snd (Sql.insert_record row d))
  = (partition sec date d
     ++ (if Sql.in_partition sec date row
         then [Sql.set_id (records_seq d + 1) row] else []))%list.
Proof.
  unfold partition.
  cbn [Sql.select_partition Sql.insert_record fst snd records].
  rewrite filter_app. cbn [filter].
  change (Sql.in_partition sec date (Sql.set_id (records_seq d + 1) row))
    with (Sql.in_partition sec date row).
  reflexivity.
Qed.

Lemma embedded_sequences_app (sc : scope) (a b : list record) :
  embedded_sequences sc (a ++ b)
  = (embedded_sequences sc a ++ embedded_sequences sc b)%list.
Proof. apply flat_map_app. Qed.

(** A record stored with a formatted control number raises the largest
    embedded sequence number of its partition to at least its own. *)
Lemma max_embedded_insert (sc : scope) (sec dt : string) (row : record)
    (d : database) (prefix : string) (s : option string) (n : N) :
  section row = Some sec ->
  dateReceived row = Some dt ->
  ctrlNo_of sc row = Some (formatCtrlNo prefix s dt n) ->
  max_of (embedded_sequences sc
            (partition (Some sec) (Some dt) (snd (Sql.insert_record row d))))
  = N.max (max_of (embedded_sequences sc (partition (Some sec) (Some dt) d))) n.
Proof.
  intros Hs Hd Hc. rewrite partition_insert_record.
  unfold Sql.in_partition. rewrite Hs, Hd, !eq_op_refl. cbn [andb].
  rewrite embedded_sequences_app, max_of_app. f_equal.
  unfold embedded_sequences. cbn [flat_map].
  replace (ctrlNo_of sc (Sql.set_id (records_seq d + 1) row))
    with (ctrlNo_of sc row) by now destruct sc.
  rewrite Hc, extract_seq_format. cbn [app max_of fold_right]. lia.
Qed.

(** The office-wide allocation of the pipeline never enters the
    verification block, with either engine. *)
Lemma heals_office {isSqlite : bool} (date : option string) (d : database) :
  diverted isSqlite MC None date d = false.
Proof.
  apply unverified_not_diverted. unfold verifies.
  destruct (counter_of MC None d); [|reflexivity].
  cbn [truthy]. now rewrite andb_false_r.
Qed.

(** One more creation for (sec, dt) hands out the next number in both
    scopes. *)
Lemma create_step (date_before : string -> string -> bool)
    (now : string) (u : user) (p : payload) (sec dt : string)
    (k : N) (d : database) :
  accepted date_before u p sec dt ->
  counted sec dt k d ->
  exists r d',
    runs (post_records true date_before now u p) d r d'
    /\ control_numbers r = numbered sec dt (k + 1)
    /\ counted sec dt (k + 1) d'.
Proof.
  intros Hacc (em & es & Hem & Hkm & Hlm & Hes & Hks & Hls & Hid & Hmax).
  pose proof Hacc as (_ & _ & Hts & _ & Htd & _).
  assert (Hlast : Some dt = or_else (Some dt) None)
    by (now rewrite (or_else_truthy _ _ Htd)).
  (* office-wide counter *)
  pose proof (getNextCounter_runs_update true MC None (Some dt) d em Hem
                (heals_office _ d)) as Ra.
  cbv zeta in Ra. rewrite Hlm, Hkm in Ra.
  destruct (no_rollover (Some dt) (Some dt) Hlast) as [Hn Hk].
  rewrite Hn, Hk in Ra.
  set (d1 := snd (Sql.update_number_date_by_id (k + 1) (Some dt) (c_id em) d)) in *.
  assert (Hes1 : counter_of SECTION (Some sec) d1 = Some es)
    by (apply counter_of_update_date_other; auto).
  assert (Hem1 : counter_of MC None d1
                 = Some (Sql.set_number_date (k + 1) (Some dt) em))
    by (now apply counter_of_update_date).
  (* section counter *)
  assert (Hh : heals SECTION (Some sec) (Some dt) d1 = false).
  { unfold heals. rewrite Hes1, highest_actual_max.
    change (partition (Some sec) (Some dt) d1) with (partition (Some sec) (Some dt) d).
    rewrite Hmax, Hks, N.ltb_irrefl. now rewrite andb_false_r. }
  pose proof (getNextCounter_runs_update true SECTION (Some sec) (Some dt)
                d1 es Hes1 Hh) as Rb.
  cbv zeta in Rb. rewrite Hls, Hks, Hn, Hk in Rb.
  set (d2 := snd (Sql.update_number_date_by_id (k + 1) (Some dt) (c_id es) d1)) in *.
  (* the record *)
  destruct (post_records_runs true date_before now u p sec dt d d1 d2
              (k + 1) (k + 1) Hacc Ra Rb)
    as (row & Rc & Hmc & Hsc & Hsec & Hdate).
  eexists _, _. split; [exact Rc|]. split.
  - cbn [control_numbers Sql.set_id mcCtrlNo sectionCtrlNo]. unfold numbered.
    now rewrite Hmc, Hsc.
  - exists (Sql.set_number_date (k + 1) (Some dt) em),
           (Sql.set_number_date (k + 1) (Some dt) es).
    change (counter_of MC None (snd (Sql.insert_record row d2)))
      with (counter_of MC None d2).
    change (counter_of SECTION (Some sec) (snd (Sql.insert_record row d2)))
      with (counter_of SECTION (Some sec) d2).
    repeat split; try reflexivity.
    + apply counter_of_update_date_other; [exact Hem1|].
      cbn [c_id Sql.set_number_date]. exact Hid.
    + now apply counter_of_update_date.
    + exact Hid.
    + rewrite (max_embedded_insert SECTION sec dt row d2 "RFU4A" (Some sec) (k + 1)
                 Hsec Hdate Hsc).
      change (partition (Some sec) (Some dt) d2) with (partition (Some sec) (Some dt) d).
      rewrite Hmax. lia.
Qed.

(** The first creation for (sec, dt) hands out 1 in both scopes. *)
Lemma create_first (isSqlite : bool) (date_before : string -> string -> bool)
    (now : string) (u : user) (p : payload) (sec dt : string) (d : database) :
  accepted date_before u p sec dt ->
  fresh sec dt d ->
  exists r d',
    runs (post_records isSqlite date_before now u p) d r d'
    /\ control_numbers r = numbered sec dt 1
    /\ counted sec dt 1 d'.
Proof.
  intros Hacc (Hem & Hes & Hpart).
  pose proof Hacc as (_ & _ & Hts & _ & Htd & _).
  pose proof (getNextCounter_runs_insert isSqlite MC None (Some dt) d Hem) as Ra.
  rewrite (or_else_truthy _ _ Htd) in Ra.
  set (d1 := snd (Sql.insert_counter MC None (Some dt) d)) in *.
  assert (Hes1 : counter_of SECTION (Some sec) d1 = None)
    by (now apply counter_of_insert_mismatch).
  pose proof (getNextCounter_runs_insert isSqlite SECTION (Some sec) (Some dt)
                d1 Hes1) as Rb.
  rewrite (or_else_truthy _ _ Htd) in Rb.
  set (d2 := snd (Sql.insert_counter SECTION (Some sec) (Some dt) d1)) in *.
  destruct (post_records_runs isSqlite date_before now u p sec dt d d1 d2
              1 1 Hacc Ra Rb)
    as (row & Rc & Hmc & Hsc & Hsec & Hdate).
  eexists _, _. split; [exact Rc|]. split.
  - cbn [control_numbers Sql.set_id mcCtrlNo sectionCtrlNo]. unfold numbered.
    now rewrite Hmc, Hsc.
  - exists (mkCounter (counters_seq d + 1) MC None 1 (Some dt)),
           (mkCounter (counters_seq d1 + 1) SECTION (Some sec) 1 (Some dt)).
    change (counter_of MC None (snd (Sql.insert_record row d2)))
      with (counter_of MC None d2).
    change (counter_of SECTION (Some sec) (snd (Sql.insert_record row d2)))
      with (counter_of SECTION (Some sec) d2).
    repeat split; try reflexivity.
    + apply counter_of_insert_other. now apply counter_of_insert.
    + now apply counter_of_insert.
    + cbn [c_id]. subst d1. cbn [Sql.insert_counter snd counters_seq]. lia.
    + rewrite (max_embedded_insert SECTION sec dt row d2 "RFU4A" (Some sec) 1
                 Hsec Hdate Hsc).
      change (partition (Some sec) (Some dt) d2) with (partition (Some sec) (Some dt) d).
      rewrite Hpart. reflexivity.
Qed.

Lemma numbered_shift {B : Type} (f : N -> B) (k : N) (n : nat) :
  f (k + 1) :: map (fun j => f (k + 1 + N.of_nat j)) (seq 1 n)
  = map (fun j => f (k + N.of_nat j)) (seq 1 (S n)).
Proof.
  pose proof (f_equal (map f) (one_to_shift k n)) as H.
  cbn [map] in H. rewrite !map_map in H. exact H.
Qed.

Lemma repeat_create_from (date_before : string -> string -> bool)
    (now : string) (u : user) (p : payload) (sec dt : string) :
  accepted date_before u p sec dt ->
  forall (n : nat) (k : N) (d : database),
    counted sec dt k d ->
    exists rs,
      result_of (repeat_io n (post_records true date_before now u p)) d
      = Resolved rs
      /\ map control_numbers rs
         = map (fun j => numbered sec dt (k + N.of_nat j)) (seq 1 n).
Proof.
  intros Hacc. induction n as [|n IH]; intros k d Hk.
  - exists []. now split.
  - destruct (create_step date_before now u p sec dt k d Hacc Hk)
      as (r & d' & R & Hr & Hk').
    destruct (IH (k + 1) d' Hk') as (rs & Hrs & Hnum).
    exists (r :: rs). split.
    + cbn [repeat_io]. rewrite (result_of_bind _ _ _ _ _ R).
      now apply result_of_cons.
    + cbn [map]. rewrite Hr, Hnum. apply (numbered_shift (numbered sec dt)).
Qed.

(** The claim of C3 as stated fails: two allocations in a row for a
    section and a date, with no record stored in between, both return 1:
    the verification block finds no record and takes the counter back
    to 0. *)
Lemma sequential_allocation_repeats :
  ~ allocates_in_sequence true SECTION (Some "INVES") (Some Scenario.day)
      empty_database 2.
Proof.
  unfold allocates_in_sequence. vm_compute. discriminate.
Qed.

(** With SQLite, an allocation whose verification block lowers the
    counter returns the successor of the highest stored number and leaves
    that highest number in the row. *)
Lemma getNextCounter_runs_heal (sc : scope) (sec date : option string)
    (d : database) (e : counter) :
  counter_of sc sec d = Some e ->
  heals sc sec date d = true ->
  let h := highest_actual sc (partition sec date d) in
  runs (getNextCounter true sc sec date) d (h + 1)
    (snd (Sql.update_number_by_id h (c_id e) d)).
Proof.
  intros He Hh h. subst h. unfold heals in Hh. rewrite He in Hh.
  apply andb_true_iff in Hh. destruct Hh as [Hh Hlt].
  apply andb_true_iff in Hh. destruct Hh as [Hh Hdt].
  apply andb_true_iff in Hh. destruct Hh as [Hl Hs].
  unfold runs, getNextCounter. io_healthy.
  cbn [Sql.select_counter fst snd].
  change (find _ (counters d)) with (counter_of sc sec d).
  rewrite He, Hl, Hs, Hdt. cbn [negb andb].
  unfold verify_counter. io_healthy.
  change (fst (Sql.select_partition sec date d)) with (partition sec date d).
  cbn [snd Sql.select_partition]. rewrite Hlt.
  io_healthy. reflexivity.
Qed.

(** With SQLite, for a section and a date whose partition holds no
    record, every allocation in a row returns 1: the row stays at 0 or 1. *)
Lemma repeat_allocate_unstored (sc : scope) (sec dt : string) :
  truthy (Some sec) = true ->
  truthy (Some dt) = true ->
  forall (n : nat) (d : database) (e : counter),
    partition (Some sec) (Some dt) d = [] ->
    counter_of sc (Some sec) d = Some e ->
    lastDateUsed e = Some dt ->
    currentNumber e <= 1 ->
    result_of (repeat_io n (getNextCounter true sc (Some sec) (Some dt))) d
    = Resolved (repeat 1 n).
Proof.
  intros Hts Htd. induction n as [|n IH]; intros d e Hp He Hl Hle; [reflexivity|].
  cbn [repeat_io repeat].
  destruct (heals sc (Some sec) (Some dt) d) eqn:Hh.
  - pose proof (getNextCounter_runs_heal sc (Some sec) (Some dt) d e He Hh) as R.
    cbv zeta in R. rewrite Hp in R.
    change (highest_actual sc []) with 0 in R.
    rewrite (result_of_bind _ _ _ _ _ R). apply result_of_cons.
    apply (IH _ (Sql.set_number 0 e)).
    + exact Hp.
    + now apply counter_of_update_number.
    + exact Hl.
    + cbn [currentNumber Sql.set_number]. lia.
  - pose proof (getNextCounter_runs_update true sc (Some sec) (Some dt) d e He Hh) as R.
    cbv zeta in R. rewrite Hl, strict_eq_refl, andb_false_r in R.
    assert (H0 : currentNumber e = 0).
    { unfold heals in Hh. rewrite He, Hl, strict_eq_refl, Hts, Htd, Hp in Hh.
      change (highest_actual sc []) with 0 in Hh. cbn [andb] in Hh.
      apply N.ltb_ge in Hh. lia. }
    rewrite H0 in R. rewrite (or_else_truthy _ _ Htd) in R.
    rewrite (result_of_bind _ _ _ _ _ R). apply result_of_cons.
    apply (IH _ (Sql.set_number_date (0 + 1) (Some dt) e)).
    + exact Hp.
    + now apply counter_of_update_date.
    + reflexivity.
    + cbn [currentNumber Sql.set_number_date]. lia.
Qed.

(** C3, amended: starting from a state without the counter row, n
    sequential [getNextCounter] calls with no other state change return
    1, 2, ..., n when the section is null (the office-wide scope as the
    pipeline calls it) or the date is absent, with either engine.  With
    SQLite, for a section and a date they do so when each allocated number
    is stored in a record of the partition before the next call, as
    POST /records does: n creations in a row for one section and date, from
    a state with neither counter row nor record of the partition, number
    their records 01, 02, ..., n in both scopes; with no record stored in
    between, every one of the n calls returns 1. *)
Theorem sequential_allocation :
  (forall (isSqlite : bool) (sc : scope) (sec date : option string)
          (d : database) (n : nat),
      truthy sec && truthy date = false ->
      counter_of sc sec d = None ->
      allocates_in_sequence isSqlite sc sec date d n)
  /\ (forall (date_before : string -> string -> bool)
             (now : string) (u : user) (p : payload) (sec dt : string)
             (d : database) (n : nat),
         accepted date_before u p sec dt ->
         fresh sec dt d ->
         exists rs,
           result_of (repeat_io n (post_records true date_before now u p)) d
           = Resolved rs
           /\ map control_numbers rs = map (numbered sec dt) (one_to n))
  /\ (forall (sc : scope) (sec dt : string) (d : database) (n : nat),
         truthy (Some sec) = true ->
         truthy (Some dt) = true ->
         counter_of sc (Some sec) d = None ->
         partition (Some sec) (Some dt) d = [] ->
         result_of (repeat_io n (getNextCounter true sc (Some sec) (Some dt))) d
         = Resolved (repeat 1 n)).
Proof.
  split; [|split].
  - intros. now apply allocate_in_sequence_unverified.
  - intros date_before now u p sec dt d n Hacc Hfresh.
    destruct n as [|n]; [now exists []|].
    destruct (create_first true date_before now u p sec dt d Hacc Hfresh)
      as (r & d' & R & Hr & Hk).
    destruct (repeat_create_from date_before now u p sec dt Hacc n 1 d' Hk)
      as (rs & Hrs & Hnum).
    exists (r :: rs). split.
    + cbn [repeat_io]. rewrite (result_of_bind _ _ _ _ _ R).
      now apply result_of_cons.
    + cbn [map]. rewrite Hr, Hnum. unfold one_to.
      change (seq 1 (S n)) with (1%nat :: seq 2 n). cbn [map].
      f_equal. rewrite <- (seq_shift n 1), !map_map. apply map_ext.
      intros j. f_equal. lia.
  - intros sc sec dt d n Hts Htd He Hp.
    destruct n as [|n]; [reflexivity|].
    pose proof (getNextCounter_runs_insert true sc (Some sec) (Some dt) d He) as R.
    rewrite (or_else_truthy _ _ Htd) in R.
    cbn [repeat_io repeat]. rewrite (result_of_bind _ _ _ _ _ R).
    apply result_of_cons.
    apply (repeat_allocate_unstored sc sec dt Hts Htd n _
             (mkCounter (counters_seq d + 1) sc (Some sec) 1 (Some dt))).
    + exact Hp.
    + now apply counter_of_insert.
    + reflexivity.
    + cbn [currentNumber]. lia.
Qed.

Lemma sequential_allocation_witness :
  allocates_in_sequence true MC None (Some Scenario.day) empty_database 3
  /\ (exists rs,
       result_of
         (repeat_io 3
            (post_records true Scenario.date_before "t" Scenario.office_user
               (Scenario.request "INVES" Scenario.day))) empty_database
       = Resolved rs
       /\ map control_numbers rs = map (numbered "INVES" Scenario.day) (one_to 3))
  /\ result_of
       (repeat_io 3 (getNextCounter true SECTION (Some "INVES") (Some Scenario.day)))
       empty_database
     = Resolved [1; 1; 1].
Proof.
  destruct sequential_allocation as (A & B & C). split; [|split].
  - apply A; reflexivity.
  - apply B; repeat split; reflexivity.
  - apply (C SECTION "INVES" Scenario.day empty_database 3%nat); reflexivity.
Defined.

(* ------------------------------------------------------------------ *)
(** ** Lists, keys and lookups *)
(* ------------------------------------------------------------------ *)

Lemma NoDup_map_eq {A B : Type} (f : A -> B) (l : list A) (x y : A) :
  NoDup (map f l) -> In x l -> In y l -> f x = f y -> x = y.
Proof.
  induction l as [|a l IH]; cbn [map In]; [tauto|].
  intros Hnd Hx Hy Hf. inversion Hnd as [|? ? Hna Hnd']; subst.
  destruct Hx as [->|Hx], Hy as [->|Hy]; auto.
  - exfalso. apply Hna. rewrite Hf. now apply in_map.
  - exfalso. apply Hna. rewrite <- Hf. now apply in_map.
Qed.





Lemma scope_eqb_spec (a b : scope) : scope_eqb a b = true <-> a = b.
Proof. destruct a, b; cbn; split; congruence. Qed.

Lemma strict_eq_spec (a b : option string) : strict_eq a b = true <-> a = b.
Proof.
  destruct a as [x|], b as [y|]; cbn; try (split; congruence).
  rewrite String.eqb_eq. split; congruence.
Qed.

Lemma eq_op_spec (a b : option string) :
  Sql.eq_op a b = true <-> exists s, a = Some s /\ b = Some s.
Proof.
  destruct a as [x|], b as [y|]; cbn.
  - rewrite String.eqb_eq. split.
    + intros ->. now exists y.
    + intros (s & [= ->] & [= ->]). reflexivity.
  - split; [discriminate | intros (s & _ & H); discriminate H].
  - split; [discriminate | intros (s & H & _); discriminate H].
  - split; [discriminate | intros (s & H & _); discriminate H].
Qed.

Lemma counter_key_spec (sc : scope) (sec : option string) (c : counter) :
  counter_key sc sec c = true <-> key_of c = (sc, sec).
Proof.
  unfold counter_key, key_of, Sql.is_op.
  rewrite andb_true_iff, scope_eqb_spec, strict_eq_spec.
  split; [intros [-> ->]; reflexivity | intros [= -> ->]; now split].
Qed.


Lemma counter_of_absent (sc : scope) (sec : option string) (d : database) :
  counter_of sc sec d = None <->
  forall c, In c (counters d) -> key_of c <> (sc, sec).
Proof.
  unfold counter_of. cbn [Sql.select_counter fst]. fold (counter_key sc sec).
  split.
  - intros F c Hin Hc. apply (find_none _ _ F) in Hin.
    apply counter_key_spec in Hc. congruence.
  - intros H. destruct (find (counter_key sc sec) (counters d)) as [c|] eqn:F;
      [|reflexivity].
    apply find_some in F. destruct F as [Hin Hc].
    apply counter_key_spec in Hc. now apply H in Hin.
Qed.

(* ------------------------------------------------------------------ *)
(** ** What the resetter computes *)
(* ------------------------------------------------------------------ *)






Lemma Forall_filter {A : Type} (P : A -> Prop) (f : A -> bool) (l : list A) :
  Forall P l -> Forall P (filter f l).
Proof.
  rewrite !Forall_forall. intros H x Hx. apply filter_In in Hx. now apply H.
Qed.


Lemma reset_runs (sec date : option string) (d : database) :
  runs (resetCountersForSection sec date) d
    (mkResetResult (fst (reset_maxima sec date d)) (snd (reset_maxima sec date d)))
    (snd (Sql.update_number_where_eq (snd (reset_maxima sec date d)) SECTION sec
            (snd (Sql.update_number_where_is (fst (reset_maxima sec date d))
                    MC None d)))).
Proof.
  unfold runs, resetCountersForSection, reset_maxima. io_healthy.
  cbn [Sql.select_partition_desc fst snd].
  destruct (fold_left reset_round _ (0, 0)) as [a b]. io_healthy. reflexivity.
Qed.

(* ------------------------------------------------------------------ *)
(** ** The shape of the database is kept by every statement *)
(* ------------------------------------------------------------------ *)

(** Keys stay unique when rows are filtered out. *)
Lemma unique_keys_filter {Row Key : Type} (key : Row -> Key)
    (keep : Row -> bool) (rows : list Row) :
  NoDup (map key rows) -> NoDup (map key (filter keep rows)).
Proof.
  intros Huniq. induction rows as [|x rows IH]; cbn [map filter] in *; [exact Huniq|].
  apply NoDup_cons_iff in Huniq. destruct Huniq as [Hfresh Hrest].
  destruct (keep x); cbn [map]; [|now apply IH].
  apply NoDup_cons_iff. split; [|now apply IH].
  intros Hin. apply Hfresh. apply in_map_iff in Hin. destruct Hin as (y & E & Hy).
  apply filter_In in Hy. rewrite <- E. apply in_map. tauto.
Qed.






(* ------------------------------------------------------------------ *)
(** ** Repair re-establishes the section counters *)
(* ------------------------------------------------------------------ *)

Lemma reset_database (sec date : option string) (d : database) :
  database_after (resetCountersForSection sec date) d
  = with_counters d
      (map (fun c => if scope_eqb (c_scope c) SECTION && Sql.eq_op (c_section c) sec
                     then Sql.set_number (snd (reset_maxima sec date d)) c else c)
         (map (fun c => if scope_eqb (c_scope c) MC && Sql.is_op (c_section c) None
                        then Sql.set_number (fst (reset_maxima sec date d)) c else c)
            (counters d))).
Proof.
  destruct (runs_result _ _ _ _ (reset_runs sec date d)) as [_ ->]. reflexivity.
Qed.






(* ------------------------------------------------------------------ *)
(** ** A creation keeps the counters in step with the records *)
(* ------------------------------------------------------------------ *)



















(* ------------------------------------------------------------------ *)
(** ** The counter invariant *)
(* ------------------------------------------------------------------ *)


(** After a deletion the office row is set from the records of the
    deleted record's section alone: here it says 0 while the record of the
    other section carries the office number 02. *)
Lemma office_counter_after_deletion :
  map (fun r => (section r, mcCtrlNo r)) (records two_sections_one_deleted)
  = [(Some "INTEL", Some "RFU4A-MC-260218-02")]
  /\ option_map currentNumber (counter_of MC None two_sections_one_deleted) = Some 0
  /\ office_max Scenario.day two_sections_one_deleted = 2.
Proof. repeat split; vm_compute; reflexivity. Qed.



(* ================================================================== *)
(** * Further properties of the allocation and repair code *)
(* ================================================================== *)

(* ------------------------------------------------------------------ *)
(** ** The resetter *)
(* ------------------------------------------------------------------ *)

Lemma reset_maxima_counters (sec date : option string) (d : database)
    (l : list counter) :
  reset_maxima sec date (with_counters d l) = reset_maxima sec date d.
Proof. reflexivity. Qed.

(** X1 ([resetCountersForSection]): a second reset right after the first,
    with the records untouched in between, returns the same two maxima and
    leaves the database exactly as the first reset left it. *)
Theorem reset_is_idempotent :
  forall (sec date : option string) (d : database),
    let once := resetCountersForSection sec date in
    let again := database_after once d in
    result_of once again = result_of once d
    /\ database_after once again = again.
Proof.
  intros sec date d once again. subst once again.
  destruct (runs_result _ _ _ _ (reset_runs sec date d)) as [Hr Hd].
  rewrite Hr. rewrite reset_database.
  set (d1 := with_counters d _).
  destruct (runs_result _ _ _ _ (reset_runs sec date d1)) as [Hr1 _].
  rewrite Hr1. rewrite reset_database. subst d1.
  rewrite !reset_maxima_counters. split; [reflexivity|].
  unfold with_counters. cbn [records records_seq counters counters_seq].
  f_equal. rewrite !map_map. apply map_ext. intros c.
  destruct (scope_eqb (c_scope c) MC && Sql.is_op (c_section c) None) eqn:E1;
    cbn [Sql.set_number c_scope c_section];
    destruct (scope_eqb (c_scope c) SECTION && Sql.eq_op (c_section c) sec) eqn:E2;
    cbn [Sql.set_number c_scope c_section]; rewrite ?E1, ?E2;
    cbn [Sql.set_number c_scope c_section]; rewrite ?E1, ?E2; reflexivity.
Qed.

Lemma frame_update_counters (p : counter -> bool) (n : N) (d : database) :
  map counter_frame (counters (snd (Sql.update_counters p (Sql.set_number n) d)))
  = map counter_frame (counters d).
Proof.
  cbn [Sql.update_counters snd counters]. rewrite map_map. apply map_ext.
  intros c. now destruct (p c).
Qed.

(** X2 ([validateControlNumbers], [resetCountersForSection]): whatever the
    storage engine does, the validator leaves the whole database as it
    found it, and the resetter leaves table [records], both sequences and,
    in every counter row, the id, scope, section and [lastDateUsed] as they
    were: a reset can only change [currentNumber]. *)
Theorem repair_touches_numbers_only :
  forall (sec date : option string) (w : world),
    db (snd (validateControlNumbers sec date w)) = db w
    /\ records (db (snd (resetCountersForSection sec date w))) = records (db w)
    /\ records_seq (db (snd (resetCountersForSection sec date w)))
       = records_seq (db w)
    /\ counters_seq (db (snd (resetCountersForSection sec date w)))
       = counters_seq (db w)
    /\ map counter_frame (counters (db (snd (resetCountersForSection sec date w))))
       = map counter_frame (counters (db w)).
Proof.
  intros sec date [d fs]. split.
  - rewrite validate_run. reflexivity.
  - unfold resetCountersForSection.
    destruct fs as [|[] [|[] [|[] fs]]]; io_script;
      cbn [Sql.select_partition_desc fst snd db];
      try (repeat split; reflexivity);
      destruct (fold_left reset_round _ (0, 0)) as [a b]; io_script;
      unfold ret, healthy; cbn [snd db];
      unfold Sql.update_number_where_is, Sql.update_number_where_eq;
      rewrite ?frame_update_counters; repeat split; reflexivity.
Qed.

(* ------------------------------------------------------------------ *)
(** ** The allocator *)
(* ------------------------------------------------------------------ *)

(** X3 ([getNextCounter], date rollover): when the counter row exists and
    its [lastDateUsed] differs from the requested date, the allocation
    returns 1 whatever the stored number and whatever the records of that
    date hold (the verification block is skipped), and the row is left with
    [currentNumber = 1] and the requested date; both storage branches. *)
Theorem rollover_restarts_at_one :
  forall (isSqlite : bool) (sc : scope) (sec : option string) (dt : string)
         (d : database) (e : counter),
    counter_of sc sec d = Some e ->
    truthy (Some dt) = true ->
    lastDateUsed e <> Some dt ->
    result_of (getNextCounter isSqlite sc sec (Some dt)) d = Resolved 1
    /\ counter_of sc sec (database_after (getNextCounter isSqlite sc sec (Some dt)) d)
       = Some (Sql.set_number_date 1 (Some dt) e).
Proof.
  intros isSqlite sc sec dt d e He Ht Hl.
  assert (Hne : strict_eq (lastDateUsed e) (Some dt) = false).
  { destruct (strict_eq (lastDateUsed e) (Some dt)) eqn:E; [|reflexivity].
    apply strict_eq_spec in E. contradiction. }
  assert (Hh : diverted isSqlite sc sec (Some dt) d = false)
    by (apply unverified_not_diverted; unfold verifies; now rewrite He, Hne).
  pose proof (getNextCounter_runs_update isSqlite sc sec (Some dt) d e He Hh) as R.
  cbv zeta in R. rewrite Ht, Hne, (or_else_truthy _ _ Ht) in R.
  cbn [negb andb N.add] in R.
  destruct (runs_result _ _ _ _ R) as [-> ->]. split; [reflexivity|].
  now apply counter_of_update_date.
Qed.

Lemma rollover_restarts_at_one_witness :
  result_of (getNextCounter true SECTION (Some "INVES") (Some "2026-02-19"))
    Scenario.stale = Resolved 1
  /\ counter_of SECTION (Some "INVES")
       (database_after
          (getNextCounter true SECTION (Some "INVES") (Some "2026-02-19"))
          Scenario.stale)
     = Some (mkCounter 2 SECTION (Some "INVES") 1 (Some "2026-02-19")).
Proof.
  apply (rollover_restarts_at_one true SECTION (Some "INVES") "2026-02-19"
           Scenario.stale (mkCounter 2 SECTION (Some "INVES") 5 (Some Scenario.day)));
    [reflexivity | reflexivity | discriminate].
Defined.

(* ------------------------------------------------------------------ *)
(** ** The formatter *)
(* ------------------------------------------------------------------ *)

Lemma length_joined (front tail : string) :
  String.length (front ++ tail) = (String.length front + String.length tail)%nat.
Proof. induction front as [|c front IH]; cbn; [reflexivity | now rewrite IH]. Qed.

Lemma same_tail (front front' tail : string) :
  front ++ tail = front' ++ tail -> front = front'.
Proof.
  revert front'. induction front as [|c front IH]; intros [|c' front'] E.
  - reflexivity.
  - apply (f_equal String.length) in E. cbn in E. rewrite length_joined in E. lia.
  - apply (f_equal String.length) in E. cbn in E. rewrite length_joined in E. lia.
  - cbn in E. injection E as -> E. f_equal. now apply IH.
Qed.

Lemma same_front (front tail tail' : string) :
  front ++ tail = front ++ tail' -> tail = tail'.
Proof.
  induction front as [|c front IH]; cbn; intros E; [exact E|].
  injection E as E. now apply IH.
Qed.

(** Equal formatted control numbers carry the same sequence number,
    whatever the prefixes, sections and dates. *)
Lemma format_same_sequence (prefix prefix' : string) (sec sec' : option string)
    (date date' : string) (n n' : N) :
  formatCtrlNo prefix sec date n = formatCtrlNo prefix' sec' date' n' -> n = n'.
Proof.
  intros E. apply (f_equal extract_seq) in E.
  rewrite !extract_seq_format in E. congruence.
Qed.

(** With one prefix and one date, equal section control numbers are those
    of one section. *)
Lemma format_same_section (prefix date sec sec' : string) (n n' : N) :
  truthy (Some sec) = true -> truthy (Some sec') = true ->
  formatCtrlNo prefix (Some sec) date n = formatCtrlNo prefix (Some sec') date n' ->
  sec = sec'.
Proof.
  intros Hs Hs' E.
  pose proof (format_same_sequence _ _ _ _ _ _ _ _ E) as <-.
  unfold formatCtrlNo in E.
  destruct sec as [|c r]; [discriminate Hs|].
  destruct sec' as [|c' r']; [discriminate Hs'|].
  cbv zeta in E. apply same_front in E.
  rewrite !append_assoc in E. apply same_front in E.
  now apply same_tail in E.
Qed.

(** X4 ([formatCtrlNo]): for one prefix and one date, two section control
    numbers are equal exactly when the (non-empty) sections and the
    sequence numbers are; the padding and the short date never make two
    sections or two numbers collide. *)
Theorem formatCtrlNo_separates :
  forall (prefix date sec sec' : string) (n n' : N),
    truthy (Some sec) = true -> truthy (Some sec') = true ->
    (formatCtrlNo prefix (Some sec) date n = formatCtrlNo prefix (Some sec') date n'
     <-> sec = sec' /\ n = n').
Proof.
  intros prefix date sec sec' n n' Hs Hs'. split.
  - intros E. split.
    + exact (format_same_section prefix date sec sec' n n' Hs Hs' E).
    + exact (format_same_sequence _ _ _ _ _ _ _ _ E).
  - now intros [-> ->].
Qed.

Lemma formatCtrlNo_separates_witness :
  formatCtrlNo "RFU4A" (Some "INVES") "2026-02-18" 7
  = formatCtrlNo "RFU4A" (Some "INVES") "2026-02-18" 7
  <-> "INVES"%string = "INVES"%string /\ 7 = 7.
Proof.
  apply (formatCtrlNo_separates "RFU4A" "2026-02-18" "INVES" "INVES" 7 7);
    reflexivity.
Defined.

(* ------------------------------------------------------------------ *)
(** ** Creation on one date *)
(* ------------------------------------------------------------------ *)














(* ------------------------------------------------------------------ *)
(** ** The validator, for any rows *)
(* ------------------------------------------------------------------ *)

Lemma set_has_spec (x : string) (s : list string) : set_has x s = true <-> In x s.
Proof.
  unfold set_has. rewrite existsb_exists. split.
  - intros (y & Hin & E). apply String.eqb_eq in E. now subst.
  - intros Hin. exists x. split; [exact Hin | apply String.eqb_refl].
Qed.

Lemma set_add_spec (x y : string) (s : list string) :
  In x (set_add y s) <-> x = y \/ In x s.
Proof.
  unfold set_add. destruct (set_has y s) eqn:E.
  - apply set_has_spec in E. split; [now right | now intros [->|H]].
  - rewrite in_app_iff. cbn [In]. intuition.
Qed.

(** The first loop, scope by scope: the set grows by the control numbers
    of the scope, and the entries of the scope are the later repeats. *)
Lemma fold_duplicate_round (rows : list record) :
  forall (ms ss : list string) (dups : list duplicate),
    let '(ms', ss', dups') := fold_left duplicate_round rows (ms, ss, dups) in
    ms' = numbers_seen MC ms rows
    /\ ss' = numbers_seen SECTION ss rows
    /\ filter (of_type MC) dups'
       = (filter (of_type MC) dups ++ later_repeats MC ms rows)%list
    /\ filter (of_type SECTION) dups'
       = (filter (of_type SECTION) dups ++ later_repeats SECTION ss rows)%list.
Proof.
  unfold numbers_seen.
  induction rows as [|r rows IH]; intros ms ss dups.
  - cbn. now rewrite !app_nil_r.
  - cbn [fold_left]. unfold duplicate_round at 2, check_duplicate.
    cbn [numbers_of flat_map later_repeats ctrlNo_of].
    destruct (mcCtrlNo r) as [[|c1 s1]|]; destruct (sectionCtrlNo r) as [[|c2 s2]|];
      cbn [app];
      match goal with
      | |- context [fold_left duplicate_round rows (?a, ?b, ?c)] =>
          specialize (IH a b c);
          destruct (fold_left duplicate_round rows (a, b, c)) as [[ms' ss'] dups']
      end;
      destruct IH as (-> & -> & -> & ->);
      rewrite ?fold_left_app; cbn [fold_left];
      (split; [reflexivity|]); (split; [reflexivity|]);
      repeat match goal with
             | |- context [if set_has ?x ?s then _ else _] => destruct (set_has x s)
             end;
      rewrite ?filter_app; cbn [filter of_type dup_type scope_eqb app];
      rewrite ?app_nil_r, <- ?app_assoc; cbn [app]; split; reflexivity.
Qed.

Lemma numbers_of_cons (sc : scope) (r : record) (rows : list record) :
  numbers_of sc (r :: rows)
  = (match ctrlNo_of sc r with
     | Some (String c s) => [String c s]
     | _ => []
     end ++ numbers_of sc rows)%list.
Proof. reflexivity. Qed.

Lemma repeats_in_skip (sc : scope) (seen : list string) (r0 : record)
    (rows : list record) (x : duplicate) :
  (forall c s, ctrlNo_of sc r0 <> Some (String c s)) ->
  repeats_in sc seen (r0 :: rows) x <-> repeats_in sc seen rows x.
Proof.
  intros Hno. unfold repeats_in. split.
  - intros (Ht & before & r & after & E & Hid & Hc & Hne & Hin).
    split; [exact Ht|]. destruct before as [|b before]; cbn [app] in E.
    + injection E as <- <-. destruct (dup_controlNumber x) as [|c s];
        [now contradiction Hne | now contradiction (Hno c s)].
    + injection E as <- ->. exists before, r, after.
      rewrite numbers_of_cons in Hin.
      repeat (split; [assumption || reflexivity|]).
      destruct Hin as [Hin|Hin]; [now left | right].
      destruct (ctrlNo_of sc r0) as [[|c s]|]; [exact Hin | | exact Hin].
      now contradiction (Hno c s).
  - intros (Ht & before & r & after & -> & Hid & Hc & Hne & Hin).
    split; [exact Ht|]. exists (r0 :: before), r, after.
    repeat (split; [assumption || reflexivity|]).
    destruct Hin as [Hin|Hin]; [now left | right].
    rewrite numbers_of_cons. apply in_or_app. now right.
Qed.

Lemma repeats_in_step (sc : scope) (seen : list string) (r0 : record)
    (rows : list record) (x : duplicate) (c : ascii) (s : string) :
  ctrlNo_of sc r0 = Some (String c s) ->
  repeats_in sc seen (r0 :: rows) x
  <-> (x = mkDuplicate sc (String c s) (id r0) /\ In (String c s) seen)
      \/ repeats_in sc (set_add (String c s) seen) rows x.
Proof.
  intros H0. unfold repeats_in. split.
  - intros (Ht & before & r & after & E & Hid & Hc & Hne & Hin).
    destruct before as [|b before]; cbn [app] in E.
    + injection E as <- <-. left. rewrite H0 in Hc. injection Hc as Hc.
      destruct Hin as [Hin|[]]. rewrite <- Hc in Hin. split; [|exact Hin].
      destruct x as [t cn i]. cbn in *. congruence.
    + injection E as <- ->. right. split; [exact Ht|].
      exists before, r, after.
      repeat (split; [assumption || reflexivity|]).
      rewrite numbers_of_cons, H0 in Hin. cbn [app In] in Hin.
      rewrite set_add_spec. intuition.
  - intros [[-> Hin]|(Ht & before & r & after & -> & Hid & Hc & Hne & Hin)].
    + split; [reflexivity|]. exists [], r0, rows. cbn.
      repeat (split; [assumption || reflexivity || discriminate|]). now left.
    + split; [exact Ht|]. exists (r0 :: before), r, after.
      repeat (split; [assumption || reflexivity|]).
      rewrite numbers_of_cons, H0. cbn [app In].
      rewrite set_add_spec in Hin. intuition.
Qed.

Lemma later_repeats_spec (sc : scope) (rows : list record) :
  forall (seen : list string) (x : duplicate),
    In x (later_repeats sc seen rows) <-> repeats_in sc seen rows x.
Proof.
  induction rows as [|r0 rows IH]; intros seen x.
  - cbn. split; [intros []|].
    intros (_ & before & r & after & E & _). now destruct before.
  - cbn [later_repeats].
    destruct (ctrlNo_of sc r0) as [[|c s]|] eqn:H0.
    + rewrite IH. symmetry. apply repeats_in_skip. intros c s. congruence.
    + rewrite (repeats_in_step sc seen r0 rows x c s H0), in_app_iff, IH.
      destruct (set_has (String c s) seen) eqn:E.
      * apply set_has_spec in E. cbn [In]. intuition.
      * assert (~ In (String c s) seen)
          by (intros Hin; apply set_has_spec in Hin; congruence).
        cbn [In]. intuition.
    + rewrite IH. symmetry. apply repeats_in_skip. intros c s. congruence.
Qed.

Lemma validate_rows_duplicates (sc : scope) (rows : list record) :
  filter (of_type sc) (duplicates (validate_rows rows)) = later_repeats sc [] rows.
Proof.
  unfold validate_rows.
  pose proof (fold_duplicate_round rows [] [] []) as H.
  destruct (fold_left duplicate_round rows ([], [], [])) as [[ms ss] dups].
  destruct H as (_ & _ & Hm & Hs). cbn [duplicates]. now destruct sc.
Qed.

(** X7 ([validateControlNumbers], duplicate loop): an entry is reported
    exactly for a row whose non-empty control number of the entry's type
    already stands in an earlier row; the entry carries that row's id, so
    the first holder of a repeated number is never named and every later
    one is. *)
Theorem duplicates_are_the_later_holders :
  forall (rows : list record) (x : duplicate),
    In x (duplicates (validate_rows rows))
    <-> exists before r after,
          rows = (before ++ r :: after)%list
          /\ dup_recordId x = id r
          /\ ctrlNo_of (dup_type x) r = Some (dup_controlNumber x)
          /\ dup_controlNumber x <> EmptyString
          /\ In (dup_controlNumber x) (numbers_of (dup_type x) before).
Proof.
  intros rows x.
  assert (Hf : In x (duplicates (validate_rows rows))
               <-> In x (filter (of_type (dup_type x)) (duplicates (validate_rows rows)))).
  { rewrite filter_In. unfold of_type. destruct (dup_type x); cbn; intuition. }
  rewrite Hf, validate_rows_duplicates, later_repeats_spec. unfold repeats_in.
  split.
  - intros (_ & before & r & after & E & Hid & Hc & Hne & [[]|Hin]).
    now exists before, r, after.
  - intros (before & r & after & E & Hid & Hc & Hne & Hin).
    split; [reflexivity|]. exists before, r, after. auto 6.
Qed.

Lemma later_repeats_none (sc : scope) (rows : list record) :
  forall seen : list string,
    later_repeats sc seen rows = []
    <-> NoDup (numbers_of sc rows)
        /\ (forall cn, In cn (numbers_of sc rows) -> ~ In cn seen).
Proof.
  induction rows as [|r0 rows IH]; intros seen.
  - cbn. split; [intros _; split; [constructor | intros cn []] | reflexivity].
  - rewrite numbers_of_cons. cbn [later_repeats].
    destruct (ctrlNo_of sc r0) as [[|c s]|]; cbn [app]; try apply IH.
    split.
    + intros E. apply app_eq_nil in E. destruct E as [Hc Hr].
      apply IH in Hr. destruct Hr as [Hu Hs].
      assert (Hfresh : ~ In (String c s) seen).
      { intros Hin. apply set_has_spec in Hin. rewrite Hin in Hc. discriminate. }
      split.
      * constructor; [|exact Hu]. intros Hin. apply (Hs _ Hin).
        apply set_add_spec. now left.
      * intros cn [<-|Hin]; [exact Hfresh|]. intros Hseen. apply (Hs _ Hin).
        apply set_add_spec. now right.
    + intros [Hu Hs]. apply NoDup_cons_iff in Hu. destruct Hu as [Hout Hu].
      destruct (set_has (String c s) seen) eqn:E.
      * apply set_has_spec in E. contradiction (Hs (String c s)). now left.
      * cbn [app]. apply IH. split; [exact Hu|].
        intros cn Hin Hadd. apply set_add_spec in Hadd.
        destruct Hadd as [->|Hseen]; [contradiction|].
        apply (Hs cn); [now right | exact Hseen].
Qed.

Lemma no_entry_of_either_type (l : list duplicate) :
  l = [] <-> filter (of_type MC) l = [] /\ filter (of_type SECTION) l = [].
Proof.
  split; [now intros ->|]. intros [Hm Hs].
  destruct l as [|[[] cn i] l]; [reflexivity | discriminate Hm | discriminate Hs].
Qed.

(** X8 ([validateControlNumbers], duplicate loop): no duplicate is
    reported exactly when the non-empty office control numbers of the rows
    are pairwise distinct and so are the non-empty section control
    numbers; rows without a control number never count. *)
Theorem no_duplicates_iff_distinct :
  forall rows : list record,
    duplicates (validate_rows rows) = []
    <-> NoDup (numbers_of MC rows) /\ NoDup (numbers_of SECTION rows).
Proof.
  intros rows.
  rewrite no_entry_of_either_type, !validate_rows_duplicates, !later_repeats_none.
  split.
  - now intros [[Hm _] [Hs _]].
  - intros [Hm Hs]. split; (split; [assumption | intros cn _ []]).
Qed.

(* ------------------------------------------------------------------ *)
(** ** The validator: what the gap loops report *)
(* ------------------------------------------------------------------ *)

Lemma missing_numbers_cons (a b : N) (l : list N) :
  missing_numbers (a :: b :: l)
  = (missing_between a b ++ missing_numbers (b :: l))%list.
Proof. reflexivity. Qed.

(** In an ascending array the integers between neighbours are those that
    lie strictly between two elements without being one. *)
Lemma missing_numbers_ascending (l : list N) :
  Sorted.StronglySorted N.le l ->
  forall m, In m (missing_numbers l)
            <-> ~ In m l /\ exists a b, In a l /\ In b l /\ a < m < b.
Proof.
  induction 1 as [|a0 l Hl IH Ha0].
  - intros m. cbn. split; [intros [] | now intros (_ & a & _ & [] & _)].
  - intros m. rewrite Forall_forall in Ha0.
    destruct l as [|b0 l'].
    + cbn. split; [intros []|].
      intros (_ & a & b & [<-|[]] & [<-|[]] & Hlt). lia.
    + rewrite missing_numbers_cons, in_app_iff, missing_between_spec, IH.
      assert (Hb0 : forall x, In x l' -> b0 <= x).
      { inversion Hl as [|? ? _ Hall]; subst. now rewrite Forall_forall in Hall. }
      pose proof (Ha0 b0 (or_introl eq_refl)) as Hab.
      split.
      * intros [Hlt|(Hout & a & b & Hina & Hinb & Hlt)].
        -- split; [|exists a0, b0; cbn; auto].
           intros [<-|[<-|Hin]]; [lia | lia |]. specialize (Hb0 m Hin). lia.
        -- split; [|exists a, b; cbn [In] in *; intuition].
           intros [<-|Hin]; [|contradiction].
           destruct Hina as [<-|Hina]; [lia|].
           pose proof (Hb0 a Hina). lia.
      * intros (Hout & a & b & Hina & Hinb & Hlt).
        destruct (N.ltb_spec m b0) as [Hm|Hm].
        -- left. split; [|exact Hm].
           destruct Hina as [<-|Hina]; [lia|]. specialize (Ha0 a Hina). lia.
        -- right. split; [intros Hin; apply Hout; now right|].
           assert (b0 <> m) by (intros <-; apply Hout; cbn; auto).
           exists b0, b. split; [now left|]. split; [|lia].
           destruct Hinb as [<-|Hinb]; [lia | exact Hinb].
Qed.

Lemma String_of_number_separates (m n : N) :
  String_of_number m = String_of_number n -> m = n.
Proof.
  intros E. apply (f_equal (parseInt_digits 0)) in E.
  now rewrite !parseInt_digits_String in E.
Qed.

Lemma missing_message_separates (m n : N) :
  missing_message m = missing_message n -> m = n.
Proof.
  unfold missing_message. intros E. apply same_front in E.
  now apply String_of_number_separates.
Qed.

Lemma find_gaps_member (sc sc' : scope) (l : list N) (m : N) :
  In (mkIssue sc (missing_message m)) (find_gaps sc' l)
  <-> sc = sc' /\ In m (missing_numbers l).
Proof.
  rewrite find_gaps_missing, in_map_iff. split.
  - intros (n & E & Hin).
    pose proof (f_equal issue_type E) as Et.
    pose proof (f_equal issue_message E) as Em. cbn [issue_type issue_message] in *.
    apply missing_message_separates in Em. now subst.
  - intros [-> Hin]. now exists m.
Qed.

Lemma numbers_seen_spec (sc : scope) (rows : list record) (seen : list string)
    (cn : string) :
  In cn (numbers_seen sc seen rows) <-> In cn seen \/ In cn (numbers_of sc rows).
Proof.
  unfold numbers_seen. revert seen.
  induction (numbers_of sc rows) as [|x l IH]; intros seen; cbn [fold_left In].
  - intuition.
  - rewrite IH, set_add_spec. intuition.
Qed.

Lemma sequences_of_spec (sc : scope) (rows : list record) :
  Sorted.StronglySorted N.le
    (sequences_of (pattern_of sc) (numbers_seen sc [] rows))
  /\ forall n, In n (sequences_of (pattern_of sc) (numbers_seen sc [] rows))
               <-> In n (sequences_read sc rows).
Proof.
  unfold sequences_of.
  destruct (sort_numbers_spec
              (flat_map (fun cn => match extractSequence cn (pattern_of sc) with
                                   | Some n => [n]
                                   | None => []
                                   end) (numbers_seen sc [] rows)))
    as [Hperm Hasc].
  split.
  - apply Sorted.Sorted_StronglySorted; [|exact Hasc].
    intros x y z. apply N.le_trans.
  - intros n. split.
    + intros Hin. apply (Permutation_in _ Hperm) in Hin.
      apply in_flat_map in Hin. destruct Hin as (cn & Hcn & Hn).
      apply numbers_seen_spec in Hcn. destruct Hcn as [[]|Hcn].
      unfold sequences_read. apply in_flat_map. now exists cn.
    + intros Hin. apply (Permutation_in _ (Permutation_sym Hperm)).
      unfold sequences_read in Hin. apply in_flat_map in Hin.
      destruct Hin as (cn & Hcn & Hn). apply in_flat_map. exists cn.
      split; [|exact Hn]. apply numbers_seen_spec. now right.
Qed.

Lemma validate_rows_issues (rows : list record) :
  issues (validate_rows rows)
  = (find_gaps MC (sequences_of (pattern_of MC) (numbers_seen MC [] rows))
     ++ find_gaps SECTION
          (sequences_of (pattern_of SECTION) (numbers_seen SECTION [] rows)))%list.
Proof.
  unfold validate_rows.
  pose proof (fold_duplicate_round rows [] [] []) as H.
  destruct (fold_left duplicate_round rows ([], [], [])) as [[ms ss] dups].
  destruct H as (-> & -> & _). reflexivity.
Qed.

(** X9 ([validateControlNumbers], gap loops): every issue is a
    missing-sequence message of one scope, and the number [m] is reported
    for a scope exactly when it is none of the sequence numbers read in the
    rows' control numbers of that scope and lies strictly between two of
    them; so a number below the smallest or above the largest one present
    is never reported. *)
Theorem gaps_are_the_inner_absentees :
  forall rows : list record,
    (forall x, In x (issues (validate_rows rows)) ->
       exists m, x = mkIssue (issue_type x) (missing_message m))
    /\ (forall sc m,
          In (mkIssue sc (missing_message m)) (issues (validate_rows rows))
          <-> ~ In m (sequences_read sc rows)
              /\ exists a b, In a (sequences_read sc rows)
                             /\ In b (sequences_read sc rows) /\ a < m < b).
Proof.
  intros rows. rewrite validate_rows_issues. split.
  - intros x Hin. apply in_app_iff in Hin. rewrite !find_gaps_missing in Hin.
    destruct Hin as [Hin|Hin]; apply in_map_iff in Hin;
      destruct Hin as (m & <- & _); now exists m.
  - intros sc m. rewrite in_app_iff, !find_gaps_member.
    destruct (sequences_of_spec sc rows) as [Hasc Hmem].
    pose proof (missing_numbers_ascending _ Hasc m) as Hgap.
    assert (Hsame : In m (missing_numbers
                            (sequences_of (pattern_of sc) (numbers_seen sc [] rows)))
                    <-> ~ In m (sequences_read sc rows)
                        /\ exists a b, In a (sequences_read sc rows)
                                       /\ In b (sequences_read sc rows) /\ a < m < b).
    { rewrite Hgap. split; intros (Hout & a & b & Ha & Hb & Hlt).
      - split; [now rewrite <- Hmem|]. exists a, b. rewrite <- !Hmem. auto.
      - split; [now rewrite Hmem|]. exists a, b. rewrite !Hmem. auto. }
    rewrite <- Hsame. destruct sc; split.
    + now intros [[_ H]|[E _]].
    + intros H. now left.
    + now intros [[E _]|[_ H]].
    + intros H. now right.
Qed.

(* ------------------------------------------------------------------ *)
(** ** The validator on the databases of one date *)
(* ------------------------------------------------------------------ *)






(* ------------------------------------------------------------------ *)
(** ** The allocator under storage faults *)
(* ------------------------------------------------------------------ *)

Ltac io_cases :=
  repeat (io_case
          || rewrite bind_assoc
          || rewrite bind_ret
          || rewrite run_ret
          || match goal with
             | |- context [if ?c then _ else _] => destruct c
             | |- context [match ?o with Some _ => _ | None => _ end] => destruct o
             end).

Lemma sqlite_allocation_records (isSqlite : bool) (sc : scope)
    (sec date : option string) (w : world) :
  records (db (snd (getNextCounter isSqlite sc sec date w))) = records (db w).
Proof.
  unfold getNextCounter, verify_counter.
  io_cases; reflexivity.
Qed.

(** With PostgreSQL an allocation that enters the verification block is
    rejected, whatever the fault script, and leaves the database as it was:
    the block names quoted columns that the tables do not have. *)
Lemma postgres_refuses_verification (sc : scope) (sec date : option string)
    (w : world) :
  verifies sc sec date (db w) = true ->
  (exists e, fst (getNextCounter false sc sec date w) = Rejected e)
  /\ db (snd (getNextCounter false sc sec date w)) = db w.
Proof.
  unfold verifies, getNextCounter, verify_counter. intros Hv.
  io_case; [|split; [eexists|]; reflexivity].
  cbn [Sql.select_counter fst snd].
  change (find _ (counters (db w))) with (counter_of sc sec (db w)).
  destruct (counter_of sc sec (db w)) as [c|]; [|discriminate Hv].
  apply andb_true_iff in Hv. destruct Hv as [Hv Hd].
  apply andb_true_iff in Hv. destruct Hv as [Hl Hs].
  rewrite Hl, Hs, Hd, andb_false_r. cbn [negb andb].
  rewrite bind_assoc. io_case. split; [eexists|]; reflexivity.
Qed.

(** X11 ([getNextCounter] under storage faults): in the SQLite branch a
    rejected allocation leaves the database exactly as it was, whichever
    call failed; in both branches an allocation, rejected or not, never
    touches the records table nor its id sequence. *)
Theorem sqlite_allocation_all_or_nothing :
  forall (sc : scope) (sec date : option string) (w : world),
    (forall e, fst (getNextCounter true sc sec date w) = Rejected e ->
               db (snd (getNextCounter true sc sec date w)) = db w)
    /\ (forall isSqlite,
          records (db (snd (getNextCounter isSqlite sc sec date w))) = records (db w)
          /\ records_seq (db (snd (getNextCounter isSqlite sc sec date w)))
             = records_seq (db w)).
Proof.
  intros sc sec date w. split.
  - intros e. unfold getNextCounter, verify_counter.
    io_cases; cbn [fst snd db Sql.select_counter Sql.select_partition];
      intros; try discriminate; reflexivity.
  - intros isSqlite. unfold getNextCounter, verify_counter.
    io_cases; cbn [fst snd db Sql.select_counter Sql.select_partition
                   Sql.update_number_by_id Sql.update_number_date_by_id
                   Sql.update_counters Sql.insert_counter records records_seq];
      split; reflexivity.
Qed.

Lemma sqlite_allocation_all_or_nothing_witness :
  db (snd (getNextCounter true SECTION (Some "INVES") (Some Scenario.day)
             (mkWorld Scenario.stale [false; false; true])))
  = Scenario.stale.
Proof.
  apply (proj1 (sqlite_allocation_all_or_nothing SECTION (Some "INVES")
                  (Some Scenario.day)
                  (mkWorld Scenario.stale [false; false; true]))
           "storage failure"%string).
  vm_compute. reflexivity.
Defined.

(* ------------------------------------------------------------------ *)
(** ** The file column *)
(* ------------------------------------------------------------------ *)

Lemma file_frame_set_file (url by_user now : option string) (r : record) :
  file_frame (SqlFile.set_file url by_user now r) = file_frame r.
Proof. reflexivity. Qed.

Lemma frame_update_file (url by_user now : option string) (i : N) (d : database) :
  map file_frame (records (snd (SqlFile.update_file url by_user now i d)))
  = map file_frame (records d).
Proof.
  cbn [SqlFile.update_file snd records]. rewrite map_map.
  apply map_ext. intros r. now destruct (id r =? i).
Qed.

Lemma find_update_file (url by_user now : option string) (i : N)
    (l : list record) :
  find (fun r => id r =? i)
    (map (fun r => if id r =? i then SqlFile.set_file url by_user now r else r) l)
  = option_map (SqlFile.set_file url by_user now) (find (fun r => id r =? i) l).
Proof.
  induction l as [|r l IH]; [reflexivity|]. cbn [map find].
  destruct (id r =? i) eqn:E.
  - cbn [SqlFile.set_file id]. now rewrite E.
  - now rewrite E.
Qed.

(** X12 ([updateRecordFile]): whatever storage calls fail, a file update
    leaves the counters and both id sequences alone and changes no column
    of any record other than [subjectFileUrl], [updatedBy] and [updatedAt];
    in particular ids, control numbers, sections and dates stay. *)
Theorem file_update_touches_file_columns_only :
  forall (isSqlite : bool) (now : string) (i : N) (url by_user : option string)
         (w : world),
    let after := db (snd (updateRecordFile isSqlite now i url by_user w)) in
    map file_frame (records after) = map file_frame (records (db w))
    /\ records_seq after = records_seq (db w)
    /\ counters after = counters (db w)
    /\ counters_seq after = counters_seq (db w).
Proof.
  intros isSqlite now i url by_user w. cbv zeta.
  unfold updateRecordFile, getRecord.
  destruct isSqlite; io_cases;
    cbn [fst snd db Sql.select_record SqlFile.update_file_returning];
    rewrite ?frame_update_file; repeat split; reflexivity.
Qed.

(** X13 ([updateRecordFile]): when no storage call fails the two storage
    branches return the same row and leave the same database: the row
    [i] with the new file URL, [updatedBy] (null when falsy) and the time
    of the call, or nothing when no row has that id. *)
Theorem file_update_branches_agree :
  forall (now : string) (i : N) (url by_user : option string) (d : database),
    result_of (updateRecordFile true now i url by_user) d
    = result_of (updateRecordFile false now i url by_user) d
    /\ database_after (updateRecordFile true now i url by_user) d
       = database_after (updateRecordFile false now i url by_user) d
    /\ result_of (updateRecordFile false now i url by_user) d
       = Resolved
           (option_map (SqlFile.set_file url (or_else by_user None) (Some now))
              (fst (Sql.select_record i d))).
Proof.
  intros now i url by_user d.
  unfold result_of, database_after, updateRecordFile, getRecord.
  io_healthy. rewrite !query_healthy.
  cbn [fst snd db Sql.select_record SqlFile.update_file_returning
       SqlFile.update_file records healthy].
  rewrite find_update_file. repeat split; reflexivity.
Qed.

(* ------------------------------------------------------------------ *)
(** ** Who may do what *)
(* ------------------------------------------------------------------ *)

Lemma forbidden_foreign (u : user) (sec : option string) :
  user_role u = role_SECTION -> sec <> user_section u -> forbidden u sec = true.
Proof.
  intros Hr Hne. unfold forbidden. rewrite Hr.
  destruct (strict_eq sec (user_section u)) eqn:E; [|reflexivity].
  apply strict_eq_spec in E. contradiction.
Qed.

Lemma denied_failed {A : Type} (status : N) (error : string) (w : world) :
  denied_in (ret (@Failed A status error)) w.
Proof. split; [reflexivity|]. intros body. cbn. discriminate. Qed.

Lemma denied_by_id {A : Type} (u : user) (i : N) (w : world)
    (k : record -> io (reply A)) :
  user_role u = role_SECTION ->
  foreign_record u i w ->
  denied_in
    (r <- getRecord i ;;
     match r with
     | None => ret (Failed 404 "Not found")
     | Some rec =>
         if forbidden u (section rec) then ret (Failed 403 "Forbidden") else k rec
     end) w.
Proof.
  intros Hr Hf. unfold denied_in, getRecord. io_case.
  - cbn [Sql.select_record snd]. unfold foreign_record in Hf.
    destruct (fst (Sql.select_record i (db w))) as [rec|] eqn:E.
    + rewrite (forbidden_foreign u (section rec) Hr (Hf rec eq_refl)).
      split; [reflexivity|]. intros body. cbn. discriminate.
    + split; [reflexivity|]. intros body. cbn. discriminate.
  - split; [reflexivity|]. intros body. cbn. discriminate.
Qed.

(** X14 ([requireRole], POST /control-numbers/next,
    POST /records/reset-counters, POST /control-numbers/preview,
    GET /records/validate-control-numbers, POST /records, GET, PUT and
    DELETE /records/:id): a SECTION account is confined to its section.
    Whatever storage calls fail, allocation and reset requests, requests
    that name another section, and requests on a record of another
    section send no body and leave the database as it was. *)
Theorem section_account_is_confined :
  forall (isSqlite : bool) (date_before : string -> string -> bool)
         (now : string) (u : user) (w : world),
    user_role u = role_SECTION ->
    (forall sec date,
       denied_in (post_control_numbers_next isSqlite u sec date) w
       /\ denied_in (post_reset_counters u sec date) w)
    /\ (forall sec date, sec <> user_section u ->
          denied_in (post_control_numbers_preview isSqlite u sec date) w
          /\ denied_in (get_validate_control_numbers u sec date) w)
    /\ (forall p, p_section p <> user_section u ->
          denied_in (post_records isSqlite date_before now u p) w)
    /\ (forall i p, foreign_record u i w ->
          denied_in (get_record_handler u i) w
          /\ denied_in (put_record isSqlite date_before now u i p) w
          /\ denied_in (delete_record_handler u i) w).
Proof.
  intros isSqlite date_before now u w Hr. split; [|split; [|split]].
  - intros sec date.
    unfold post_control_numbers_next, post_reset_counters, requireRole.
    rewrite Hr. cbn [existsb role_eqb orb negb].
    split; apply denied_failed.
  - intros sec date Hne.
    unfold post_control_numbers_preview, get_validate_control_numbers.
    rewrite (forbidden_foreign u sec Hr Hne).
    destruct sec as [[|c1 s1]|]; try (split; apply denied_failed);
      destruct date as [[|c2 s2]|]; split; apply denied_failed.
  - intros p Hne. unfold post_records.
    rewrite (forbidden_foreign u _ Hr Hne). apply denied_failed.
  - intros i p Hf. split; [|split].
    + apply (denied_by_id u i w (fun rec => ret (Sent rec)) Hr Hf).
    + unfold put_record. now apply denied_by_id.
    + unfold delete_record_handler. now apply denied_by_id.
Qed.

Lemma section_account_is_confined_witness :
  denied_in
    (post_records true Scenario.date_before "t" intel_user
       (Scenario.request "INVES" Scenario.day))
    (healthy Scenario.stale)
  /\ denied_in (delete_record_handler intel_user 1) (healthy Scenario.stale).
Proof.
  destruct (section_account_is_confined true Scenario.date_before "t" intel_user
              (healthy Scenario.stale) eq_refl) as (_ & _ & Hpost & Hid).
  split.
  - apply Hpost. vm_compute. discriminate.
  - apply (Hid 1 (Scenario.request "INVES" Scenario.day)).
    intros rec. vm_compute. intros [= <-]. discriminate.
Defined.

(** X15 (POST /control-numbers/preview,
    GET /records/validate-control-numbers, GET /records/:id,
    POST /control-numbers/next, POST /records/reset-counters): for every
    caller and whatever storage calls fail, the preview, the validation
    report and the reading of a record leave the whole database as it was,
    and neither the allocation request nor the reset request touches the
    records table. *)
Theorem reading_requests_change_nothing :
  forall (isSqlite : bool) (u : user) (sec date : option string) (i : N)
         (w : world),
    db (snd (post_control_numbers_preview isSqlite u sec date w)) = db w
    /\ db (snd (get_validate_control_numbers u sec date w)) = db w
    /\ db (snd (get_record_handler u i w)) = db w
    /\ records (db (snd (post_control_numbers_next isSqlite u sec date w)))
       = records (db w)
    /\ records (db (snd (post_reset_counters u sec date w))) = records (db w).
Proof.
  intros isSqlite u sec date i w. repeat split.
  - unfold post_control_numbers_preview, getNextControlNumbers,
      getNextCounterPreview.
    destruct sec as [[|c1 s1]|]; try reflexivity;
      destruct date as [[|c2 s2]|]; try reflexivity;
      io_cases; reflexivity.
  - unfold get_validate_control_numbers, validateControlNumbers.
    destruct sec as [[|c1 s1]|]; try reflexivity;
      destruct date as [[|c2 s2]|]; try reflexivity;
      io_cases; reflexivity.
  - unfold get_record_handler, getRecord. io_cases; reflexivity.
  - unfold post_control_numbers_next, requireRole, getNextControlNumbers.
    destruct (negb (existsb (role_eqb (user_role u)) [role_MC])); [reflexivity|].
    destruct sec as [[|c1 s1]|]; try reflexivity.
    destruct date as [[|c2 s2]|]; try reflexivity.
    rewrite bind_assoc. unfold bind at 1.
    pose proof (sqlite_allocation_records isSqlite MC None
                  (Some (String c2 s2)) w) as H1.
    destruct (getNextCounter isSqlite MC None (Some (String c2 s2)) w)
      as [[a|e] w1]; cbn [snd] in H1; [|exact H1].
    rewrite bind_assoc. unfold bind at 1.
    pose proof (sqlite_allocation_records isSqlite SECTION
                  (Some (String c1 s1)) (Some (String c2 s2)) w1) as H2.
    destruct (getNextCounter isSqlite SECTION (Some (String c1 s1))
                (Some (String c2 s2)) w1)
      as [[b|e] w2]; cbn [snd] in H2; [|cbn [snd]; congruence].
    rewrite !bind_ret, run_ret. cbn [snd]. congruence.
  - unfold post_reset_counters, requireRole.
    destruct (negb (existsb (role_eqb (user_role u)) [role_MC])); [reflexivity|].
    destruct sec as [[|c1 s1]|]; try reflexivity.
    destruct date as [[|c2 s2]|]; try reflexivity.
    unfold bind at 1.
    destruct w as [d fs].
    destruct (reset_run (Some (String c1 s1)) (Some (String c2 s2)) d fs)
      as (d' & fs' & Hrec & -> & _).
    destruct (script_fails 3 fs); [exact Hrec|].
    unfold bind at 1. rewrite validate_run.
    destruct (script_fails 1 fs'); cbn [snd db]; [exact Hrec|].
    rewrite run_ret. exact Hrec.
Qed.

(* ------------------------------------------------------------------ *)
(** ** Folder names *)
(* ------------------------------------------------------------------ *)

Lemma folder_char_plain (c : ascii) :
  folder_char c = true -> JsText.is_space c = false /\ JsText.lower_char c = c.
Proof.
  destruct c as [[] [] [] [] [] [] [] []]; vm_compute; intros H;
    (discriminate H || (split; reflexivity)).
Qed.

Lemma replace_runs_class (s : string) :
  forall in_run, all_chars folder_char (replace_runs in_run s) = true.
Proof.
  induction s as [|c s IH]; intros in_run; [reflexivity|].
  cbn [replace_runs]. destruct (folder_char c) eqn:E.
  - cbn [all_chars]. now rewrite E, IH.
  - destruct in_run; [apply IH|]. cbn [all_chars]. now rewrite IH.
Qed.

Lemma class_trimStart (s : string) :
  all_chars folder_char s = true -> JsText.trimStart s = s.
Proof.
  destruct s as [|c s]; [reflexivity|]. cbn [all_chars JsText.trimStart].
  intros H. apply andb_true_iff in H. destruct H as [Hc _].
  now destruct (folder_char_plain c Hc) as [-> _].
Qed.

Lemma class_trimEnd (s : string) :
  all_chars folder_char s = true -> JsText.trimEnd s = s.
Proof.
  induction s as [|c s IH]; [reflexivity|]. cbn [all_chars JsText.trimEnd].
  intros H. apply andb_true_iff in H. destruct H as [Hc Hs].
  rewrite (IH Hs). destruct (folder_char_plain c Hc) as [-> _].
  now destruct s.
Qed.

Lemma class_toLowerCase (s : string) :
  all_chars folder_char s = true -> JsText.toLowerCase s = s.
Proof.
  induction s as [|c s IH]; [reflexivity|]. cbn [all_chars JsText.toLowerCase].
  intros H. apply andb_true_iff in H. destruct H as [Hc Hs].
  rewrite (IH Hs). now destruct (folder_char_plain c Hc) as [_ ->].
Qed.

Lemma class_replace_runs (s : string) :
  all_chars folder_char s = true -> forall in_run, replace_runs in_run s = s.
Proof.
  induction s as [|c s IH]; [reflexivity|]. cbn [all_chars replace_runs].
  intros H in_run. apply andb_true_iff in H. destruct H as [Hc Hs].
  now rewrite Hc, (IH Hs).
Qed.

Lemma sanitize_class (s : string) :
  all_chars folder_char s = true ->
  replace_runs false (JsText.toLowerCase (JsText.trim s)) = s.
Proof.
  intros H. unfold JsText.trim.
  now rewrite (class_trimStart s H), (class_trimEnd s H),
    (class_toLowerCase s H), (class_replace_runs s H).
Qed.

Lemma sanitize_cases (value : option string) (fallback : string) :
  sanitizeFolderName value fallback = fallback
  \/ (sanitizeFolderName value fallback <> EmptyString
      /\ all_chars folder_char (sanitizeFolderName value fallback) = true).
Proof.
  unfold sanitizeFolderName.
  pose proof (replace_runs_class
                (JsText.toLowerCase (JsText.trim (JsText.text_of value))) false) as Hc.
  destruct (replace_runs false
              (JsText.toLowerCase (JsText.trim (JsText.text_of value))))
    as [|c s]; [now left | right]. split; [discriminate | exact Hc].
Qed.

Lemma sanitize_fixed (name fallback : string) :
  all_chars folder_char name = true ->
  name = fallback \/ name <> EmptyString ->
  sanitizeFolderName (Some name) fallback = name.
Proof.
  intros Hc Hn. unfold sanitizeFolderName. cbn [JsText.text_of].
  rewrite (sanitize_class name Hc).
  destruct name as [|c s]; [|reflexivity].
  now destruct Hn as [<-|Hn].
Qed.

(** X16 ([sanitizeFolderName]): the folder name is the fallback, or a
    non-empty string of the characters a-z, 0-9, underscore and dash only
    (so no dot, slash, backslash or upper-case letter reaches the upload
    path); with a fallback of such characters the function is idempotent,
    and with a non-empty one it never returns the empty string. *)
Theorem folder_names_are_plain :
  forall (value : option string) (fallback : string),
    let name := sanitizeFolderName value fallback in
    (name = fallback \/ (name <> EmptyString /\ all_chars folder_char name = true))
    /\ (all_chars folder_char fallback = true ->
        all_chars folder_char name = true
        /\ sanitizeFolderName (Some name) fallback = name)
    /\ (fallback <> EmptyString -> name <> EmptyString).
Proof.
  intros value fallback name.
  pose proof (sanitize_cases value fallback) as H. fold name in H.
  split; [exact H|]. split.
  - intros Hf.
    assert (Hc : all_chars folder_char name = true)
      by (destruct H as [->|[_ Hc]]; assumption).
    split; [exact Hc|]. apply sanitize_fixed; [exact Hc|].
    destruct H as [->|[Hn _]]; [now left | now right].
  - intros Hf. now destruct H as [->|[Hn _]].
Qed.

(* ------------------------------------------------------------------ *)
(** ** Remarks text *)
(* ------------------------------------------------------------------ *)

Lemma coerce_of_normalized (email viber hardCopy : bool) :
  coerceRemarksText (Some (normalizeRemarks (channels email viber hardCopy)))
  = normalizeRemarks (channels email viber hardCopy).
Proof. destruct email, viber, hardCopy; vm_compute; reflexivity. Qed.

Lemma normalizeRemarks_channels (p : payload) :
  normalizeRemarks p
  = normalizeRemarks
      (channels (p_remarksEmail p) (p_remarksViber p) (p_remarksHardCopy p)).
Proof. reflexivity. Qed.

(** X17 ([normalizeRemarks], [coerceRemarksText]): the remarks text that
    POST and PUT store is displayed as stored: [coerceRemarksText] is the
    identity on every value of [normalizeRemarks]. *)
Theorem stored_remarks_display_unchanged :
  forall p : payload,
    coerceRemarksText (Some (normalizeRemarks p)) = normalizeRemarks p.
Proof.
  intros p. rewrite (normalizeRemarks_channels p). apply coerce_of_normalized.
Qed.

Lemma canonical_token_spec (x t : string) :
  canonical_token x = t
  -> (t = "email"%string /\ x = "email"%string)
     \/ (t = "viber"%string /\ x = "viber"%string)
     \/ (t = "hardcopy"%string
         /\ (x = "hard copy"%string \/ x = "hardcopy"%string))
     \/ t = EmptyString.
Proof.
  unfold canonical_token.
  destruct (String.eqb_spec x "hard copy") as [->|H1].
  - cbn [orb]. intros <-. right. right. left. auto.
  - destruct (String.eqb_spec x "hardcopy") as [->|H2].
    + cbn [orb]. intros <-. right. right. left. auto.
    + cbn [orb]. destruct (String.eqb_spec x "email") as [->|H3].
      * intros <-. left. auto.
      * destruct (String.eqb_spec x "viber") as [->|H4].
        -- intros <-. right. left. auto.
        -- intros <-. now repeat right.
Qed.

Lemma remark_tokens_spec (raw t : string) :
  In t (remark_tokens raw)
  <-> (t = "email"%string /\ In "email"%string (remark_parts raw))
      \/ (t = "viber"%string /\ In "viber"%string (remark_parts raw))
      \/ (t = "hardcopy"%string
          /\ (In "hard copy"%string (remark_parts raw)
              \/ In "hardcopy"%string (remark_parts raw))).
Proof.
  unfold remark_tokens. rewrite filter_In, in_map_iff. split.
  - intros [(x & Hx & Hin) Hne]. apply filter_In in Hin. destruct Hin as [Hin _].
    destruct (canonical_token_spec x t Hx)
      as [[-> ->]|[[-> ->]|[[-> [->| ->]]| ->]]]; auto; discriminate Hne.
  - assert (Hin : forall x, nonempty x = true -> In x (remark_parts raw) ->
                    In x (filter nonempty (remark_parts raw)))
      by (intros x Hx Hi; apply filter_In; auto).
    intros [[-> H]|[[-> H]|[-> [H|H]]]]; (split; [|reflexivity]).
    + exists "email"%string. split; [reflexivity | now apply Hin].
    + exists "viber"%string. split; [reflexivity | now apply Hin].
    + exists "hard copy"%string. split; [reflexivity | now apply Hin].
    + exists "hardcopy"%string. split; [reflexivity | now apply Hin].
Qed.

Lemma unique_tokens_spec (tokens seen : list string) :
  NoDup seen ->
  NoDup (fold_left (fun s t => set_add t s) tokens seen)
  /\ forall x, In x (fold_left (fun s t => set_add t s) tokens seen)
               <-> In x seen \/ In x tokens.
Proof.
  revert seen. induction tokens as [|t tokens IH]; intros seen Hu; cbn [fold_left].
  - split; [exact Hu|]. intros x. cbn. intuition.
  - assert (Hu' : NoDup (set_add t seen)).
    { unfold set_add. destruct (set_has t seen) eqn:E; [exact Hu|].
      apply NoDup_app; [exact Hu | repeat constructor; intros [] |].
      intros x Hin [<-|[]]. apply set_has_spec in Hin. congruence. }
    destruct (IH _ Hu') as [Hn Hm]. split; [exact Hn|].
    intros x. rewrite Hm, set_add_spec. cbn [In]. intuition.
Qed.

Lemma insert_selected (t : string) (e v h : bool) :
  channel_token t ->
  set_has t (selected_channels e v h) = false ->
  insert_token t (selected_channels e v h)
  = selected_channels (e || String.eqb t "email") (v || String.eqb t "viber")
      (h || String.eqb t "hardcopy").
Proof.
  intros [->|[->| ->]]; destruct e, v, h; vm_compute; intros H;
    (discriminate H || reflexivity).
Qed.

Lemma set_has_selected (t : string) (l : list string) :
  channel_token t ->
  set_has t (selected_channels (set_has "email" l) (set_has "viber" l)
               (set_has "hardcopy" l))
  = set_has t l.
Proof.
  intros [->|[->| ->]];
    destruct (set_has "email" l), (set_has "viber" l), (set_has "hardcopy" l);
    reflexivity.
Qed.

Lemma sort_tokens_selected (l : list string) :
  NoDup l -> (forall t, In t l -> channel_token t) ->
  sort_tokens l
  = selected_channels (set_has "email" l) (set_has "viber" l) (set_has "hardcopy" l).
Proof.
  induction 1 as [|t l Hout Hu IH]; intros Hall; [reflexivity|].
  cbn [sort_tokens fold_right]. fold (sort_tokens l).
  rewrite IH by (intros x Hx; apply Hall; now right).
  assert (Ht : channel_token t) by (apply Hall; now left).
  assert (Hno : set_has t l = false).
  { destruct (set_has t l) eqn:E; [|reflexivity].
    apply set_has_spec in E. contradiction. }
  rewrite insert_selected; [|exact Ht | now rewrite set_has_selected].
  unfold set_has. cbn [existsb].
  rewrite !(String.eqb_sym t). f_equal; apply orb_comm.
Qed.

Lemma remark_tokens_channel (raw t : string) :
  In t (remark_tokens raw) -> channel_token t.
Proof.
  intros H. apply remark_tokens_spec in H. unfold channel_token.
  destruct H as [[-> _]|[[-> _]|[-> _]]]; auto.
Qed.

Lemma unique_tokens_flags (raw : string) :
  set_has "email" (unique_tokens (remark_tokens raw)) = names_channel raw "email"
  /\ set_has "viber" (unique_tokens (remark_tokens raw)) = names_channel raw "viber"
  /\ set_has "hardcopy" (unique_tokens (remark_tokens raw))
     = names_channel raw "hard copy" || names_channel raw "hardcopy".
Proof.
  destruct (unique_tokens_spec (remark_tokens raw) [] (NoDup_nil _)) as [_ Hm].
  fold (unique_tokens (remark_tokens raw)) in Hm. unfold names_channel.
  repeat split; apply eq_iff_eq_true;
    rewrite ?orb_true_iff, !set_has_spec, Hm, remark_tokens_spec; cbn [In];
    split; intros H;
    repeat match goal with
           | H : _ \/ _ |- _ => destruct H
           | H : _ /\ _ |- _ => destruct H
           | H : False |- _ => destruct H
           end;
    try discriminate; auto 6.
Qed.

Lemma legacy_tokens_text (raw : string) :
  match remark_tokens raw with
  | [] => EmptyString
  | _ => "sent through "
         ++ join "/ " (sort_tokens (unique_tokens (remark_tokens raw)))
  end
  = normalizeRemarks
      (channels (names_channel raw "email") (names_channel raw "viber")
         (names_channel raw "hard copy" || names_channel raw "hardcopy")).
Proof.
  destruct (unique_tokens_flags raw) as (He & Hv & Hh).
  destruct (unique_tokens_spec (remark_tokens raw) [] (NoDup_nil _)) as [Hu Hm].
  fold (unique_tokens (remark_tokens raw)) in Hu, Hm.
  rewrite <- He, <- Hv, <- Hh.
  destruct (remark_tokens raw) as [|t tokens] eqn:E; [reflexivity|].
  assert (Ht : channel_token t)
    by (apply (remark_tokens_channel raw); rewrite E; now left).
  assert (Hall : forall x, In x (unique_tokens (t :: tokens)) -> channel_token x).
  { intros x Hx. apply Hm in Hx. destruct Hx as [[]|Hx].
    apply (remark_tokens_channel raw). now rewrite E. }
  rewrite (sort_tokens_selected _ Hu Hall).
  assert (Hin : set_has t (unique_tokens (t :: tokens)) = true)
    by (apply set_has_spec, Hm; right; now left).
  rewrite <- (set_has_selected t _ Ht) in Hin.
  change (normalizeRemarks
            (channels (set_has "email" (unique_tokens (t :: tokens)))
               (set_has "viber" (unique_tokens (t :: tokens)))
               (set_has "hardcopy" (unique_tokens (t :: tokens)))))
    with (match selected_channels
                  (set_has "email" (unique_tokens (t :: tokens)))
                  (set_has "viber" (unique_tokens (t :: tokens)))
                  (set_has "hardcopy" (unique_tokens (t :: tokens))) with
          | [] => EmptyString
          | _ => "sent through "
                 ++ join "/ "
                      (selected_channels
                         (set_has "email" (unique_tokens (t :: tokens)))
                         (set_has "viber" (unique_tokens (t :: tokens)))
                         (set_has "hardcopy" (unique_tokens (t :: tokens))))
          end).
  destruct (selected_channels _ _ _); [discriminate Hin | reflexivity].
Qed.

Lemma legacy_conversion (value : option string) :
  JsText.startsWith
    (JsText.toLowerCase (JsText.trim (JsText.text_of value))) "sent through"
  = false ->
  bracketed_remarks (JsText.trim (JsText.text_of value)) = None ->
  coerceRemarksText value
  = normalizeRemarks
      (channels (names_channel (JsText.trim (JsText.text_of value)) "email")
         (names_channel (JsText.trim (JsText.text_of value)) "viber")
         (names_channel (JsText.trim (JsText.text_of value)) "hard copy"
          || names_channel (JsText.trim (JsText.text_of value)) "hardcopy")).
Proof.
  intros Hs Hb. unfold coerceRemarksText.
  rewrite Hs, Hb, <- legacy_tokens_text.
  destruct (JsText.trim (JsText.text_of value)) as [|c r]; [reflexivity|].
  cbn [nonempty negb]. now destruct (remark_tokens (String c r)).
Qed.

(** X18 ([coerceRemarksText], [normalizeRemarks]): a remarks value that is
    not already in the new format, bare or in brackets, is displayed as
    [normalizeRemarks] would write the channels it names: the parts between
    slashes are trimmed and lowered, "email", "viber" and "hard copy" or
    "hardcopy" are recognised, anything else is dropped, repetitions and
    the order of the parts do not matter. *)
Theorem legacy_remarks_are_normalized :
  forall value : option string,
    let raw := JsText.trim (JsText.text_of value) in
    JsText.startsWith (JsText.toLowerCase raw) "sent through" = false ->
    bracketed_remarks raw = None ->
    coerceRemarksText value
    = normalizeRemarks
        (channels (names_channel raw "email") (names_channel raw "viber")
           (names_channel raw "hard copy" || names_channel raw "hardcopy")).
Proof.
  intros value raw Hs Hb. now apply legacy_conversion.
Qed.

Lemma legacy_remarks_are_normalized_witness :
  coerceRemarksText (Some " Hard Copy / Email /fax/email ")
  = "sent through email/ hardcopy"%string.
Proof.
  apply (legacy_remarks_are_normalized (Some " Hard Copy / Email /fax/email "));
    reflexivity.
Defined.

Lemma trimEnd_again (s : string) : JsText.trimEnd (JsText.trimEnd s) = JsText.trimEnd s.
Proof.
  induction s as [|c s IH]; [reflexivity|]. cbn [JsText.trimEnd].
  destruct (JsText.trimEnd s) as [|k kept] eqn:E.
  - destruct (JsText.is_space c) eqn:Hc; [reflexivity|].
    cbn [JsText.trimEnd]. now rewrite Hc.
  - change (JsText.trimEnd (String c (String k kept)))
      with (match JsText.trimEnd (String k kept) with
            | EmptyString =>
                if JsText.is_space c then EmptyString else String c EmptyString
            | String a b => String c (String a b)
            end).
    now rewrite IH.
Qed.

Lemma trimEnd_head (c : ascii) (s : string) :
  JsText.is_space c = false ->
  exists kept, JsText.trimEnd (String c s) = String c kept.
Proof.
  intros Hc. cbn [JsText.trimEnd]. rewrite Hc.
  destruct (JsText.trimEnd s); eexists; reflexivity.
Qed.

Lemma trimStart_head (s : string) :
  JsText.trimStart s = EmptyString
  \/ exists c r, JsText.trimStart s = String c r /\ JsText.is_space c = false.
Proof.
  induction s as [|c s IH]; [now left|]. cbn [JsText.trimStart].
  destruct (JsText.is_space c) eqn:Hc; [exact IH|]. right. now exists c, s.
Qed.

Lemma trim_again (s : string) : JsText.trim (JsText.trim s) = JsText.trim s.
Proof.
  unfold JsText.trim.
  destruct (trimStart_head s) as [->|(c & r & -> & Hc)]; [reflexivity|].
  destruct (trimEnd_head c r Hc) as (kept & E).
  rewrite <- (trimEnd_again (String c r)) at 2. f_equal.
  rewrite E. cbn [JsText.trimStart]. now rewrite Hc.
Qed.

Lemma formatted_nonempty (s : string) :
  JsText.startsWith (JsText.toLowerCase s) "sent through" = true ->
  nonempty s = true.
Proof. destruct s; [discriminate | reflexivity]. Qed.

Lemma coerce_formatted (s : string) :
  JsText.trim s = s ->
  JsText.startsWith (JsText.toLowerCase s) "sent through" = true ->
  coerceRemarksText (Some s) = s.
Proof.
  intros Ht Hs. unfold coerceRemarksText. cbn [JsText.text_of].
  now rewrite Ht, (formatted_nonempty s Hs), Hs.
Qed.

(** X19 ([coerceRemarksText]): the function is idempotent: what it
    returns for any value, absent, legacy, bracketed or already formatted,
    it returns again when applied to its own result. *)
Theorem coerceRemarksText_idempotent :
  forall value : option string,
    coerceRemarksText (Some (coerceRemarksText value)) = coerceRemarksText value.
Proof.
  intros value.
  destruct (JsText.startsWith
              (JsText.toLowerCase (JsText.trim (JsText.text_of value)))
              "sent through") eqn:Hs.
  - unfold coerceRemarksText at 2 3.
    rewrite (formatted_nonempty _ Hs), Hs. cbn [negb].
    apply coerce_formatted; [apply trim_again | exact Hs].
  - destruct (bracketed_remarks (JsText.trim (JsText.text_of value)))
      as [inner|] eqn:Hb.
    + unfold coerceRemarksText at 2 3. rewrite Hs, Hb.
      destruct (nonempty (JsText.trim (JsText.text_of value))); [|reflexivity].
      cbn [negb]. unfold bracketed_remarks in Hb.
      destruct (JsText.startsWith _ "[" && JsText.endsWith _ "]");
        [|discriminate Hb].
      destruct (JsText.startsWith
                  (JsText.toLowerCase
                     (JsText.trim
                        (JsText.slice_inner (JsText.trim (JsText.text_of value)))))
                  "sent through") eqn:Hi; [|discriminate Hb].
      injection Hb as <-.
      apply coerce_formatted; [apply trim_again | exact Hi].
    + rewrite (legacy_conversion value Hs Hb). apply coerce_of_normalized.
Qed.

(* ------------------------------------------------------------------ *)
(** ** Keys of the tables *)
(* ------------------------------------------------------------------ *)

Section Keeping.

Variable P : database -> Prop.

Lemma keeps_ret {A : Type} (a : A) : keeps P (ret a).
Proof. intros w Hw. exact Hw. Qed.

Lemma keeps_bind {A B : Type} (m : io A) (k : A -> io B) :
  keeps P m -> (forall a, keeps P (k a)) -> keeps P (bind m k).
Proof.
  intros Hm Hk w Hw. unfold bind. specialize (Hm w Hw).
  destruct (m w) as [[a|e] w1]; cbn [snd] in *; [now apply Hk | exact Hm].
Qed.

Lemma keeps_query {A : Type} (stmt : database -> A * database) :
  (forall d, P d -> P (snd (stmt d))) -> keeps P (query stmt).
Proof.
  intros Hs w Hw.
  destruct (query_cases stmt w) as [[fs E]|[fs E]]; rewrite E; cbn [snd db]; auto.
Qed.

Lemma keeps_refused {A : Type} : keeps P (@refused A).
Proof.
  intros w Hw. unfold refused. now destruct (faults w) as [|[|] fs].
Qed.

Lemma keeps_try_catch {A : Type} (m : io A) (h : string -> io A) :
  keeps P m -> (forall e, keeps P (h e)) -> keeps P (try_catch m h).
Proof.
  intros Hm Hh w Hw. unfold try_catch. specialize (Hm w Hw).
  destruct (m w) as [[a|e] w1]; cbn [snd] in *; [exact Hm | now apply Hh].
Qed.

End Keeping.

Lemma keyed_retouch (d : database) (p : counter -> bool) (g : counter -> counter) :
  (forall c, c_id (g c) = c_id c) ->
  (forall c, key_of (g c) = key_of c) ->
  tables_keyed d -> tables_keyed (snd (Sql.update_counters p g d)).
Proof.
  intros Gid Gkey (Hri & Hrb & Hci & Hcb & Hck).
  assert (Eid : map c_id (map (fun c => if p c then g c else c) (counters d))
                = map c_id (counters d)).
  { rewrite map_map. apply map_ext. intros c. now destruct (p c). }
  assert (Ekey : map key_of (map (fun c => if p c then g c else c) (counters d))
                 = map key_of (counters d)).
  { rewrite map_map. apply map_ext. intros c. now destruct (p c). }
  unfold tables_keyed.
  cbn [Sql.update_counters snd records records_seq counters counters_seq].
  rewrite Eid, Ekey. repeat (split; [assumption|]).
  split; [|assumption].
  rewrite Forall_forall in *. intros c' Hin. apply in_map_iff in Hin.
  destruct Hin as (c & <- & Hin). specialize (Hcb c Hin).
  destruct (p c); [rewrite Gid|]; exact Hcb.
Qed.

Lemma keyed_rewrite_records (d : database) (g : record -> record) :
  (forall r, id (g r) = id r) ->
  tables_keyed d ->
  tables_keyed (mkDatabase (map g (records d)) (records_seq d) (counters d)
                  (counters_seq d)).
Proof.
  intros Gid (Hri & Hrb & Hc). unfold tables_keyed.
  cbn [records records_seq counters counters_seq].
  rewrite map_map, (map_ext _ id Gid). split; [exact Hri|]. split; [|exact Hc].
  rewrite Forall_forall in *. intros r' Hin. apply in_map_iff in Hin.
  destruct Hin as (r & <- & Hin). rewrite Gid. now apply Hrb.
Qed.

Lemma keyed_insert_record (row : record) (d : database) :
  tables_keyed d -> tables_keyed (snd (Sql.insert_record row d)).
Proof.
  intros (Hri & Hrb & Hc). unfold tables_keyed.
  cbn [Sql.insert_record snd records records_seq counters counters_seq].
  rewrite Forall_forall in Hrb.
  split; [|split; [|exact Hc]].
  - rewrite map_app. cbn [map Sql.set_id id].
    apply NoDup_app; [exact Hri | repeat constructor; intros [] |].
    intros x Hx [<-|[]]. apply in_map_iff in Hx.
    destruct Hx as (r & E & Hin). specialize (Hrb r Hin). lia.
  - apply Forall_forall. intros r Hin. apply in_app_iff in Hin.
    destruct Hin as [Hin|[<-|[]]]; [specialize (Hrb r Hin)|cbn [Sql.set_id id]]; lia.
Qed.

Lemma keyed_delete_record (i : N) (d : database) :
  tables_keyed d -> tables_keyed (snd (Sql.delete_record i d)).
Proof.
  intros (Hri & Hrb & Hc). unfold tables_keyed.
  cbn [Sql.delete_record snd records records_seq counters counters_seq].
  split; [now apply unique_keys_filter|]. split; [now apply Forall_filter | exact Hc].
Qed.

Lemma keyed_insert_counter (sc : scope) (sec date : option string) (d : database) :
  counter_of sc sec d = None ->
  tables_keyed d -> tables_keyed (snd (Sql.insert_counter sc sec date d)).
Proof.
  intros Habs (Hri & Hrb & Hci & Hcb & Hck). rewrite counter_of_absent in Habs.
  unfold tables_keyed.
  cbn [Sql.insert_counter snd records records_seq counters counters_seq].
  rewrite Forall_forall in Hcb.
  split; [exact Hri|]. split; [exact Hrb|]. split; [|split].
  - rewrite map_app. cbn [map c_id].
    apply NoDup_app; [exact Hci | repeat constructor; intros [] |].
    intros x Hx [<-|[]]. apply in_map_iff in Hx.
    destruct Hx as (c & E & Hc). specialize (Hcb c Hc). lia.
  - apply Forall_forall. intros c Hin. apply in_app_iff in Hin.
    destruct Hin as [Hin|[<-|[]]]; [specialize (Hcb c Hin)|cbn [c_id]]; lia.
  - rewrite map_app. cbn [map key_of c_scope c_section].
    apply NoDup_app; [exact Hck | repeat constructor; intros [] |].
    intros x Hx [<-|[]]. apply in_map_iff in Hx.
    destruct Hx as (c & E & Hc). now apply (Habs c Hc).
Qed.

Ltac keyed_statement :=
  first
    [ assumption
    | apply keyed_insert_record; assumption
    | apply keyed_delete_record; assumption
    | apply keyed_retouch; [intros; reflexivity | intros; reflexivity | assumption]
    | cbn [snd Sql.update_record SqlFile.update_file SqlFile.update_file_returning];
      apply keyed_rewrite_records;
      [let x := fresh "x" in intros x; destruct (id x =? _); reflexivity
      | assumption] ].

Ltac keeps_step :=
  match goal with
  | |- keeps _ (bind _ _) => apply keeps_bind; [|intros ?]
  | |- keeps _ (ret _) => apply keeps_ret
  | |- keeps _ (try_catch _ _) => apply keeps_try_catch; [|intros ?]
  | |- keeps _ (query _) =>
      apply keeps_query; intros ? ?; keyed_statement
  | |- keeps _ refused => apply keeps_refused
  | |- keeps _ (if ?c then _ else _) => destruct c
  | |- keeps _ (match ?x with _ => _ end) => destruct x
  end.

Lemma keeps_createRecord (now : string) (p : payload) :
  keeps tables_keyed (createRecord now p).
Proof. unfold createRecord. repeat keeps_step. Qed.

Lemma keeps_getRecord (i : N) : keeps tables_keyed (getRecord i).
Proof. unfold getRecord. repeat keeps_step. Qed.

Lemma keeps_updateRecord (isSqlite : bool) (now : string) (i : N) (p : payload) :
  keeps tables_keyed (updateRecord isSqlite now i p).
Proof. unfold updateRecord, getRecord. repeat keeps_step. Qed.

Lemma keeps_updateRecordFile (isSqlite : bool) (now : string) (i : N)
    (url by_user : option string) :
  keeps tables_keyed (updateRecordFile isSqlite now i url by_user).
Proof. unfold updateRecordFile, getRecord. repeat keeps_step. Qed.

Lemma keeps_deleteRecord (i : N) : keeps tables_keyed (deleteRecord i).
Proof. unfold deleteRecord. repeat keeps_step. Qed.

Lemma keeps_reset (sec date : option string) :
  keeps tables_keyed (resetCountersForSection sec date).
Proof. unfold resetCountersForSection. repeat keeps_step. Qed.

Lemma keeps_validate (sec date : option string) :
  keeps tables_keyed (validateControlNumbers sec date).
Proof. unfold validateControlNumbers. repeat keeps_step. Qed.

Lemma keeps_preview (sc : scope) (sec date : option string) :
  keeps tables_keyed (getNextCounterPreview sc sec date).
Proof. unfold getNextCounterPreview. repeat keeps_step. Qed.

Lemma keeps_verify (isSqlite : bool) (sc : scope) (sec date : option string)
    (e : counter) :
  keeps tables_keyed (verify_counter isSqlite sc sec date e).
Proof. unfold verify_counter. repeat keeps_step. Qed.

(** The allocator inserts a row only when the lookup found none, so the
    keys stay distinct. *)
Lemma keeps_getNextCounter (isSqlite : bool) (sc : scope) (sec date : option string) :
  keeps tables_keyed (getNextCounter isSqlite sc sec date).
Proof.
  intros w Hw. unfold getNextCounter. io_case; [|exact Hw].
  cbn [Sql.select_counter snd].
  destruct (fst (Sql.select_counter sc sec (db w))) as [e|] eqn:E.
  - match goal with
    | |- tables_keyed (db (snd (?m ?w1))) =>
        assert (Hk : keeps tables_keyed m); [|exact (Hk w1 Hw)]
    end.
    repeat keeps_step. apply keeps_verify.
  - rewrite bind_ret. io_case; [|exact Hw].
    rewrite run_ret. cbn [snd db]. now apply keyed_insert_counter.
Qed.

Lemma keeps_getNextControlNumbers (isSqlite : bool) (sec date : string)
    (preview : bool) :
  keeps tables_keyed (getNextControlNumbers isSqlite sec date preview).
Proof.
  unfold getNextControlNumbers.
  destruct preview; repeat keeps_step;
    apply keeps_preview || apply keeps_getNextCounter.
Qed.

Lemma keeps_post_records (isSqlite : bool) (date_before : string -> string -> bool)
    (now : string) (u : user) (p : payload) :
  keeps tables_keyed (post_records isSqlite date_before now u p).
Proof.
  unfold post_records.
  repeat (keeps_step || apply keeps_getNextControlNumbers
          || apply keeps_createRecord).
Qed.

Lemma keeps_put_record (isSqlite : bool) (date_before : string -> string -> bool)
    (now : string) (u : user) (i : N) (p : payload) :
  keeps tables_keyed (put_record isSqlite date_before now u i p).
Proof.
  unfold put_record.
  repeat (apply keeps_getRecord || apply keeps_updateRecord || keeps_step).
Qed.

Lemma keeps_delete_handler (u : user) (i : N) :
  keeps tables_keyed (delete_record_handler u i).
Proof.
  unfold delete_record_handler.
  repeat (apply keeps_getRecord || apply keeps_deleteRecord || apply keeps_reset
          || apply keeps_validate || keeps_step).
Qed.

Lemma keeps_next_handler (isSqlite : bool) (u : user) (sec date : option string) :
  keeps tables_keyed (post_control_numbers_next isSqlite u sec date).
Proof.
  unfold post_control_numbers_next, requireRole.
  repeat (apply keeps_getNextControlNumbers || keeps_step).
Qed.

Lemma keeps_reset_handler (u : user) (sec date : option string) :
  keeps tables_keyed (post_reset_counters u sec date).
Proof.
  unfold post_reset_counters, requireRole.
  repeat (apply keeps_reset || apply keeps_validate || keeps_step).
Qed.

(** X20 ([createRecord], [updateRecord], [updateRecordFile],
    [deleteRecord], [getNextCounter], [resetCountersForSection] and the
    handlers that write): every writing operation, whatever storage calls
    fail and however it settles, keeps the keys of the two tables: record
    ids and counter ids stay pairwise distinct and within the ids issued,
    and no second counter row appears for a scope and section. *)
Theorem writes_keep_the_keys :
  forall (isSqlite : bool) (date_before : string -> string -> bool)
         (now : string) (u : user) (i : N) (p : payload) (sc : scope)
         (sec date url by_user : option string),
    (keeps tables_keyed (createRecord now p)
     /\ keeps tables_keyed (updateRecord isSqlite now i p)
     /\ keeps tables_keyed (updateRecordFile isSqlite now i url by_user)
     /\ keeps tables_keyed (deleteRecord i)
     /\ keeps tables_keyed (getNextCounter isSqlite sc sec date)
     /\ keeps tables_keyed (resetCountersForSection sec date))
    /\ (keeps tables_keyed (post_records isSqlite date_before now u p)
        /\ keeps tables_keyed (put_record isSqlite date_before now u i p)
        /\ keeps tables_keyed (delete_record_handler u i)
        /\ keeps tables_keyed (post_control_numbers_next isSqlite u sec date)
        /\ keeps tables_keyed (post_reset_counters u sec date)).
Proof.
  intros. repeat apply conj.
  - apply keeps_createRecord.
  - apply keeps_updateRecord.
  - apply keeps_updateRecordFile.
  - apply keeps_deleteRecord.
  - apply keeps_getNextCounter.
  - apply keeps_reset.
  - apply keeps_post_records.
  - apply keeps_put_record.
  - apply keeps_delete_handler.
  - apply keeps_next_handler.
  - apply keeps_reset_handler.
Qed.

(* ------------------------------------------------------------------ *)
(** ** Error replies *)
(* ------------------------------------------------------------------ *)

Lemma answers_sent_ret {A : Type} (body : A) : answers_sent (ret (Sent body)).
Proof. intros w status error. cbn. discriminate. Qed.

Lemma answers_sent_bind {A B : Type} (m : io A) (k : A -> io (reply B)) :
  (forall a, answers_sent (k a)) -> answers_sent (bind m k).
Proof.
  intros Hk w status error. unfold bind.
  destruct (m w) as [[a|e] w1]; [apply Hk | cbn; discriminate].
Qed.

Lemma answers_sent_try_catch {A : Type} (m : io (reply A))
    (h : string -> io (reply A)) :
  answers_sent m -> (forall e, answers_sent (h e)) -> answers_sent (try_catch m h).
Proof.
  intros Hm Hh w status error. unfold try_catch. specialize (Hm w status error).
  destruct (m w) as [[a|e] w1]; [exact Hm | apply Hh].
Qed.

Lemma clean_failed {A : Type} (status : N) (error : string) (w : world) :
  failure_is_clean (ret (@Failed A status error)) w.
Proof. intros s e _. reflexivity. Qed.

Lemma clean_sent {A : Type} (m : io (reply A)) (w : world) :
  answers_sent m -> failure_is_clean m w.
Proof. intros Hm status error E. now contradiction (Hm w status error). Qed.

Lemma clean_by_id {A : Type} (u : user) (i : N) (w : world)
    (k : record -> io (reply A)) :
  (forall rec w', failure_is_clean (k rec) w') ->
  failure_is_clean
    (r <- getRecord i ;;
     match r with
     | None => ret (Failed 404 "Not found")
     | Some rec =>
         if forbidden u (section rec) then ret (Failed 403 "Forbidden") else k rec
     end) w.
Proof.
  intros Hk status error. unfold getRecord. io_case; [|discriminate].
  cbn [Sql.select_record snd].
  destruct (fst (Sql.select_record i (db w))) as [rec|]; [|reflexivity].
  destruct (forbidden u (section rec)); [reflexivity|].
  intros E. now rewrite (Hk rec _ status error E).
Qed.

(** X21 (POST /records, PUT /records/:id, DELETE /records/:id,
    POST /control-numbers/next, POST /records/reset-counters): a request
    that is answered with an error status (400, 403 or 404) has changed
    nothing in the database, whatever storage calls fail; in particular a
    creation refused for its section or its dates has not used up a
    control number. *)
Theorem error_replies_change_nothing :
  forall (isSqlite : bool) (date_before : string -> string -> bool)
         (now : string) (u : user) (i : N) (p : payload)
         (sec date : option string) (w : world),
    failure_is_clean (post_records isSqlite date_before now u p) w
    /\ failure_is_clean (put_record isSqlite date_before now u i p) w
    /\ failure_is_clean (delete_record_handler u i) w
    /\ failure_is_clean (post_control_numbers_next isSqlite u sec date) w
    /\ failure_is_clean (post_reset_counters u sec date) w.
Proof.
  intros isSqlite date_before now u i p sec date w. repeat apply conj.
  - unfold post_records.
    destruct (forbidden u (p_section p)); [apply clean_failed|].
    destruct (p_section p) as [[|c1 s1]|]; try apply clean_failed.
    destruct (p_dateReceived p) as [[|c2 s2]|]; try apply clean_failed.
    destruct (validateDates date_before p); [|apply clean_failed].
    apply clean_sent. apply answers_sent_bind. intros cn.
    apply answers_sent_bind. intros r. apply answers_sent_ret.
  - unfold put_record. apply clean_by_id. intros rec w'.
    destruct (validateDates date_before p); [|apply clean_failed].
    apply clean_sent. apply answers_sent_bind. intros r. apply answers_sent_ret.
  - unfold delete_record_handler. apply clean_by_id. intros rec w'.
    apply clean_sent. apply answers_sent_bind. intros _.
    apply answers_sent_try_catch.
    + apply answers_sent_bind. intros r. apply answers_sent_bind. intros v.
      apply answers_sent_ret.
    + intros e. apply answers_sent_ret.
  - unfold post_control_numbers_next, requireRole.
    destruct (negb _); [apply clean_failed|].
    destruct sec as [[|c1 s1]|]; try apply clean_failed.
    destruct date as [[|c2 s2]|]; try apply clean_failed.
    apply clean_sent. apply answers_sent_bind. intros r. apply answers_sent_ret.
  - unfold post_reset_counters, requireRole.
    destruct (negb _); [apply clean_failed|].
    destruct sec as [[|c1 s1]|]; try apply clean_failed.
    destruct date as [[|c2 s2]|]; try apply clean_failed.
    apply clean_sent. apply answers_sent_bind. intros r.
    apply answers_sent_bind. intros v. apply answers_sent_ret.
Qed.

(* ------------------------------------------------------------------ *)
(** ** Updates *)
(* ------------------------------------------------------------------ *)

(** X22 (PUT /records/:id, [updateRecord], [normalizeRemarks]): an
    accepted update answers with the stored row; its remarks are always
    the text [normalizeRemarks] builds from the three channel flags,
    whatever remarks the body or the old row carried, its id, creator and
    creation time are those of the old row, and its [updatedAt] is the time
    of the call. *)
Theorem put_rewrites_remarks :
  forall (isSqlite : bool) (date_before : string -> string -> bool)
         (now : string) (u : user)
         (i : N) (p : payload) (d : database) (cur : record),
    fst (Sql.select_record i d) = Some cur ->
    forbidden u (section cur) = false ->
    validateDates date_before p = [] ->
    exists rec,
      result_of (put_record isSqlite date_before now u i p) d
      = Resolved (Sent (Some rec, normalizeRemarks p))
      /\ fst (Sql.select_record i (database_after (put_record isSqlite date_before now u i p) d))
         = Some rec
      /\ remarks rec = Some (normalizeRemarks p)
      /\ id rec = id cur
      /\ createdBy rec = createdBy cur
      /\ createdAt rec = createdAt cur
      /\ updatedAt rec = Some now.
Proof.
  intros isSqlite date_before now u i p d cur Hcur Hf Hv.
  set (fields := update_fields isSqlite now
                   (with_remarks p (Some (normalizeRemarks p))) cur).
  assert (R : put_record isSqlite date_before now u i p (healthy d)
              = (Resolved (Sent (Some (Sql.overwrite fields cur), normalizeRemarks p)),
                 healthy (snd (Sql.update_record fields i d)))).
  { unfold put_record, updateRecord, getRecord.
    io_healthy. rewrite Hcur, Hf, Hv. io_healthy.
    change (snd (Sql.select_record i d)) with d.
    rewrite Hcur. subst fields. destruct isSqlite.
    - io_healthy. rewrite run_ret.
      cbn [Sql.select_record Sql.update_record fst snd records] in *.
      now rewrite (find_update_record _ i (records d) cur Hcur).
    - io_healthy. rewrite run_ret.
      cbn [Sql.select_record Sql.update_record_returning Sql.update_record
           fst snd records] in *.
      now rewrite Hcur. }
  unfold result_of, database_after. rewrite R. cbn [fst snd db healthy].
  exists (Sql.overwrite fields cur). split; [reflexivity|]. split.
  - cbn [Sql.select_record Sql.update_record fst snd records] in *.
    apply (find_update_record fields i (records d) cur Hcur).
  - repeat split; reflexivity.
Qed.

Lemma put_rewrites_remarks_witness :
  exists rec,
    result_of
      (put_record true Scenario.date_before "t" Scenario.office_user 1
         (channels true false true)) Scenario.stale
    = Resolved (Sent (Some rec, normalizeRemarks (channels true false true)))
    /\ fst (Sql.select_record 1
              (database_after
                 (put_record true Scenario.date_before "t" Scenario.office_user 1
                    (channels true false true)) Scenario.stale))
       = Some rec
    /\ remarks rec = Some (normalizeRemarks (channels true false true))
    /\ id rec = id (Scenario.row 1 "RFU4A-MC-260218-01" "RFU4A-INVES-260218-01")
    /\ createdBy rec
       = createdBy (Scenario.row 1 "RFU4A-MC-260218-01" "RFU4A-INVES-260218-01")
    /\ createdAt rec
       = createdAt (Scenario.row 1 "RFU4A-MC-260218-01" "RFU4A-INVES-260218-01")
    /\ updatedAt rec = Some "t"%string.
Proof.
  apply (put_rewrites_remarks true Scenario.date_before "t" Scenario.office_user 1
           (channels true false true) Scenario.stale
           (Scenario.row 1 "RFU4A-MC-260218-01" "RFU4A-INVES-260218-01"));
    reflexivity.
Defined.

(* ------------------------------------------------------------------ *)
(** ** User accounts *)
(* ------------------------------------------------------------------ *)

Section KeepingAccounts.

Import Accounts.

Variable P : table -> Prop.

Lemma keeps_table_ret {A : Type} (a : A) : keeps_table P (Accounts.ret a).
Proof. intros s Hs. exact Hs. Qed.

Lemma keeps_table_bind {A B : Type} (m : op A) (k : A -> op B) :
  keeps_table P m -> (forall a, keeps_table P (k a)) ->
  keeps_table P (Accounts.bind m k).
Proof.
  intros Hm Hk s Hs. unfold Accounts.bind. specialize (Hm s Hs).
  destruct (m s) as [[x|e] s1]; cbn [snd] in *; [now apply Hk | exact Hm].
Qed.

Lemma keeps_table_try_catch {A : Type} (m : op A) (h : string -> op A) :
  keeps_table P m -> (forall e, keeps_table P (h e)) ->
  keeps_table P (Accounts.try_catch m h).
Proof.
  intros Hm Hh s Hs. unfold Accounts.try_catch. specialize (Hm s Hs).
  destruct (m s) as [[x|e] s1]; cbn [snd] in *; [exact Hm | now apply Hh].
Qed.

Lemma keeps_table_call {A : Type} (stmt : table -> outcome A * table) :
  (forall t, P t -> P (snd (stmt t))) -> keeps_table P (call stmt).
Proof.
  intros Hstmt [t fs] Ht. unfold call. cbn [script tbl] in *.
  destruct fs as [|[] fs]; [| exact Ht |];
    specialize (Hstmt t Ht); destruct (stmt t) as [r t']; exact Hstmt.
Qed.

End KeepingAccounts.

Lemma keyed_insert_user (isSqlite : bool) (username password role : string)
    (section : option string) (now : string) (t : Accounts.table) :
  accounts_keyed t ->
  accounts_keyed
    (snd (Accounts.insert_user isSqlite username password role section now t)).
Proof.
  intros (Hn & Hi & Hb). unfold Accounts.insert_user.
  rewrite Forall_forall in Hb.
  destruct (existsb _ (Accounts.rows t)) eqn:E; cbn [snd].
  - destruct isSqlite; [now repeat split; auto; apply Forall_forall|].
    unfold accounts_keyed. cbn [Accounts.rows Accounts.rows_seq].
    split; [exact Hn|]. split; [exact Hi|].
    apply Forall_forall. intros a Ha. specialize (Hb a Ha). lia.
  - unfold accounts_keyed. cbn [Accounts.rows Accounts.rows_seq].
    rewrite !map_app. cbn [map Accounts.a_username Accounts.a_id].
    split; [|split].
    + apply NoDup_app; [exact Hn | repeat constructor; intros [] |].
      intros x Hx [<-|[]]. apply in_map_iff in Hx. destruct Hx as (a & Ea & Ha).
      assert (Hex : existsb (fun a => String.eqb (Accounts.a_username a) username)
                      (Accounts.rows t) = true).
      { apply existsb_exists. exists a. split; [exact Ha|].
        rewrite Ea. apply String.eqb_refl. }
      congruence.
    + apply NoDup_app; [exact Hi | repeat constructor; intros [] |].
      intros x Hx [<-|[]]. apply in_map_iff in Hx. destruct Hx as (a & Ea & Ha).
      specialize (Hb a Ha). lia.
    + apply Forall_forall. intros a Ha. apply in_app_iff in Ha.
      destruct Ha as [Ha|[<-|[]]]; [specialize (Hb a Ha)|cbn [Accounts.a_id]]; lia.
Qed.

Lemma set_fields_keys (password role section : Accounts.field string)
    (isActive : Accounts.field bool) (now : string) (a b : Accounts.account) :
  Accounts.set_fields password role section isActive now a = Some b ->
  Accounts.a_id b = Accounts.a_id a
  /\ Accounts.a_username b = Accounts.a_username a
  /\ Accounts.a_createdAt b = Accounts.a_createdAt a.
Proof.
  unfold Accounts.set_fields.
  destruct password as [[p|]|]; destruct role as [[r|]|];
    intros [= <-]; repeat split; reflexivity.
Qed.

Lemma keyed_update_user (i : N) (password role section : Accounts.field string)
    (isActive : Accounts.field bool) (now : string) (t : Accounts.table) :
  accounts_keyed t ->
  accounts_keyed
    (snd (Accounts.update_user i password role section isActive now t)).
Proof.
  intros (Hn & Hi & Hb). unfold Accounts.update_user.
  destruct (find _ (Accounts.rows t)) as [cur|]; [|now repeat split].
  destruct (Accounts.set_fields password role section isActive now cur) as [new|];
    [|now repeat split].
  cbn [snd]. unfold accounts_keyed. cbn [Accounts.rows Accounts.rows_seq].
  set (touched := fun a : Accounts.account => _).
  assert (Hk : forall a, Accounts.a_id (touched a) = Accounts.a_id a
                         /\ Accounts.a_username (touched a) = Accounts.a_username a).
  { intros a. unfold touched. destruct (Accounts.a_id a =? i); [|now split].
    destruct (Accounts.set_fields password role section isActive now a) as [b|] eqn:E;
      [|now split].
    now destruct (set_fields_keys _ _ _ _ _ _ _ E) as (? & ? & _). }
  rewrite !map_map.
  rewrite (map_ext (fun a => Accounts.a_username (touched a)) Accounts.a_username)
    by (intros a; apply Hk).
  rewrite (map_ext (fun a => Accounts.a_id (touched a)) Accounts.a_id)
    by (intros a; apply Hk).
  split; [exact Hn|]. split; [exact Hi|].
  rewrite Forall_forall in *. intros b Hin. apply in_map_iff in Hin.
  destruct Hin as (a & <- & Ha). destruct (Hk a) as [-> _]. now apply Hb.
Qed.

Ltac keeps_table_step :=
  match goal with
  | |- keeps_table _ (Accounts.bind _ _) => apply keeps_table_bind; [|intros ?]
  | |- keeps_table _ (Accounts.ret _) => apply keeps_table_ret
  | |- keeps_table _ (Accounts.try_catch _ _) =>
      apply keeps_table_try_catch; [|intros ?]
  | |- keeps_table _ (Accounts.call _) =>
      apply keeps_table_call; intros ? ?;
      first [ assumption
            | apply keyed_insert_user; assumption
            | apply keyed_update_user; assumption ]
  | |- keeps_table _ (if ?c then _ else _) => destruct c
  | |- keeps_table _ (match ?x with _ => _ end) => destruct x
  end.

Lemma keeps_createUser (isSqlite : bool) (now username password role : string)
    (section : option string) :
  keeps_table accounts_keyed (createUser isSqlite now username password role section).
Proof. unfold createUser. repeat keeps_table_step. Qed.

Lemma keeps_lookup (username : string) :
  keeps_table accounts_keyed (getUserByUsername username).
Proof. unfold getUserByUsername. repeat keeps_table_step. Qed.

Lemma keeps_updateUser (isSqlite : bool) (now : string) (i : N)
    (password role section : Accounts.field string) (isActive : Accounts.field bool) :
  keeps_table accounts_keyed
    (updateUser isSqlite now i password role section isActive).
Proof. unfold updateUser, getUserById. repeat keeps_table_step. Qed.

Lemma keeps_seed_from (isSqlite : bool) (hash : nat -> string -> string)
    (clock : nat -> string) (users : list default_user) :
  forall k, keeps_table accounts_keyed (seed_from isSqlite hash clock k users).
Proof.
  induction users as [|u users IH]; intros k; cbn [seed_from].
  - apply keeps_table_ret.
  - apply keeps_table_bind; [|intros _; apply IH].
    unfold seed_one.
    repeat (apply keeps_lookup || apply keeps_createUser || keeps_table_step).
Qed.

(** X23 ([createUser], [updateUser], [seedUsers]): whatever the
    arguments, whatever storage calls fail and however the call settles,
    the user names of table [users] stay pairwise distinct, and so do the
    ids, which stay within those issued: no second account appears under
    a name in use. *)
Theorem accounts_keep_their_names :
  forall (isSqlite : bool) (hash : nat -> string -> string)
         (clock : nat -> string) (now username password role : string)
         (section : option string) (i : N)
         (new_password new_role new_section : Accounts.field string)
         (new_isActive : Accounts.field bool),
    keeps_table accounts_keyed
      (createUser isSqlite now username password role section)
    /\ keeps_table accounts_keyed
         (updateUser isSqlite now i new_password new_role new_section new_isActive)
    /\ keeps_table accounts_keyed (seedUsers isSqlite hash clock).
Proof.
  intros. repeat apply conj.
  - apply keeps_createUser.
  - apply keeps_updateUser.
  - apply keeps_seed_from.
Qed.

Lemma call_sound {A : Type} (stmt : Accounts.table -> outcome A * Accounts.table)
    (t : Accounts.table) :
  Accounts.call stmt (Accounts.sound t)
  = (fst (stmt t), Accounts.sound (snd (stmt t))).
Proof. unfold Accounts.call, Accounts.sound. cbn. now destruct (stmt t). Qed.

Lemma call_cases {A : Type} (stmt : Accounts.table -> outcome A * Accounts.table)
    (s : Accounts.store) :
  (exists fs, Accounts.call stmt s
              = (fst (stmt (Accounts.tbl s)),
                 Accounts.mkStore (snd (stmt (Accounts.tbl s))) fs))
  \/ (exists fs, Accounts.call stmt s
                 = (Rejected "storage failure", Accounts.mkStore (Accounts.tbl s) fs)).
Proof.
  unfold Accounts.call. destruct s as [t [|[] fs]]; cbn [Accounts.script Accounts.tbl];
    try (right; eexists; reflexivity);
    left; destruct (stmt t); eexists; reflexivity.
Qed.

(** X24 ([getUserByUsername]): whatever the table and the faults, an
    account answered by the lookup is a row of the table with the name
    asked for and [isActive] set; an account that is switched off or whose
    flag is null is never answered, so it cannot sign in. *)
Theorem lookup_answers_active_accounts_only :
  forall (username : string) (s : Accounts.store) (a : Accounts.account),
    fst (getUserByUsername username s) = Resolved (Some a) ->
    In a (Accounts.rows (Accounts.tbl s))
    /\ Accounts.a_username a = username
    /\ Accounts.a_isActive a = Some true.
Proof.
  intros username s a. unfold getUserByUsername.
  destruct (call_cases (Accounts.select_active username) s) as [[fs E]|[fs E]];
    rewrite E; cbn [fst Accounts.select_active]; [|discriminate].
  intros [= H]. apply find_some in H. destruct H as [Hin Hp].
  apply andb_true_iff in Hp. destruct Hp as [Hn Ha].
  apply String.eqb_eq in Hn.
  split; [exact Hin|]. split; [exact Hn|].
  now destruct (Accounts.a_isActive a) as [[]|].
Qed.

Lemma lookup_answers_active_accounts_only_witness :
  In (Accounts.mkAccount 1 "admin" "h" "MC" None (Some true) None None)
    [Accounts.mkAccount 1 "admin" "h" "MC" None (Some true) None None]
  /\ "admin"%string = "admin"%string
  /\ Some true = Some true.
Proof.
  apply (lookup_answers_active_accounts_only "admin"
           (Accounts.sound
              (Accounts.mkTable
                 [Accounts.mkAccount 1 "admin" "h" "MC" None (Some true) None None]
                 1))
           (Accounts.mkAccount 1 "admin" "h" "MC" None (Some true) None None)).
  reflexivity.
Defined.

Lemma find_absent {Row : Type} (test : Row -> bool) (rows : list Row) :
  (forall row, In row rows -> test row = false) -> find test rows = None.
Proof.
  induction rows as [|x rows IH]; [reflexivity|]. intros H. cbn [find].
  rewrite (H x (or_introl eq_refl)). apply IH. intros row Hin. apply H. now right.
Qed.

Lemma find_by_id_touched (i : N) (g : Accounts.account -> Accounts.account)
    (l : list Accounts.account) :
  (forall a, Accounts.a_id (g a) = Accounts.a_id a) ->
  find (fun a => Accounts.a_id a =? i) (map g l)
  = option_map g (find (fun a => Accounts.a_id a =? i) l).
Proof.
  intros Hg. induction l as [|a l IH]; [reflexivity|]. cbn [map find].
  rewrite Hg. destruct (Accounts.a_id a =? i); [reflexivity | exact IH].
Qed.

(** What a deactivation leaves: the table with [isActive] and [updatedAt]
    of the row [i] rewritten. *)
Lemma deactivate_run (isSqlite : bool) (now : string) (i : N)
    (t : Accounts.table) (cur : Accounts.account) :
  find (fun a => Accounts.a_id a =? i) (Accounts.rows t) = Some cur ->
  exists g,
    (forall a, g a = if Accounts.a_id a =? i
                     then Accounts.mkAccount (Accounts.a_id a) (Accounts.a_username a)
                            (Accounts.a_password a) (Accounts.a_role a)
                            (Accounts.a_section a) (Some false)
                            (Accounts.a_createdAt a) (Some now)
                     else a)
    /\ updateUser isSqlite now i None None None (Some (Some false)) (Accounts.sound t)
       = (Resolved (Some (g cur)),
          Accounts.sound (Accounts.mkTable (map g (Accounts.rows t))
                            (Accounts.rows_seq t))).
Proof.
  intros Hcur. eexists. split; [intros a; reflexivity|].
  unfold updateUser, getUserById. cbn [Accounts.given orb negb].
  destruct isSqlite.
  - unfold Accounts.bind. rewrite call_sound.
    unfold Accounts.update_user. rewrite Hcur.
    cbn [Accounts.set_fields fst snd]. rewrite call_sound.
    cbn [Accounts.select_by_id fst snd Accounts.rows].
    rewrite find_by_id_touched, Hcur; [reflexivity|].
    intros a. now destruct (Accounts.a_id a =? i).
  - rewrite call_sound. unfold Accounts.update_user. rewrite Hcur.
    cbn [Accounts.set_fields fst snd]. reflexivity.
Qed.

(** X25 ([updateUser], [getUserByUsername], [getUserById]): once an
    account of a table with distinct names and ids has been switched off
    with [updateUser(id, { isActive: false })], the lookup by its user name
    answers nothing in either storage branch, while the lookup by id still
    answers the row, now inactive and under the same name. *)
Theorem deactivated_account_is_not_found :
  forall (isSqlite : bool) (now : string) (i : N) (t : Accounts.table)
         (cur : Accounts.account),
    accounts_keyed t ->
    find (fun a => Accounts.a_id a =? i) (Accounts.rows t) = Some cur ->
    let after :=
      snd (updateUser isSqlite now i None None None (Some (Some false))
             (Accounts.sound t)) in
    fst (getUserByUsername (Accounts.a_username cur) after) = Resolved None
    /\ exists row,
         fst (getUserById i after) = Resolved (Some row)
         /\ Accounts.a_isActive row = Some false
         /\ Accounts.a_username row = Accounts.a_username cur.
Proof.
  intros isSqlite now i t cur (Hn & _ & _) Hcur. cbv zeta.
  destruct (deactivate_run isSqlite now i t cur Hcur) as (g & Hg & ->).
  cbn [snd]. unfold getUserByUsername, getUserById. rewrite !call_sound.
  cbn [fst Accounts.select_active Accounts.select_by_id Accounts.rows].
  pose proof (find_some _ _ Hcur) as [Hin Hid].
  split.
  - f_equal. apply find_absent. intros b Hb. apply in_map_iff in Hb.
    destruct Hb as (a & <- & Ha). rewrite Hg.
    destruct (Accounts.a_id a =? i) eqn:E.
    + cbn [Accounts.a_isActive]. apply andb_false_r.
    + apply andb_false_iff. left. apply String.eqb_neq. intros Hname.
      assert (a = cur)
        by exact (NoDup_map_eq Accounts.a_username _ a cur Hn Ha Hin Hname).
      subst a. congruence.
  - exists (g cur). rewrite find_by_id_touched, Hcur.
    + split; [reflexivity|]. rewrite Hg, Hid. now split.
    + intros a. rewrite Hg. now destruct (Accounts.a_id a =? i).
Qed.

Lemma deactivated_account_is_not_found_witness :
  let t := Accounts.mkTable
             [Accounts.mkAccount 1 "admin" "h" "MC" None (Some true) None None] 1 in
  let after :=
    snd (updateUser true "t" 1 None None None (Some (Some false))
           (Accounts.sound t)) in
  fst (getUserByUsername "admin" after) = Resolved None
  /\ exists row,
       fst (getUserById 1 after) = Resolved (Some row)
       /\ Accounts.a_isActive row = Some false
       /\ Accounts.a_username row = "admin"%string.
Proof.
  apply (deactivated_account_is_not_found true "t" 1
           (Accounts.mkTable
              [Accounts.mkAccount 1 "admin" "h" "MC" None (Some true) None None] 1)
           (Accounts.mkAccount 1 "admin" "h" "MC" None (Some true) None None)).
  - unfold accounts_keyed. cbn [map Accounts.rows Accounts.rows_seq
                                Accounts.a_username Accounts.a_id].
    split; [apply NoDup_cons; [intros [] | apply NoDup_nil]|].
    split; [apply NoDup_cons; [intros [] | apply NoDup_nil]|].
    apply Forall_cons; [cbn [Accounts.a_id]; lia | apply Forall_nil].
  - reflexivity.
Defined.

Lemma same_but_update_user (i : N) (password role section : Accounts.field string)
    (isActive : Accounts.field bool) (now : string) (t0 t : Accounts.table) :
  same_but_account i t0 t ->
  same_but_account i t0
    (snd (Accounts.update_user i password role section isActive now t)).
Proof.
  intros (Hk & Hq & Hf). unfold Accounts.update_user.
  destruct (find _ (Accounts.rows t)) as [cur|]; [|now repeat split].
  destruct (Accounts.set_fields password role section isActive now cur) as [new|];
    [|now repeat split].
  cbn [snd]. unfold same_but_account. cbn [Accounts.rows Accounts.rows_seq].
  rewrite <- Hk, <- Hf. split; [|split; [exact Hq|]].
  - rewrite map_map. apply map_ext. intros a.
    destruct (Accounts.a_id a =? i); [|reflexivity].
    destruct (Accounts.set_fields password role section isActive now a) as [b|] eqn:E;
      [|reflexivity].
    now destruct (set_fields_keys _ _ _ _ _ _ _ E) as (-> & -> & ->).
  - clear. induction (Accounts.rows t) as [|a l IH]; [reflexivity|].
    cbn [map filter]. destruct (Accounts.a_id a =? i) eqn:E.
    + destruct (Accounts.set_fields password role section isActive now a) as [b|] eqn:Eb.
      * destruct (set_fields_keys _ _ _ _ _ _ _ Eb) as (-> & _).
        rewrite E. exact IH.
      * rewrite E. exact IH.
    + rewrite E. cbn [negb]. now rewrite IH.
Qed.

(** X26 ([updateUser]): whatever the fields passed and whatever storage
    calls fail, an update of the account [i] changes neither the id, the
    user name nor the creation time of any row, nor the id sequence, nor
    any column of the rows of other accounts; and with no field passed it
    changes nothing at all, not even [updatedAt]. *)
Theorem update_touches_one_account :
  forall (isSqlite : bool) (now : string) (i : N)
         (password role section : Accounts.field string)
         (isActive : Accounts.field bool) (s : Accounts.store),
    same_but_account i (Accounts.tbl s)
      (Accounts.tbl (snd (updateUser isSqlite now i password role section isActive s)))
    /\ Accounts.tbl (snd (updateUser isSqlite now i None None None None s))
       = Accounts.tbl s.
Proof.
  intros isSqlite now i password role section isActive s. split.
  - assert (Hk : keeps_table (same_but_account i (Accounts.tbl s))
                   (updateUser isSqlite now i password role section isActive)).
    { unfold updateUser, getUserById.
      repeat match goal with
             | |- keeps_table _ (Accounts.bind _ _) =>
                 apply keeps_table_bind; [|intros ?]
             | |- keeps_table _ (Accounts.call (Accounts.select_by_id _)) =>
                 apply keeps_table_call; intros ? H; exact H
             | |- keeps_table _ (Accounts.call (Accounts.update_user _ _ _ _ _ _)) =>
                 apply keeps_table_call; intros ? H; now apply same_but_update_user
             | |- keeps_table _ (if ?c then _ else _) => destruct c
             end. }
    apply Hk. now repeat split.
  - unfold updateUser, getUserById. cbn [Accounts.given orb negb].
    destruct (call_cases (Accounts.select_by_id i) s) as [[fs E]|[fs E]];
      rewrite E; reflexivity.
Qed.

Lemma name_in_use (username : string) (l : list Accounts.account) :
  existsb (fun a => String.eqb (Accounts.a_username a) username) l = true
  <-> In username (map Accounts.a_username l).
Proof.
  rewrite existsb_exists, in_map_iff. split.
  - intros (a & Ha & E). apply String.eqb_eq in E. now exists a.
  - intros (a & E & Ha). exists a. split; [exact Ha|].
    rewrite E. apply String.eqb_refl.
Qed.

Lemma find_appended {Row : Type} (test : Row -> bool) (rows : list Row) (row : Row) :
  (forall x, In x rows -> test x = false) -> test row = true ->
  find test (rows ++ [row]) = Some row.
Proof.
  intros Hno Hrow. induction rows as [|x rows IH]; cbn [app find].
  - now rewrite Hrow.
  - rewrite (Hno x (or_introl eq_refl)). apply IH. intros y Hy. apply Hno. now right.
Qed.

Ltac one_row_keyed :=
  unfold accounts_keyed;
  cbn [map Accounts.rows Accounts.rows_seq Accounts.a_username Accounts.a_id];
  (split; [apply NoDup_cons; [intros [] | apply NoDup_nil]|]);
  (split; [apply NoDup_cons; [intros [] | apply NoDup_nil]|]);
  apply Forall_cons; [cbn [Accounts.a_id]; lia | apply Forall_nil].

(** X27 ([createUser], [getUserByUsername]): on a table with distinct
    names and ids, creating an account under a name in use, active or not,
    is rejected and leaves every row as it was; under a fresh name it
    answers the new row, active, with the next id and the fields given,
    appends it to the table, and the lookup by name then answers that
    row; both storage branches. *)
Theorem create_user_needs_a_fresh_name :
  forall (isSqlite : bool) (now username password role : string)
         (section : option string) (t : Accounts.table),
    accounts_keyed t ->
    let run := createUser isSqlite now username password role section
                 (Accounts.sound t) in
    (In username (map Accounts.a_username (Accounts.rows t)) ->
       (exists e, fst run = Rejected e)
       /\ Accounts.rows (Accounts.tbl (snd run)) = Accounts.rows t)
    /\ (~ In username (map Accounts.a_username (Accounts.rows t)) ->
          let row := Accounts.mkAccount (Accounts.rows_seq t + 1) username password
                       role section (Some true) (Some now) (Some now) in
          fst run = Resolved (Some row)
          /\ Accounts.rows (Accounts.tbl (snd run)) = (Accounts.rows t ++ [row])%list
          /\ fst (getUserByUsername username (snd run)) = Resolved (Some row)).
Proof.
  intros isSqlite now username password role section t (Hn & Hi & Hb) run.
  rewrite Forall_forall in Hb. split.
  - intros Hused. apply name_in_use in Hused. subst run. unfold createUser.
    destruct isSqlite; unfold Accounts.bind; rewrite call_sound;
      unfold Accounts.insert_user; rewrite Hused; cbn [fst snd Accounts.tbl Accounts.sound Accounts.rows];
      (split; [eexists; reflexivity | reflexivity]).
  - intros Hfresh row.
    assert (Hex : existsb (fun a => String.eqb (Accounts.a_username a) username)
                    (Accounts.rows t) = false).
    { destruct (existsb _ (Accounts.rows t)) eqn:E; [|reflexivity].
      apply name_in_use in E. contradiction. }
    assert (Hrun : run = (Resolved (Some row),
                          Accounts.sound
                            (Accounts.mkTable (Accounts.rows t ++ [row])
                               (Accounts.rows_seq t + 1)))).
    { subst run. unfold createUser.
      destruct isSqlite; unfold Accounts.bind; rewrite call_sound;
        unfold Accounts.insert_user; rewrite Hex; cbn [fst snd]; [|reflexivity].
      rewrite call_sound. cbn [Accounts.select_by_id fst snd Accounts.rows Accounts.a_id].
      rewrite (find_appended _ (Accounts.rows t) row); [reflexivity | |].
      - intros a Ha. specialize (Hb a Ha). apply N.eqb_neq. lia.
      - cbn [Accounts.a_id]. apply N.eqb_refl. }
    rewrite Hrun. cbn [fst snd Accounts.tbl Accounts.sound Accounts.rows].
    split; [reflexivity|]. split; [reflexivity|].
    unfold getUserByUsername. rewrite call_sound.
    cbn [fst Accounts.select_active Accounts.rows]. f_equal.
    apply find_appended.
    + intros a Ha. apply andb_false_iff. left. apply String.eqb_neq.
      intros E. apply Hfresh. apply in_map_iff. now exists a.
    + cbn [Accounts.a_username Accounts.a_isActive]. now rewrite String.eqb_refl.
Qed.

Lemma create_user_needs_a_fresh_name_witness :
  let run := createUser true "t" "admin" "x" "MC" None (Accounts.sound admin_only) in
  (In "admin"%string (map Accounts.a_username (Accounts.rows admin_only)) ->
     (exists e, fst run = Rejected e)
     /\ Accounts.rows (Accounts.tbl (snd run)) = Accounts.rows admin_only)
  /\ (~ In "admin"%string (map Accounts.a_username (Accounts.rows admin_only)) ->
        let row := Accounts.mkAccount (Accounts.rows_seq admin_only + 1) "admin" "x"
                     "MC" None (Some true) (Some "t"%string) (Some "t"%string) in
        fst run = Resolved (Some row)
        /\ Accounts.rows (Accounts.tbl (snd run))
           = (Accounts.rows admin_only ++ [row])%list
        /\ fst (getUserByUsername "admin" (snd run)) = Resolved (Some row)).
Proof.
  apply (create_user_needs_a_fresh_name true "t" "admin" "x" "MC" None admin_only).
  unfold admin_only. one_row_keyed.
Defined.

(* ------------------------------------------------------------------ *)
(** ** Seeding of the default accounts *)
(* ------------------------------------------------------------------ *)

Section Seeding.

Variable isSqlite : bool.
Variable hash : nat -> string -> string.
Variable clock : nat -> string.

Lemma seed_one_settles (k : nat) (u : default_user) (s : Accounts.store) :
  fst (seed_one isSqlite hash clock k u s) = Resolved tt.
Proof.
  unfold seed_one, Accounts.try_catch.
  match goal with
  | |- fst (match ?m s with _ => _ end) = _ => destruct (m s) as [[[]|e] s1]
  end; reflexivity.
Qed.

Lemma seed_from_settles (users : list default_user) :
  forall k s, fst (seed_from isSqlite hash clock k users s) = Resolved tt.
Proof.
  induction users as [|u users IH]; intros k s; [reflexivity|].
  cbn [seed_from]. unfold Accounts.bind.
  pose proof (seed_one_settles k u s) as H.
  destruct (seed_one isSqlite hash clock k u s) as [[[]|e] s1];
    [apply IH | discriminate H].
Qed.

Lemma seeded_insert (flag : bool) (t0 t : Accounts.table) (k : nat)
    (u : default_user) :
  In u DEFAULT_USERS ->
  seeded_from t0 t ->
  seeded_from t0
    (snd (Accounts.insert_user flag (du_username u) (hash k (du_password u))
            (du_role u) (du_section u) (clock k) t)).
Proof.
  intros Hu (added & Hrows & Hall). unfold Accounts.insert_user.
  destruct (existsb _ (Accounts.rows t)); cbn [snd].
  - exists added. split; [|exact Hall]. now destruct flag.
  - eexists (added ++ [_])%list. cbn [Accounts.rows]. split.
    + rewrite Hrows, <- app_assoc. reflexivity.
    + apply Forall_app. split; [exact Hall|]. constructor; [|constructor].
      exists u. cbn. auto.
Qed.

Lemma seeded_seed_from (t0 : Accounts.table) (users : list default_user) :
  incl users DEFAULT_USERS ->
  forall k, keeps_table (seeded_from t0) (seed_from isSqlite hash clock k users).
Proof.
  induction users as [|u users IH]; intros Hincl k; cbn [seed_from].
  - apply keeps_table_ret.
  - assert (Hu : In u DEFAULT_USERS) by (apply Hincl; now left).
    apply keeps_table_bind;
      [|intros _; apply IH; intros x Hx; apply Hincl; now right].
    unfold seed_one, getUserByUsername, createUser.
    repeat match goal with
           | |- keeps_table _ (Accounts.bind _ _) =>
               apply keeps_table_bind; [|intros ?]
           | |- keeps_table _ (Accounts.ret _) => apply keeps_table_ret
           | |- keeps_table _ (Accounts.try_catch _ _) =>
               apply keeps_table_try_catch; [|intros ?]
           | |- keeps_table _ (Accounts.call (Accounts.insert_user _ _ _ _ _ _)) =>
               apply keeps_table_call; intros ? H; now apply seeded_insert
           | |- keeps_table _ (Accounts.call _) =>
               apply keeps_table_call; intros ? H; exact H
           | |- keeps_table _ (if ?c then _ else _) => destruct c
           | |- keeps_table _ (match ?x with _ => _ end) => destruct x
           end.
Qed.

(** One round of the loop when no storage call fails. *)
Lemma seed_one_sound (k : nat) (u : default_user) (t : Accounts.table) :
  exists t1,
    seed_one isSqlite hash clock k u (Accounts.sound t)
    = (Resolved tt, Accounts.sound t1)
    /\ In (du_username u) (names_of_table t1)
    /\ ((In (du_username u) (names_of_table t)
         /\ Accounts.rows t1 = Accounts.rows t)
        \/ (~ In (du_username u) (names_of_table t)
            /\ exists row, Accounts.rows t1 = (Accounts.rows t ++ [row])%list
                           /\ Accounts.a_username row = du_username u)).
Proof.
  unfold seed_one, Accounts.try_catch, getUserByUsername, names_of_table.
  unfold Accounts.bind at 1. rewrite call_sound.
  cbn [fst snd Accounts.select_active].
  destruct (find _ (Accounts.rows t)) as [a|] eqn:F.
  - apply find_some in F. destruct F as [Hin Hp].
    apply andb_true_iff in Hp. destruct Hp as [Hn _]. apply String.eqb_eq in Hn.
    assert (Hname : In (du_username u) (map Accounts.a_username (Accounts.rows t)))
      by (apply in_map_iff; now exists a).
    exists t. split; [reflexivity|]. split; [exact Hname|]. left. now split.
  - unfold createUser.
    destruct (existsb (fun a => String.eqb (Accounts.a_username a) (du_username u))
                (Accounts.rows t)) eqn:E.
    + pose proof (proj1 (name_in_use _ _) E) as Hname.
      destruct isSqlite; unfold Accounts.bind; rewrite call_sound;
        unfold Accounts.insert_user; rewrite E; cbn [fst snd];
        eexists; (split; [reflexivity|]); cbn [Accounts.rows];
        (split; [exact Hname|]); left; now split.
    + assert (Hfresh : ~ In (du_username u)
                           (map Accounts.a_username (Accounts.rows t))).
      { intros Hin. apply name_in_use in Hin. congruence. }
      destruct isSqlite; unfold Accounts.bind; rewrite call_sound;
        unfold Accounts.insert_user; rewrite E; cbn [fst snd];
        rewrite ?call_sound; cbn [fst snd Accounts.select_by_id];
        eexists; (split; [reflexivity|]); cbn [Accounts.rows];
        (split; [rewrite map_app; apply in_or_app; right; now left|]);
        right; (split; [exact Hfresh|]);
        eexists; (split; [reflexivity|]); reflexivity.
Qed.

Lemma seed_from_sound (users : list default_user) :
  forall k t,
    exists t1,
      seed_from isSqlite hash clock k users (Accounts.sound t)
      = (Resolved tt, Accounts.sound t1)
      /\ (forall n, In n (names_of_table t) -> In n (names_of_table t1))
      /\ (forall u, In u users -> In (du_username u) (names_of_table t1))
      /\ ((forall u, In u users -> In (du_username u) (names_of_table t)) ->
          Accounts.rows t1 = Accounts.rows t).
Proof.
  induction users as [|u users IH]; intros k t; cbn [seed_from].
  - exists t. split; [reflexivity|]. split; [auto|]. split; [intros u []|auto].
  - destruct (seed_one_sound k u t) as (t1 & R1 & Hu & Hcase).
    destruct (IH (S k) t1) as (t2 & R2 & Hmono & Hall & Hsame).
    exists t2. unfold Accounts.bind. rewrite R1. split; [exact R2|].
    assert (Hgrow : forall n, In n (names_of_table t) -> In n (names_of_table t1)).
    { intros n Hn. unfold names_of_table in *.
      destruct Hcase as [[_ ->]|(_ & row & -> & _)]; [exact Hn|].
      rewrite map_app. apply in_or_app. now left. }
    split; [auto|]. split.
    + intros x [<-|Hx]; auto.
    + intros Hpresent.
      assert (E1 : Accounts.rows t1 = Accounts.rows t).
      { destruct Hcase as [[_ E]|(Hfresh & _)]; [exact E|].
        exfalso. apply Hfresh. apply Hpresent. now left. }
      rewrite Hsame, E1; [reflexivity|].
      intros x Hx. apply Hgrow. apply Hpresent. now right.
Qed.

End Seeding.

(** X28 ([seedUsers], with [getUserByUsername] and [createUser]):
    whatever storage calls fail the seeding settles without rejecting,
    leaves the rows it found first and unchanged, and adds only active
    rows of default users.  When no call fails, every default user name is
    in the table afterwards, and a second seeding changes no row: an
    account found switched off is neither duplicated nor switched on
    again. *)
Theorem seeding_adds_missing_defaults_only :
  forall (isSqlite : bool) (hash : nat -> string -> string)
         (clock : nat -> string),
    (forall s,
       fst (seedUsers isSqlite hash clock s) = Resolved tt
       /\ seeded_from (Accounts.tbl s)
            (Accounts.tbl (snd (seedUsers isSqlite hash clock s))))
    /\ (forall t,
          let once := snd (seedUsers isSqlite hash clock (Accounts.sound t)) in
          (forall u, In u DEFAULT_USERS ->
             In (du_username u) (names_of_table (Accounts.tbl once)))
          /\ Accounts.rows (Accounts.tbl (snd (seedUsers isSqlite hash clock once)))
             = Accounts.rows (Accounts.tbl once)).
Proof.
  intros isSqlite hash clock. split.
  - intros s. split; [apply seed_from_settles|].
    apply (seeded_seed_from isSqlite hash clock (Accounts.tbl s) DEFAULT_USERS
             (incl_refl _) 0 s).
    exists []. split; [now rewrite app_nil_r | constructor].
  - intros t once. subst once. unfold seedUsers.
    destruct (seed_from_sound isSqlite hash clock DEFAULT_USERS 0 t)
      as (t1 & R1 & _ & Hall & _).
    rewrite R1. cbn [snd Accounts.tbl Accounts.sound]. split; [exact Hall|].
    destruct (seed_from_sound isSqlite hash clock DEFAULT_USERS 0 t1)
      as (t2 & R2 & _ & _ & Hsame).
    rewrite R2. cbn [snd Accounts.tbl Accounts.sound]. now apply Hsame.
Qed.

(* ------------------------------------------------------------------ *)
(** ** Listing of records *)
(* ------------------------------------------------------------------ *)

Lemma slice_within {Row : Type} (rows : list Row) (start final : Z) (row : Row) :
  In row (JsNumber.slice rows start final) -> In row rows.
Proof.
  unfold JsNumber.slice. intros H.
  set (k := Z.to_nat _) in H. set (n := Z.to_nat _) in H.
  rewrite <- (firstn_skipn n rows). apply in_or_app. right.
  rewrite <- (firstn_skipn k (skipn n rows)). apply in_or_app. now left.
Qed.

Lemma get_records_run (order : list record -> list record) (u : user)
    (q_section q_page q_limit : option string) (w : world) (body : listing) :
  fst (get_records order u q_section q_page q_limit w) = Resolved (Sent body) ->
  let filters :=
    match user_role u with
    | role_SECTION => user_section u
    | role_MC => if truthy q_section then q_section else None
    end in
  let allRecords := fst (select_records order filters (db w)) in
  db (snd (get_records order u q_section q_page q_limit w)) = db w
  /\ l_total body = Z.of_nat (List.length allRecords)
  /\ forall row text,
       In (row, text) (l_records body) ->
       In row allRecords /\ text = coerceRemarksText (remarks row).
Proof.
  unfold get_records, listRecords. io_case; [|discriminate].
  rewrite run_ret. cbn [fst snd db select_records]. intros [= <-].
  cbn [l_total l_records]. split; [reflexivity|]. split; [reflexivity|].
  intros row text Hin. apply in_map_iff in Hin.
  destruct Hin as (r & [= <- <-] & Hr). split; [|reflexivity].
  now apply slice_within in Hr.
Qed.

(** X29 (GET /records, [listRecords], [coerceRemarksText]): whatever the
    query parameters and the order the engine gives, a listing that is
    answered has changed nothing, every row in it is a stored record
    shown with the remarks text [coerceRemarksText] gives, and for a
    SECTION account with a non-empty section every row is of that section,
    whatever [section] the query asks for.  A SECTION account whose token
    carries no section is not filtered: the total counts every record. *)
Theorem listing_is_confined_to_the_section :
  forall (order : list record -> list record),
    (forall l, Permutation (order l) l) ->
    forall (u : user) (q_section q_page q_limit : option string) (w : world)
           (body : listing),
      fst (get_records order u q_section q_page q_limit w) = Resolved (Sent body) ->
      db (snd (get_records order u q_section q_page q_limit w)) = db w
      /\ (forall row text,
            In (row, text) (l_records body) ->
            In row (records (db w)) /\ text = coerceRemarksText (remarks row))
      /\ (user_role u = role_SECTION -> truthy (user_section u) = true ->
          forall row text,
            In (row, text) (l_records body) -> section row = user_section u)
      /\ (user_role u = role_SECTION -> truthy (user_section u) = false ->
          l_total body = Z.of_nat (List.length (records (db w)))).
Proof.
  intros order Horder u q_section q_page q_limit w body Hrun.
  destruct (get_records_run order u q_section q_page q_limit w body Hrun)
    as (Hdb & Htotal & Hrows).
  cbn [select_records fst] in Htotal, Hrows.
  split; [exact Hdb|]. split; [|split].
  - intros row text Hin. destruct (Hrows row text Hin) as [Hall ->].
    split; [|reflexivity].
    apply (Permutation_in _ (Horder _)) in Hall.
    destruct (truthy _); [|exact Hall]. now apply filter_In in Hall.
  - intros Hrole Hsec row text Hin. destruct (Hrows row text Hin) as [Hall _].
    rewrite Hrole in Hall. apply (Permutation_in _ (Horder _)) in Hall.
    rewrite Hsec in Hall. apply filter_In in Hall. destruct Hall as [_ E].
    apply eq_op_spec in E. destruct E as (x & -> & ->). reflexivity.
  - intros Hrole Hsec. rewrite Htotal, Hrole, Hsec.
    now rewrite (Permutation_length (Horder _)).
Qed.

Lemma listing_is_confined_to_the_section_witness :
  db (snd (get_records (fun l => l) inves_user (Some "INTEL") None None
             (healthy Scenario.stale)))
  = db (healthy Scenario.stale)
  /\ (forall row text,
        In (row, text) (l_records stale_listing) ->
        In row (records (db (healthy Scenario.stale)))
        /\ text = coerceRemarksText (remarks row))
  /\ (user_role inves_user = role_SECTION ->
      truthy (user_section inves_user) = true ->
      forall row text,
        In (row, text) (l_records stale_listing) ->
        section row = user_section inves_user)
  /\ (user_role inves_user = role_SECTION ->
      truthy (user_section inves_user) = false ->
      l_total stale_listing
      = Z.of_nat (List.length (records (db (healthy Scenario.stale))))).
Proof.
  apply (listing_is_confined_to_the_section (fun l => l)
           (fun l => Permutation_refl l) inves_user (Some "INTEL") None None
           (healthy Scenario.stale) stale_listing).
  reflexivity.
Defined.

Lemma firstn_capped {Row : Type} (n : nat) (rows : list Row) :
  firstn (Nat.min n (List.length rows)) rows = firstn n rows.
Proof.
  destruct (Nat.le_gt_cases n (List.length rows)) as [H|H].
  - now rewrite Nat.min_l.
  - rewrite Nat.min_r by lia. rewrite firstn_all.
    symmetry. apply firstn_all2. lia.
Qed.

(** A page of positive size at a non-negative offset: the slice is the
    window of [size] rows after the first [offset]. *)
Lemma slice_window {Row : Type} (rows : list Row) (offset size : Z) :
  (0 <= offset)%Z -> (0 <= size)%Z ->
  JsNumber.slice rows offset (offset + size)
  = firstn (Z.to_nat size) (skipn (Z.to_nat offset) rows).
Proof.
  intros Ho Hs. unfold JsNumber.slice, JsNumber.relative.
  destruct (Z.ltb_spec offset 0) as [|_]; [lia|].
  destruct (Z.ltb_spec (offset + size) 0) as [|_]; [lia|].
  set (n := List.length rows).
  destruct (Z.le_gt_cases (Z.of_nat n) offset) as [Hbig|Hsmall].
  - rewrite (Z.min_r offset) by lia. rewrite Nat2Z.id.
    rewrite (skipn_all2 rows (n := Z.to_nat offset)) by (fold n; lia).
    subst n. rewrite skipn_all. now rewrite !firstn_nil.
  - rewrite (Z.min_l offset) by lia.
    rewrite <- (firstn_capped (Z.to_nat size)).
    f_equal. rewrite length_skipn. fold n. lia.
Qed.

Lemma ceil_div_bound (n size k : Z) :
  (0 < size)%Z -> (JsNumber.ceil_div n size <= k <-> n <= k * size)%Z.
Proof.
  intros Hs. unfold JsNumber.ceil_div. split.
  - intros H. pose proof (Z.mul_div_le (- n) size Hs) as Hd.
    assert (size * - k <= size * (- n / size))%Z by (apply Z.mul_le_mono_nonneg_l; lia).
    lia.
  - intros H.
    assert (- k <= - n / size)%Z by (apply Z.div_le_lower_bound; lia).
    lia.
Qed.

Lemma window_empty {Row : Type} (rows : list Row) (offset size : nat) :
  (0 < size)%nat ->
  firstn size (skipn offset rows) = [] <-> (List.length rows <= offset)%nat.
Proof.
  intros Hs. split.
  - intros E. apply (f_equal (@List.length Row)) in E.
    rewrite length_firstn, length_skipn in E. cbn in E. lia.
  - intros H. rewrite skipn_all2 by exact H. apply firstn_nil.
Qed.

(** X30 (GET /records, pagination): with a page number [p] and a limit
    [L] that read as positive integers, and no storage failure, the
    listing holds the rows [(p - 1) L] to [p L - 1] of the result in the
    engine's order, [total] is the number of rows of the result and
    [totalPages] the least number of pages that holds them; the page is
    empty exactly when [p] exceeds [totalPages]. *)
Theorem pages_are_windows_of_the_result :
  forall (order : list record -> list record) (u : user)
         (q_section : option string) (page limit : string) (d : database)
         (p L : Z),
    JsNumber.parseInt10 page = Some p -> (1 <= p)%Z ->
    JsNumber.parseInt10 limit = Some L -> (1 <= L)%Z ->
    let result :=
      fst (select_records order
             match user_role u with
             | role_SECTION => user_section u
             | role_MC => if truthy q_section then q_section else None
             end d) in
    exists body,
      result_of (get_records order u q_section (Some page) (Some limit)) d
      = Resolved (Sent body)
      /\ map fst (l_records body)
         = firstn (Z.to_nat L) (skipn (Z.to_nat ((p - 1) * L)) result)
      /\ l_total body = Z.of_nat (List.length result)
      /\ (forall k, (l_totalPages body <= k <-> l_total body <= k * L)%Z)
      /\ (l_records body = [] <-> (l_totalPages body < p)%Z).
Proof.
  intros order u q_section page limit d p L Hp Hp1 HL HL1 result.
  unfold result_of, get_records, listRecords. io_healthy.
  rewrite run_ret, Hp, HL. cbn [fst].
  replace (JsNumber.or_number (Some p) 1) with p by (destruct p; [lia | |]; reflexivity).
  replace (JsNumber.or_number (Some L) 1000) with L
    by (destruct L; [lia | |]; reflexivity).
  fold result. eexists. split; [reflexivity|]. cbn [l_records l_total l_totalPages].
  rewrite (slice_window result ((p - 1) * L) L) by nia.
  split; [|split; [reflexivity|split]].
  - rewrite map_map. cbn [fst]. apply map_id.
  - intros k. apply ceil_div_bound. lia.
  - assert (Hempty : forall A B (f : A -> B) (l : list A), map f l = [] <-> l = [])
      by (intros A B f [|x l]; cbn; split; intros E; (reflexivity || discriminate E)).
    rewrite Hempty, window_empty by lia.
    assert (Hk := ceil_div_bound (Z.of_nat (List.length result)) L (p - 1)).
    assert (Hoff : (0 <= (p - 1) * L)%Z) by nia.
    specialize (Hk ltac:(lia)). lia.
Qed.

Lemma pages_are_windows_of_the_result_witness :
  exists body,
    result_of (get_records (fun l => l) Scenario.office_user None (Some "2")
                 (Some " 2")) Scenario.stale
    = Resolved (Sent body)
    /\ map fst (l_records body)
       = firstn (Z.to_nat 2)
           (skipn (Z.to_nat ((2 - 1) * 2))
              (fst (select_records (fun l => l) None Scenario.stale)))
    /\ l_total body
       = Z.of_nat (List.length (fst (select_records (fun l => l) None Scenario.stale)))
    /\ (forall k, (l_totalPages body <= k <-> l_total body <= k * 2)%Z)
    /\ (l_records body = [] <-> (l_totalPages body < 2)%Z).
Proof.
  apply (pages_are_windows_of_the_result (fun l => l) Scenario.office_user None
           "2" " 2" Scenario.stale 2 2); (reflexivity || lia).
Defined.
